(** * The offline data layer of compu-caddy: GolfDB and the useGolfData hook

    A shallow embedding of [utils/GolfDB] (the IndexedDB wrapper with its
    sync queue and conflict methods), of the functions of
    [hooks/useGolfData.ts] that save, mark, delete, export, import, clear
    and synchronise, and of the mock course of [GolfCourseAPI].

    Conventions of the embedding.
    - JavaScript values are the type [value]; an object is the list of its
      own enumerable string-keyed data properties in insertion order.
      Prototype properties and array-index property names are outside the
      modelled fragment. A number is an integer ([VNum], over [Z]: the
      timestamps, counters and scores the application stores) or one of
      [NaN], [Infinity] and [-Infinity] ([VNonFinite]); fractions are
      outside the modelled fragment.
    - An IndexedDB object store is the list of its records in ascending key
      order, which is the order [getAll] reports them in.
    - A method of [GolfDB] runs ([run]) from the database to an outcome and
      the database after the call. A rejected promise is the outcome [Err].
    - [Date.now()] and [Math.random()] readings are arguments of the
      functions that take them, in the order of the calls.
    - Where JavaScript's dynamic coercions leave the modelled fragment the
      outcome is [Err OutsideModel]; no handler of the program catches it. *)

From Stdlib Require Import ZArith String List Bool Lia Sorted FinFun.
From stdpp Require Import gmap strings pretty.
Import ListNotations.
Local Open Scope string_scope.
Local Open Scope list_scope.
Local Open Scope Z_scope.

(** ** JavaScript values *)

(** The numbers that hold no integer or fraction. *)
Inductive nonfinite := NaN | Infinity | NegInfinity.

#[warnings="-register-all"]
Inductive value :=
| VUndef
| VNull
| VBool (b : bool)
| VNum (n : Z)
| VStr (s : string)
| VArr (l : list value)
| VObj (o : list (string * value))
| VNonFinite (x : nonfinite).

Definition obj := list (string * value).

(** [if (v)], [!v], [a && b], [a || b] *)
Definition truthy (v : value) : bool :=
  match v with
  | VUndef | VNull => false
  | VBool b => b
  | VNum n => negb (n =? 0)
  | VStr s => negb (String.eqb s "")
  | VArr _ | VObj _ => true
  | VNonFinite x => match x with NaN => false | _ => true end
  end.

Definition js_and (a b : value) : value := if truthy a then b else a.
Definition js_or (a b : value) : value := if truthy a then a else b.

(** [a === b]. Two objects or arrays are equal only when they are the same
    reference; the values of the model come out of the store, of a JSON text
    or of a literal and never alias, so such operands compare unequal. *)
Definition strict_eq (a b : value) : bool :=
  match a, b with
  | VUndef, VUndef | VNull, VNull => true
  | VBool x, VBool y => Bool.eqb x y
  | VNum x, VNum y => x =? y
  | VStr x, VStr y => String.eqb x y
  | VNonFinite Infinity, VNonFinite Infinity
  | VNonFinite NegInfinity, VNonFinite NegInfinity => true
  | _, _ => false
  end.

(** The equality of the elements of a [Set]: [===], but [NaN] is equal to
    itself. *)
Definition sameValueZero (a b : value) : bool :=
  match a, b with
  | VNonFinite NaN, VNonFinite NaN => true
  | _, _ => strict_eq a b
  end.

Definition isArray (v : value) : bool :=
  match v with VArr _ => true | _ => false end.

Definition typeof_number (v : value) : bool :=
  match v with VNum _ | VNonFinite _ => true | _ => false end.

Definition typeof_object (v : value) : bool :=
  match v with VNull | VArr _ | VObj _ => true | _ => false end.

(** [x + 1] on a number that holds the integer [n]. A number is a double:
    the sum is exact while it is at most 2^53 in size; above, it is the
    nearest integer a double holds, the one with the even mantissa when
    two are as near (from 2^53 on, adding one no longer counts). *)
Definition js_succ (n : Z) : Z :=
  if (- 2 ^ 53 <=? n) && (n <? 2 ^ 53) then n + 1
  else if Z.abs n <? 2 ^ 54 then (if n mod 4 =? 0 then n else n + 2)
  else n.

(** ** Objects: property read, property write, spread *)

Fixpoint obj_get (o : obj) (f : string) : value :=
  match o with
  | [] => VUndef
  | (g, v) :: o' => if String.eqb g f then v else obj_get o' f
  end.

(** [o[f] = v]: an existing property keeps its place, a new one goes last. *)
Fixpoint obj_set (o : obj) (f : string) (v : value) : obj :=
  match o with
  | [] => [(f, v)]
  | (g, w) :: o' => if String.eqb g f then (g, v) :: o' else (g, w) :: obj_set o' f v
  end.

(** [{ ...v }]: the own properties of an object, nothing for [null],
    [undefined], a boolean or a number. *)
Definition spread (v : value) : obj :=
  match v with VObj o => o | _ => [] end.

(** ** Outcomes *)

Inductive exn :=
| NotFoundError          (* transaction on an object store that does not exist *)
| ConstraintError        (* add on a key that is already there *)
| DataError              (* the key path yields no valid key *)
| TypeError              (* property access on null or undefined *)
| SyncItemFailed         (* the remote endpoint refused a pushed mutation *)
| Thrown (msg : string)  (* throw new Error(msg) *)
| OutsideModel.

Inductive result (A : Type) :=
| Ok (a : A)
| Err (e : exn).
Arguments Ok {A} a.
Arguments Err {A} e.

(** [v[f]] and [v.f] *)
Definition prop (v : value) (f : string) : result value :=
  match v with
  | VUndef | VNull => Err TypeError
  | VObj o => Ok (obj_get o f)
  | VBool _ | VNum _ | VNonFinite _ => Ok VUndef
  | VStr _ | VArr _ => Err OutsideModel
  end.

(** [v.f = x] in strict-mode code (an ES module) *)
Definition set_prop (v : value) (f : string) (x : value) : result value :=
  match v with
  | VObj o => Ok (VObj (obj_set o f x))
  | VArr _ => Err OutsideModel
  | _ => Err TypeError
  end.

(** ** The monads: outcomes, and asynchronous methods over a state *)

#[global] Instance result_ret : MRet result := fun A a => Ok a.
#[global] Instance result_bind : MBind result :=
  fun A B k r => match r with Ok a => k a | Err e => Err e end.

Record M (S A : Type) : Type := Run { run : S -> result A * S }.
Arguments Run {S A} _.
Arguments run {S A} _ _.

#[global] Instance M_ret {S} : MRet (M S) := fun A a => Run (fun s => (Ok a, s)).
#[global] Instance M_bind {S} : MBind (M S) :=
  fun A B k m => Run (fun s => match run m s with
                               | (Ok a, s') => run (k a) s'
                               | (Err e, s') => (Err e, s')
                               end).

Definition throw {S A} (e : exn) : M S A := Run (fun s => (Err e, s)).

Definition lift {S A} (r : result A) : M S A := Run (fun s => (r, s)).

(** [try { m } catch (error) { h }] *)
Definition try_catch {S A} (m : M S A) (h : exn -> M S A) : M S A :=
  Run (fun s => match run m s with
                | (Ok a, s') => (Ok a, s')
                | (Err OutsideModel, s') => (Err OutsideModel, s')
                | (Err e, s') => run (h e) s'
                end).

(** [for (const x of l) { body x }] *)
Fixpoint for_of {S A} (l : list A) (body : A -> M S unit) : M S unit :=
  match l with
  | [] => mret tt
  | x :: l' => body x ;; for_of l' body
  end.

(** ** Keys and object stores *)

Inductive key :=
| KNum (n : Z)
| KStr (s : string).

(** IndexedDB orders numbers before strings. *)
Definition key_compare (a b : key) : comparison :=
  match a, b with
  | KNum x, KNum y => Z.compare x y
  | KNum _, KStr _ => Lt
  | KStr _, KNum _ => Gt
  | KStr s, KStr t => String.compare s t
  end.

Definition key_value (k : key) : value :=
  match k with KNum n => VNum n | KStr s => VStr s end.

(** A value used as a key: [store.get(key)], [store.delete(key)]. [NaN]
    is no valid key. Array and date keys, and the two infinities as keys,
    are outside the modelled fragment. *)
Definition to_key (v : value) : result key :=
  match v with
  | VNum n => Ok (KNum n)
  | VStr s => Ok (KStr s)
  | VArr _ | VNonFinite Infinity | VNonFinite NegInfinity => Err OutsideModel
  | _ => Err DataError
  end.

(** The in-line key of a record under a key path. *)
Definition keyOf (path : string) (data : value) : result key :=
  match data with
  | VObj o => to_key (obj_get o path)
  | VArr _ => Err OutsideModel
  | _ => Err DataError
  end.

Definition objectStore := list (key * value).

Fixpoint store_get (k : key) (s : objectStore) : option value :=
  match s with
  | [] => None
  | (k', v) :: s' =>
      match key_compare k k' with
      | Eq => Some v
      | _ => store_get k s'
      end
  end.

Fixpoint store_put (k : key) (v : value) (s : objectStore) : objectStore :=
  match s with
  | [] => [(k, v)]
  | (k', v') :: s' =>
      match key_compare k k' with
      | Eq => (k, v) :: s'
      | Lt => (k, v) :: (k', v') :: s'
      | Gt => (k', v') :: store_put k v s'
      end
  end.

Fixpoint store_delete (k : key) (s : objectStore) : objectStore :=
  match s with
  | [] => []
  | (k', v) :: s' =>
      match key_compare k k' with
      | Eq => store_delete k s'
      | _ => (k', v) :: store_delete k s'
      end
  end.

(** ** GolfDB *)

Module GolfDB.

(** The database: object store name to object store. *)
Abbreviation DB := (gmap string objectStore).

(** [init], [onupgradeneeded]: every store has key path [id] except
    [settings], whose key path is [key]. *)
Definition keyPath (storeName : string) : string :=
  if String.eqb storeName "settings" then "key" else "id".

Definition init : DB :=
  list_to_map
    [("courses", []); ("rounds", []); ("holeScores", []); ("settings", []);
     ("conflicts", []); ("syncQueue", [])].

(** [this.db.transaction(storeName, mode).objectStore(storeName)] *)
Definition objectStoreOf (storeName : string) : M DB objectStore :=
  Run (fun db => match db !! storeName with
                 | Some s => (Ok s, db)
                 | None => (Err NotFoundError, db)
                 end).

Definition add (storeName : string) (data : value) : M DB key :=
  store ← objectStoreOf storeName;
  k ← lift (keyOf (keyPath storeName) data);
  match store_get k store with
  | Some _ => throw ConstraintError
  | None => Run (fun db => (Ok k, <[storeName := store_put k data store]> db))
  end.

Definition put (storeName : string) (data : value) : M DB key :=
  store ← objectStoreOf storeName;
  k ← lift (keyOf (keyPath storeName) data);
  Run (fun db => (Ok k, <[storeName := store_put k data store]> db)).

Definition get (storeName : string) (keyv : value) : M DB value :=
  store ← objectStoreOf storeName;
  k ← lift (to_key keyv);
  mret (match store_get k store with Some v => v | None => VUndef end).

Definition getAll (storeName : string) : M DB (list value) :=
  store ← objectStoreOf storeName;
  mret (map snd store).

Definition delete (storeName : string) (keyv : value) : M DB unit :=
  store ← objectStoreOf storeName;
  k ← lift (to_key keyv);
  Run (fun db => (Ok tt, <[storeName := store_delete k store]> db)).

(** *** The schema upgrade and the indexes *)

(** One [if (!db.objectStoreNames.contains(name)) db.createObjectStore(name, ...)]
    of [onupgradeneeded]. *)
Definition createIfMissing (storeName : string) (db : DB) : DB :=
  match db !! storeName with
  | Some _ => db
  | None => <[storeName := []]> db
  end.

Definition onupgradeneeded (db : DB) : DB :=
  createIfMissing "syncQueue"
    (createIfMissing "conflicts"
       (createIfMissing "settings"
          (createIfMissing "holeScores"
             (createIfMissing "rounds"
                (createIfMissing "courses" db))))).









(** *** Conflict detection *)

(** [a > b] and [a < b] on two timestamps. The operands that reach the
    comparison are truthy; the application stores numbers there
    ([lastModified?: number], always a [Date.now()] reading). *)
Definition js_gt (a b : value) : result bool :=
  match a, b with
  | VNum x, VNum y => Ok (y <? x)
  | _, _ => Err OutsideModel
  end.

Definition js_lt (a b : value) : result bool :=
  match a, b with
  | VNum x, VNum y => Ok (x <? y)
  | _, _ => Err OutsideModel
  end.

(** [l.find(p)], [undefined] when no element satisfies [p] *)
Fixpoint js_find (p : value -> result bool) (l : list value) : result value :=
  match l with
  | [] => Ok VUndef
  | x :: l' => b ← p x; if b : bool then Ok x else js_find p l'
  end.

(** [item => item.id === other.id] *)
Definition same_id (other item : value) : result bool :=
  a ← prop item "id";
  b ← prop other "id";
  mret (strict_eq a b).

(** [{ type, local, remote }] *)
Definition conflictOf (type : string) (local remote : value) : value :=
  VObj [("type", VStr type); ("local", local); ("remote", remote)].

Fixpoint flat_mapM {A B} (f : A -> result (list B)) (l : list A) : result (list B) :=
  match l with
  | [] => Ok []
  | x :: l' => ys ← f x; zs ← flat_mapM f l'; mret (ys ++ zs)
  end.

Section Detect.

(** [JSON.stringify], a built-in of the platform: the comparison only asks
    whether two serializations are the same string. *)
Variable JSON_stringify : value -> string.

(** [if (JSON.stringify(remoteItem) !== JSON.stringify(localItem)) push content_conflict] *)
Definition contentCheck (localItem remoteItem : value) : list value :=
  if negb (String.eqb (JSON_stringify remoteItem) (JSON_stringify localItem))
  then [conflictOf "content_conflict" localItem remoteItem]
  else [].

(** The branch [if (localItem) { ... }] of the first loop. *)
Definition compareItems (localItem remoteItem : value) : result (list value) :=
  rm ← prop remoteItem "lastModified";
  lm ← (if truthy rm then prop localItem "lastModified" else Ok rm);
  if truthy (js_and rm lm) then
    gt ← js_gt rm lm;
    if gt : bool then mret [conflictOf "server_newer" localItem remoteItem]
    else
      lt ← js_lt rm lm;
      if lt : bool then mret [conflictOf "local_newer" localItem remoteItem]
      else mret (contentCheck localItem remoteItem)
  else mret (contentCheck localItem remoteItem).

(** One turn of [for (const remoteItem of remoteData)]. *)
Definition detectRemote (localData : list value) (remoteItem : value) : result (list value) :=
  localItem ← js_find (same_id remoteItem) localData;
  if truthy localItem then compareItems localItem remoteItem
  else mret [conflictOf "server_only" VNull remoteItem].

(** One turn of [for (const localItem of localData)]. *)
Definition detectLocal (remoteData : list value) (localItem : value) : result (list value) :=
  remoteItem ← js_find (same_id localItem) remoteData;
  if negb (truthy remoteItem) then mret [conflictOf "local_only" localItem VNull]
  else mret [].

(** The two loops, over the [localData] that [getAll] returned. *)
Definition detectIn (localData remoteData : list value) : result (list value) :=
  fromRemote ← flat_mapM (detectRemote localData) remoteData;
  fromLocal ← flat_mapM (detectLocal remoteData) localData;
  mret (fromRemote ++ fromLocal).

Definition detectConflicts (storeName : string) (remoteData : list value) : M DB (list value) :=
  localData ← getAll storeName;
  lift (detectIn localData remoteData).

End Detect.

(** *** Conflict resolution *)

(** [resolution]: [{ strategy, mergeRules }] *)
Record resolution := { strategy : value; mergeRules : value }.

(** [[...new Set(l)]]: first occurrences, in order *)
Fixpoint setOf (l seen : list value) : list value :=
  match l with
  | [] => seen
  | x :: l' => if existsb (sameValueZero x) seen then setOf l' seen else setOf l' (seen ++ [x])
  end.

(** [Object.entries(v)] *)
Definition entries (v : value) : result obj :=
  match v with
  | VObj o => Ok o
  | VArr _ | VStr _ => Err OutsideModel
  | _ => Ok []
  end.

(** The body of [for (const [field, rule] of ...)]: the [switch (rule)]. *)
Definition mergeRule (local remote : value) (merged : obj) (fr : string * value) : result obj :=
  let (field, rule) := fr in
  if strict_eq rule (VStr "use_remote") then
    v ← prop remote field; mret (obj_set merged field v)
  else if strict_eq rule (VStr "use_local") then mret merged
  else if strict_eq rule (VStr "combine") then
    lf ← prop local field;
    match lf with
    | VArr ls =>
        rf ← prop remote field;
        match rf with
        | VArr rs => mret (obj_set merged field (VArr (setOf (ls ++ rs) [])))
        | _ => mret merged
        end
    | _ => mret merged
    end
  else if strict_eq rule (VStr "latest") then
    v ← prop remote field; mret (obj_set merged field v)
  else mret merged.

Fixpoint foldM {A B} (f : A -> B -> result A) (a : A) (l : list B) : result A :=
  match l with
  | [] => Ok a
  | x :: l' => a' ← f a x; foldM f a' l'
  end.

Definition mergeData (storeName : string) (local remote rules : value) : result value :=
  rs ← entries (js_or rules (VObj []));
  merged ← foldM (mergeRule local remote) (spread local) rs;
  mret (VObj merged).

(** [{ ...v, lastModified: Date.now(), synced: false }] *)
Definition touched (v : value) (now : Z) : value :=
  VObj (obj_set (obj_set (spread v) "lastModified" (VNum now)) "synced" (VBool false)).

(** [{ ...v, synced: true }] *)
Definition accepted (v : value) : value :=
  VObj (obj_set (spread v) "synced" (VBool true)).

Definition storeConflict (storeName : string) (conflict : value) (now now' : Z) : M DB unit :=
  let conflictData :=
    VObj [("id", VStr ("conflict-" +:+ pretty now));
          ("storeName", VStr storeName);
          ("conflict", conflict);
          ("timestamp", VNum now')] in
  try_catch (add "conflicts" conflictData ;; mret tt) (fun _ => mret tt).

(** [now] is the reading of the first [Date.now()] of the call, [now'] of
    the second (only [storeConflict] takes two). *)
Definition resolveConflict (storeName : string) (conflict : value) (res : resolution)
    (now now' : Z) : M DB unit :=
  local ← lift (prop conflict "local");
  remote ← lift (prop conflict "remote");
  if strict_eq (strategy res) (VStr "use_local") then
    put storeName (touched local now) ;; mret tt
  else if strict_eq (strategy res) (VStr "use_remote") then
    put storeName (accepted remote) ;; mret tt
  else if strict_eq (strategy res) (VStr "merge") then
    merged ← lift (mergeData storeName local remote (mergeRules res));
    put storeName (touched merged now) ;; mret tt
  else if strict_eq (strategy res) (VStr "manual") then
    storeConflict storeName conflict now now'
  else mret tt.

Definition getPendingConflicts : M DB (list value) :=
  try_catch (getAll "conflicts") (fun _ => mret []).

(** The store name read back from a stored conflict; names that are not
    strings are outside the modelled fragment. *)
Definition storeNameOf (v : value) : result string :=
  match v with VStr s => Ok s | _ => Err OutsideModel end.

Definition resolveStoredConflict (conflictId : value) (res : resolution)
    (now now' : Z) : M DB unit :=
  conflict ← get "conflicts" conflictId;
  if truthy conflict then
    name ← lift (prop conflict "storeName");
    storeName ← lift (storeNameOf name);
    inner ← lift (prop conflict "conflict");
    resolveConflict storeName inner res now now' ;;
    delete "conflicts" conflictId
  else mret tt.

(** *** The synchronisation queue *)

(** [rnd] is the rendering of the [Math.random()] reading in the template
    string of the id. *)
Definition addToSyncQueue (storeName operation data : value)
    (now : Z) (rnd : string) (now' : Z) : M DB unit :=
  let syncItem :=
    VObj [("id", VStr ("sync-" +:+ pretty now +:+ "-" +:+ rnd));
          ("storeName", storeName);
          ("operation", operation);
          ("data", data);
          ("timestamp", VNum now');
          ("retries", VNum 0);
          ("status", VStr "pending")] in
  try_catch (add "syncQueue" syncItem ;; mret tt) (fun _ => mret tt).

Definition getSyncQueue : M DB (list value) :=
  try_catch (getAll "syncQueue") (fun _ => mret []).

Definition markSyncItemComplete (syncId : value) : M DB unit :=
  item ← get "syncQueue" syncId;
  if truthy item then
    item ← lift (set_prop item "status" (VStr "completed"));
    put "syncQueue" item ;; mret tt
  else mret tt.

Definition removeFromSyncQueue (syncId : value) : M DB unit :=
  delete "syncQueue" syncId.

(** [item.retries += 1] on the counter [addToSyncQueue] starts at 0 *)
Definition increment (v : value) : result value :=
  match v with
  | VNum n => Ok (VNum (js_succ n))
  | VNonFinite x => Ok (VNonFinite x)
  | _ => Err OutsideModel
  end.

Definition retrySyncItem (syncId : value) : M DB unit :=
  item ← get "syncQueue" syncId;
  if truthy item then
    retries ← lift (prop item "retries");
    retries ← lift (increment retries);
    item ← lift (set_prop item "retries" retries);
    item ← lift (set_prop item "status" (VStr "pending"));
    put "syncQueue" item ;; mret tt
  else mret tt.

End GolfDB.

(** ** GolfCourseAPI: the mock course

    What [getCourseDetails] builds when it runs on mock data: the holes
    and the par of the course. The tee boxes of the mock course are
    literals with fractional ratings and are not part of the model. *)

Module GolfCourseAPI.

(** [i % 3 === 0 ? a : i % 3 === 1 ? b : c]; [%] is the remainder of the
    truncated division. *)
Definition byThird (i a b c : Z) : Z :=
  if Z.rem i 3 =? 0 then a else if Z.rem i 3 =? 1 then b else c.

(** The hole that [Array.from({ length: 18 }, (_, i) => ...)] builds at
    index [i]. *)
Definition mockHole (i : Z) : value :=
  VObj [("number", VNum (i + 1));
        ("par", VNum (byThird i 3 4 5));
        ("handicap", VNum (Z.rem (i * 7) 18 + 1));
        ("yardages",
         VObj [("championship", VNum (byThird i (180 + i * 5) (380 + i * 10) (520 + i * 8)));
               ("regular", VNum (byThird i (160 + i * 5) (350 + i * 10) (480 + i * 8)));
               ("forward", VNum (byThird i (140 + i * 5) (320 + i * 10) (440 + i * 8)))])].

Definition mockHoles : list value :=
  map (fun i => mockHole (Z.of_nat i)) (seq 0 18).

(** [sum + h.par] on numbers *)
Definition js_add (a b : value) : result value :=
  match a, b with
  | VNum x, VNum y => Ok (VNum (x + y))
  | _, _ => Err OutsideModel
  end.

(** [mockHoles.reduce((sum, h) => sum + h.par, 0)] *)
Definition mockPar : result value :=
  GolfDB.foldM (fun sum h => p ← prop h "par"; js_add sum p) (VNum 0) mockHoles.

End GolfCourseAPI.

(** ** JSON text: what [JSON.parse] reads back from [JSON.stringify]

    A property whose value is [undefined] is left out of an object, an
    [undefined] element of an array comes back as [null]; every other value
    of the model comes back as it is. *)
Fixpoint json_clone (v : value) : value :=
  match v with
  | VArr l =>
      VArr (map (fun x => match x with VUndef => VNull | _ => json_clone x end) l)
  | VObj o =>
      VObj ((fix props (o : list (string * value)) : list (string * value) :=
               match o with
               | [] => []
               | (f, VUndef) :: o' => props o'
               | (f, x) :: o' => (f, json_clone x) :: props o'
               end) o)
  | VNonFinite _ => VNull
  | _ => v
  end.

(** A serializer to run the comparison with: the text [JSON.stringify]
    gives for a value whose strings need no escape. *)
Definition quote : string := String (Ascii.ascii_of_nat 34) EmptyString.

Fixpoint render (v : value) : string :=
  match v with
  | VUndef | VNull | VNonFinite _ => "null"
  | VBool b => if b then "true" else "false"
  | VNum n => pretty n
  | VStr s => quote +:+ s +:+ quote
  | VArr l =>
      "[" +:+ String.concat ","
                ((fix elems (l : list value) : list string :=
                    match l with
                    | [] => []
                    | x :: l' => render x :: elems l'
                    end) l) +:+ "]"
  | VObj o =>
      "{" +:+ String.concat ","
                ((fix props (o : list (string * value)) : list string :=
                    match o with
                    | [] => []
                    | (f, VUndef) :: o' => props o'
                    | (f, x) :: o' => (quote +:+ f +:+ quote +:+ ":" +:+ render x) :: props o'
                    end) o) +:+ "}"
  end.

(** ** The hook useGolfData *)

Module useGolfData.
Import GolfDB.

Inductive SyncStatus := idle | syncing | error.

(** The IndexedDB database with the React state of the hook. [db] is
    [true] once [setDb(database)] has run ([db !== null]). *)
Record World := {
  idb : DB;
  db : bool;
  courses : list value;
  rounds : list value;
  holeScores : list value;
  isOnline : bool;
  syncStatus : SyncStatus;
  pendingConflicts : list value
}.

Definition withIdb (d : DB) (w : World) : World :=
  {| idb := d; db := db w; courses := courses w; rounds := rounds w;
     holeScores := holeScores w; isOnline := isOnline w;
     syncStatus := syncStatus w; pendingConflicts := pendingConflicts w |}.

Definition setCourses (l : list value) : M World unit :=
  Run (fun w => (Ok tt,
    {| idb := idb w; db := db w; courses := l; rounds := rounds w;
       holeScores := holeScores w; isOnline := isOnline w;
       syncStatus := syncStatus w; pendingConflicts := pendingConflicts w |})).

Definition setRounds (l : list value) : M World unit :=
  Run (fun w => (Ok tt,
    {| idb := idb w; db := db w; courses := courses w; rounds := l;
       holeScores := holeScores w; isOnline := isOnline w;
       syncStatus := syncStatus w; pendingConflicts := pendingConflicts w |})).

Definition setHoleScores (l : list value) : M World unit :=
  Run (fun w => (Ok tt,
    {| idb := idb w; db := db w; courses := courses w; rounds := rounds w;
       holeScores := l; isOnline := isOnline w;
       syncStatus := syncStatus w; pendingConflicts := pendingConflicts w |})).

Definition withSyncStatus (st : SyncStatus) (w : World) : World :=
  {| idb := idb w; db := db w; courses := courses w; rounds := rounds w;
     holeScores := holeScores w; isOnline := isOnline w;
     syncStatus := st; pendingConflicts := pendingConflicts w |}.

Definition setSyncStatus (st : SyncStatus) : M World unit :=
  Run (fun w => (Ok tt, withSyncStatus st w)).

Definition withPendingConflicts (l : list value) (w : World) : World :=
  {| idb := idb w; db := db w; courses := courses w; rounds := rounds w;
     holeScores := holeScores w; isOnline := isOnline w;
     syncStatus := syncStatus w; pendingConflicts := l |}.

Definition setPendingConflicts (l : list value) : M World unit :=
  Run (fun w => (Ok tt, withPendingConflicts l w)).

(** [await db.method(...)], [await db!.method(...)]: a call on the
    database handle; on a [null] handle the property access throws. *)
Definition onDb {A} (m : M DB A) : M World A :=
  Run (fun w =>
    if db w then
      let (r, d) := run m (idb w) in (r, withIdb d w)
    else (Err TypeError, w)).

(** *** Export, import, clear *)

(** The object [exportData] serializes into the backup file. *)
Definition exportData (exportDate : string) (w : World) : value :=
  VObj [("courses", VArr (courses w));
        ("rounds", VArr (rounds w));
        ("holeScores", VArr (holeScores w));
        ("exportDate", VStr exportDate)].

(** What [JSON.parse] reads from the file [exportData] wrote. *)
Definition backupOf (exportDate : string) (w : World) : value :=
  json_clone (exportData exportDate w).

(** The checks read properties of one value, so once the first read has
    succeeded the others do: reading them all before the test changes
    nothing of the short-circuit [||]. *)
Definition validCourse (course : value) : M World unit :=
  id ← lift (prop course "id");
  name ← lift (prop course "name");
  if negb (truthy id) || negb (truthy name)
  then throw (Thrown "Invalid course data. Each course must have an id and name.")
  else mret tt.

Definition validRound (round : value) : M World unit :=
  id ← lift (prop round "id");
  courseId ← lift (prop round "courseId");
  totalScore ← lift (prop round "totalScore");
  if negb (truthy id) || negb (truthy courseId) || negb (typeof_number totalScore)
  then throw (Thrown "Invalid round data. Each round must have id, courseId, and totalScore.")
  else mret tt.

Definition validHole (hole : value) : M World unit :=
  id ← lift (prop hole "id");
  roundId ← lift (prop hole "roundId");
  score ← lift (prop hole "score");
  if negb (truthy id) || negb (truthy roundId) || negb (typeof_number score)
  then throw (Thrown "Invalid hole score data. Each hole must have id, roundId, and score.")
  else mret tt.

(** [parsed] is what [JSON.parse(text)] returns, [None] when it throws a
    [SyntaxError]. Every other error is thrown on as it is. *)
Definition importData (parsed : option value) : M World unit :=
  match parsed with
  | None => throw (Thrown "Invalid JSON format. Please check your backup file.")
  | Some data =>
      if negb (truthy data) || negb (typeof_object data)
      then throw (Thrown "Invalid data format. Expected a JSON object.")
      else
        cs ← lift (prop data "courses");
        match cs with
        | VArr cs =>
            rs ← lift (prop data "rounds");
            match rs with
            | VArr rs =>
                hs ← lift (prop data "holeScores");
                match hs with
                | VArr hs =>
                    for_of cs validCourse ;;
                    for_of rs validRound ;;
                    for_of hs validHole ;;
                    for_of cs (fun course => onDb (put "courses" course) ;; mret tt) ;;
                    for_of rs (fun round => onDb (put "rounds" round) ;; mret tt) ;;
                    for_of hs (fun hole => onDb (put "holeScores" hole) ;; mret tt) ;;
                    setCourses cs ;;
                    setRounds rs ;;
                    setHoleScores hs
                | _ => throw (Thrown "Invalid hole scores data. Expected an array.")
                end
            | _ => throw (Thrown "Invalid rounds data. Expected an array.")
            end
        | _ => throw (Thrown "Invalid courses data. Expected an array.")
        end
  end.

(** [for (const x of all) await db!.delete(storeName, x.id)] *)
Definition deleteEach (storeName : string) (all : list value) : M World unit :=
  for_of all (fun x => id ← lift (prop x "id"); onDb (delete storeName id)).

Definition clearAllData : M World unit :=
  allCourses ← onDb (getAll "courses");
  allRounds ← onDb (getAll "rounds");
  allHoles ← onDb (getAll "holeScores");
  deleteEach "courses" allCourses ;;
  deleteEach "rounds" allRounds ;;
  deleteEach "holeScores" allHoles ;;
  setCourses [] ;;
  setRounds [] ;;
  setHoleScores [].

(** *** Offline sync *)

Definition loadPendingConflicts : M World unit :=
  Run (fun w =>
    if negb (db w) then (Ok tt, w)
    else run (try_catch
                (conflicts ← onDb getPendingConflicts; setPendingConflicts conflicts)
                (fun _ => mret tt)) w).

(** The same body as [loadPendingConflicts]: the remote fetch is a comment. *)
Definition checkForConflicts : M World unit := loadPendingConflicts.

Section Sync.

(** The remote synchronization endpoint. The three cases of
    [processSyncItem] are placeholders in the source (a comment each); the
    push they stand for is the parameter [push], [true] when the endpoint
    accepts the item. The source as it is runs with the push that always
    succeeds, [noPush]. *)
Variable push : value -> bool.

Definition pushed (item : value) : M World unit :=
  if push item then mret tt else throw SyncItemFailed.

Definition processSyncItem (item : value) : M World unit :=
  operation ← lift (prop item "operation");
  if strict_eq operation (VStr "add") then pushed item
  else if strict_eq operation (VStr "put") then pushed item
  else if strict_eq operation (VStr "delete") then pushed item
  else mret tt.

(** One turn of [for (const item of syncQueue)]. *)
Definition syncItem (item : value) : M World unit :=
  try_catch
    (processSyncItem item ;;
     id ← lift (prop item "id");
     onDb (markSyncItemComplete id))
    (fun _ =>
     id ← lift (prop item "id");
     onDb (retrySyncItem id)).

Definition performSync : M World unit :=
  Run (fun w =>
    if negb (db w) || negb (isOnline w) then (Ok tt, w)
    else run (try_catch
                (setSyncStatus syncing ;;
                 syncQueue ← onDb getSyncQueue;
                 for_of syncQueue syncItem ;;
                 checkForConflicts ;;
                 setSyncStatus idle)
                (fun _ => setSyncStatus error)) w).

End Sync.

Definition noPush (item : value) : bool := true.

(** *** Saving, marking and deleting *)

(** The React state as the function being run closed over it. *)
Definition hookState : M World World := Run (fun w => (Ok w, w)).

Fixpoint mapM {A B} (f : A -> result B) (l : list A) : result (list B) :=
  match l with
  | [] => Ok []
  | x :: l' => y ← f x; ys ← mapM f l'; mret (y :: ys)
  end.

(** [l.filter(p)] *)
Fixpoint filterM {A} (p : A -> result bool) (l : list A) : result (list A) :=
  match l with
  | [] => Ok []
  | x :: l' => b ← p x; ys ← filterM p l'; mret (if b : bool then x :: ys else ys)
  end.

(** [addToSyncQueue] of the hook. The registration of a background sync
    that follows the enqueue when offline acts on the service worker, not
    on the database or the React state, and what it throws is caught with
    the rest; it is taken to settle. *)
Definition addToSyncQueue (storeName operation data : value)
    (now : Z) (rnd : string) (now' : Z) : M World unit :=
  Run (fun w =>
    if negb (db w) then (Ok tt, w)
    else run (try_catch
                (onDb (GolfDB.addToSyncQueue storeName operation data now rnd now'))
                (fun _ => mret tt)) w).

(** [c => ({ ...c, isHomeCourse: c.id === courseId })] *)
Definition homeFlag (courseId c : value) : result value :=
  id ← prop c "id";
  mret (VObj (obj_set (spread c) "isHomeCourse" (VBool (strict_eq id courseId)))).

Definition setHomeCourse (courseId : value) : M World unit :=
  w ← hookState;
  updatedCourses ← lift (mapM (homeFlag courseId) (courses w));
  for_of updatedCourses (fun course => onDb (put "courses" course) ;; mret tt) ;;
  setCourses updatedCourses.

(** [x => x.f === v] and [x => x.f !== v] *)
Definition propIs (f : string) (v x : value) : result bool :=
  y ← prop x f; mret (strict_eq y v).

Definition propIsNot (f : string) (v x : value) : result bool :=
  y ← prop x f; mret (negb (strict_eq y v)).

Definition deleteRound (roundId : value) : M World unit :=
  w ← hookState;
  onDb (delete "rounds" roundId) ;;
  roundHoles ← lift (filterM (propIs "roundId" roundId) (holeScores w));
  deleteEach "holeScores" roundHoles ;;
  keptRounds ← lift (filterM (propIsNot "id" roundId) (rounds w));
  setRounds keptRounds ;;
  keptHoles ← lift (filterM (propIsNot "roundId" roundId) (holeScores w));
  setHoleScores keptHoles.

(** [{ ...round, id: roundId, courseId, imported: true, importDate, completed: true }] *)
Definition importedRoundOf (round roundId courseId : value) (importDate : string) : value :=
  VObj (obj_set (obj_set (obj_set (obj_set (obj_set (spread round)
          "id" roundId) "courseId" courseId) "imported" (VBool true))
          "importDate" (VStr importDate)) "completed" (VBool true)).

(** [now] is the reading of [Date.now()] in the id (taken when [round.id]
    is falsy), [importDate] the rendering of [new Date().toISOString()],
    and [qnow], [rnd], [qnow'] the readings of the enqueue. *)
Definition saveRoundFromScorecard (round courseId : value)
    (now : Z) (importDate : string) (qnow : Z) (rnd : string) (qnow' : Z)
    : M World value :=
  w ← hookState;
  id ← lift (prop round "id");
  let roundId := js_or id (VStr ("round-" +:+ pretty now)) in
  let importedRound := importedRoundOf round roundId courseId importDate in
  onDb (put "rounds" importedRound) ;;
  (if negb (isOnline w)
   then addToSyncQueue (VStr "rounds") (VStr "put") importedRound qnow rnd qnow'
   else mret tt) ;;
  newRounds ← onDb (getAll "rounds");
  setRounds newRounds ;;
  mret importedRound.

(** [{ ...course, id: courseId, imported: true, importDate, isHomeCourse: courses.length === 0 }] *)
Definition importedCourseOf (course courseId : value) (importDate : string)
    (first : bool) : value :=
  VObj (obj_set (obj_set (obj_set (obj_set (spread course)
          "id" courseId) "imported" (VBool true))
          "importDate" (VStr importDate)) "isHomeCourse" (VBool first)).

Definition importCourseFromScorecard (course : value)
    (now : Z) (importDate : string) (qnow : Z) (rnd : string) (qnow' : Z)
    : M World value :=
  w ← hookState;
  id ← lift (prop course "id");
  let courseId := js_or id (VStr ("course-" +:+ pretty now)) in
  let importedCourse :=
    importedCourseOf course courseId importDate
      (match courses w with [] => true | _ => false end) in
  onDb (put "courses" importedCourse) ;;
  (if negb (isOnline w)
   then addToSyncQueue (VStr "courses") (VStr "put") importedCourse qnow rnd qnow'
   else mret tt) ;;
  setCourses (courses w ++ [importedCourse]) ;;
  mret importedCourse.

(** [{ ...base, ...v }]: the properties of [v] written over those set so
    far; a property that is already there keeps its place. *)
Definition assign (base : obj) (v : value) : obj :=
  fold_left (fun acc fv => obj_set acc (fst fv) (snd fv)) (spread v) base.

(** [`${v}`] in a template string *)
Definition template (v : value) : result string :=
  match v with
  | VStr s => Ok s
  | VNum n => Ok (pretty n)
  | VBool true => Ok "true"
  | VBool false => Ok "false"
  | VUndef => Ok "undefined"
  | VNull => Ok "null"
  | VNonFinite NaN => Ok "NaN"
  | VNonFinite Infinity => Ok "Infinity"
  | VNonFinite NegInfinity => Ok "-Infinity"
  | VArr _ | VObj _ => Err OutsideModel
  end.

(** [for (const x of v)]: the elements of an array; [undefined], [null],
    a number, a boolean and a plain object are not iterable. *)
Definition iterate (v : value) : result (list value) :=
  match v with
  | VArr l => Ok l
  | VStr _ => Err OutsideModel
  | _ => Err TypeError
  end.

(** A loop that counts its turns from [i]. *)
Fixpoint for_ofi {S A} (i : nat) (l : list A) (body : nat -> A -> M S unit) : M S unit :=
  match l with
  | [] => mret tt
  | x :: l' => body i x ;; for_ofi (Datatypes.S i) l' body
  end.

(** [{ id: roundId, courseId: selectedCourse.id, ...roundData, completed: true,
      imported: false, lastModified: Date.now() }] *)
Definition roundOf (roundData roundId courseId : value) (now : Z) : value :=
  VObj (obj_set (obj_set (obj_set
          (assign [("id", roundId); ("courseId", courseId)] roundData)
          "completed" (VBool true)) "imported" (VBool false))
          "lastModified" (VNum now)).

(** [{ id: `hole-${roundId}-${hole.holeNumber}`, roundId, ...hole }] *)
Definition holeScoreOf (roundId : string) (hole : value) : result value :=
  n ← prop hole "holeNumber";
  s ← template n;
  mret (VObj (assign [("id", VStr ("hole-" +:+ roundId +:+ "-" +:+ s));
                      ("roundId", VStr roundId)] hole)).

(** [now] is the reading of [Date.now()] in the id of the round, [now2]
    the one in its [lastModified], and [readings i] the three readings
    of the [i]-th enqueue of the call. *)
Definition saveRound (roundData selectedCourse : value) (now now2 : Z)
    (readings : nat -> Z * string * Z) : M World unit :=
  w ← hookState;
  let roundId := "round-" +:+ pretty now in
  let enqueue := fun (i : nat) (storeName data : value) =>
    addToSyncQueue storeName (VStr "put") data
      (fst (fst (readings i))) (snd (fst (readings i))) (snd (readings i)) in
  courseId ← lift (prop selectedCourse "id");
  let round := roundOf roundData (VStr roundId) courseId now2 in
  onDb (put "rounds" round) ;;
  holes ← lift (v ← prop roundData "holeScores"; iterate v);
  for_of holes (fun hole =>
    holeScore ← lift (holeScoreOf roundId hole);
    onDb (put "holeScores" holeScore) ;; mret tt) ;;
  (if negb (isOnline w)
   then
     enqueue O (VStr "rounds") round ;;
     holes ← lift (v ← prop roundData "holeScores"; iterate v);
     for_ofi 1 holes (fun i hole =>
       holeScore ← lift (holeScoreOf roundId hole);
       enqueue i (VStr "holeScores") holeScore)
   else mret tt) ;;
  newRounds ← onDb (getAll "rounds");
  newHoles ← onDb (getAll "holeScores");
  setRounds newRounds ;;
  setHoleScores newHoles.

(** [resolveConflict] of the hook *)
Definition resolveConflict (conflictId : value) (res : resolution)
    (now now' : Z) : M World unit :=
  Run (fun w =>
    if negb (db w) then (Ok tt, w)
    else run (try_catch
                (onDb (resolveStoredConflict conflictId res now now') ;;
                 loadPendingConflicts)
                (fun _ => mret tt)) w).

End useGolfData.

(** * The vocabulary of the properties *)

(** ** Well-formed object stores

    What IndexedDB keeps of a store with an in-line key: the records are in
    strictly ascending key order, and each record's key is what its key
    path yields. *)

Fixpoint ascending (s : objectStore) : Prop :=
  match s with
  | [] => True
  | (k, _) :: s' => Forall (fun kv => key_compare k (fst kv) = Lt) s' /\ ascending s'
  end.

Definition keyed (path : string) (s : objectStore) : Prop :=
  Forall (fun kv => keyOf path (snd kv) = Ok (fst kv)) s.

Definition store_wf (path : string) (s : objectStore) : Prop :=
  ascending s /\ keyed path s.

(** Every store of the database is well-formed under its key path. *)
Definition db_wf (d : GolfDB.DB) : Prop :=
  forall c s, d !! c = Some s -> store_wf (GolfDB.keyPath c) s.

(** A method that keeps the database well-formed, however it returns. *)
Definition preserves {A} (m : M GolfDB.DB A) : Prop :=
  forall d, db_wf d -> db_wf (snd (run m d)).

(** ** Merge resolution *)

(** The value a rule leaves in its field, from the value [cur] the field
    has in the object merged so far. *)
Definition ruleValue (rule cur lf rf : value) : value :=
  if strict_eq rule (VStr "use_remote") then rf
  else if strict_eq rule (VStr "use_local") then cur
  else if strict_eq rule (VStr "combine") then
    match lf, rf with
    | VArr ls, VArr rs => VArr (GolfDB.setOf (ls ++ rs) [])
    | _, _ => cur
    end
  else if strict_eq rule (VStr "latest") then rf
  else cur.

(** ** The sync pass, for a remote endpoint [push] *)

(** Whether [processSyncItem] returns normally on an item. *)
Definition delivered (push : value -> bool) (item : value) : bool :=
  match prop item "operation" with
  | Ok operation =>
      if strict_eq operation (VStr "add") || strict_eq operation (VStr "put")
         || strict_eq operation (VStr "delete")
      then push item else true
  | Err _ => false
  end.

(** What [markSyncItemComplete] and [retrySyncItem] put back. *)
Definition completed (o : obj) : value :=
  VObj (obj_set o "status" (VStr "completed")).

Definition retried (o : obj) (n : Z) : value :=
  VObj (obj_set (obj_set o "retries" (VNum (js_succ n))) "status" (VStr "pending")).

(** The queue item after its turn of the pass. *)
Definition afterSync (push : value -> bool) (item : value) : value :=
  match item with
  | VObj o =>
      if delivered push item then completed o
      else match obj_get o "retries" with
           | VNum n => retried o n
           | _ => item
           end
  | _ => item
  end.

Definition step (push : value -> bool) (kv : key * value) : key * value :=
  (fst kv, afterSync push (snd kv)).

(** ** Export, clear, import *)

(** The [id]s of a [getAll] result. *)
Definition ids (l : list value) : list value :=
  map (fun v => obj_get (spread v) "id") l.

(** The checks of [importData], on an entity. *)
Definition passesCourse (v : value) : bool :=
  truthy (obj_get (spread v) "id") && truthy (obj_get (spread v) "name").

Definition passesRound (v : value) : bool :=
  truthy (obj_get (spread v) "id") && truthy (obj_get (spread v) "courseId")
  && typeof_number (obj_get (spread v) "totalScore").

Definition passesHole (v : value) : bool :=
  truthy (obj_get (spread v) "id") && truthy (obj_get (spread v) "roundId")
  && typeof_number (obj_get (spread v) "score").

(** A value that JSON text keeps as it is, if it is a number: not [NaN]
    and not an infinity, which [JSON.stringify] writes as [null]. *)
Definition finite (v : value) : bool :=
  match v with VNonFinite _ => false | _ => true end.

(** The fields that the check of an entity reads are [finite]. *)
Definition keptCourse (v : value) : bool :=
  finite (obj_get (spread v) "id") && finite (obj_get (spread v) "name").

Definition keptRound (v : value) : bool :=
  finite (obj_get (spread v) "id") && finite (obj_get (spread v) "courseId")
  && finite (obj_get (spread v) "totalScore").

Definition keptHole (v : value) : bool :=
  finite (obj_get (spread v) "id") && finite (obj_get (spread v) "roundId")
  && finite (obj_get (spread v) "score").

(** The stores that a run of deletes and a run of puts leave. *)
Definition delete_all (ks : list key) (s : objectStore) : objectStore :=
  fold_left (fun s k => store_delete k s) ks s.

Definition put_all (kvs : list (key * value)) (s : objectStore) : objectStore :=
  fold_left (fun s kv => store_put (fst kv) (snd kv) s) kvs s.

Definition cloned (s : objectStore) : objectStore :=
  map (fun kv => (fst kv, json_clone (snd kv))) s.

(** ** Scenarios *)

(** The stored [course-1] and the conflict of the server-newer scenario. *)
Definition course1 : obj :=
  [("id", VStr "course-1"); ("par", VNum 72); ("lastModified", VNum 100)].

Definition course1_remote : obj :=
  [("id", VStr "course-1"); ("par", VNum 71); ("lastModified", VNum 200)].

Definition courses_db : GolfDB.DB :=
  <["courses" := [(KStr "course-1", VObj course1)]]> GolfDB.init.

Definition round123 : value :=
  VObj [("id", VStr "round-123"); ("courseId", VStr "course-1"); ("totalScore", VNum 85)].

Definition round124 : value :=
  VObj [("id", VStr "round-124"); ("courseId", VStr "course-1"); ("totalScore", VNum 90)].

(** What [addToSyncQueue('rounds', 'put', round, ...)] adds. *)
Definition queued (round : value) (now : Z) (rnd : string) (now' : Z)
    (retries : Z) (status : string) : value :=
  VObj [("id", VStr ("sync-" +:+ pretty now +:+ "-" +:+ rnd));
        ("storeName", VStr "rounds");
        ("operation", VStr "put");
        ("data", round);
        ("timestamp", VNum now');
        ("retries", VNum retries);
        ("status", VStr status)].

(** [round-123] enqueued while offline. *)
Definition queued_db : GolfDB.DB :=
  snd (run (GolfDB.addToSyncQueue (VStr "rounds") (VStr "put") round123 1000 "0.5" 1000)
         GolfDB.init).

(** ... and then synchronised: the item is [completed]. *)
Definition completed_db : GolfDB.DB :=
  snd (run (GolfDB.markSyncItemComplete (VStr "sync-1000-0.5")) queued_db).

(** Two rounds enqueued within the millisecond 1000; the clock reads 1001
    at the second [Date.now()] of the second call. *)
Definition same_ms_db : GolfDB.DB :=
  snd (run (GolfDB.addToSyncQueue (VStr "rounds") (VStr "put") round124 1000 "0.1" 1001)
         (snd (run (GolfDB.addToSyncQueue (VStr "rounds") (VStr "put") round123
                      1000 "0.9" 1000) GolfDB.init))).

(** An online hook over a database. *)
Definition world_of (d : GolfDB.DB) (st : useGolfData.SyncStatus) : useGolfData.World :=
  {| useGolfData.idb := d; useGolfData.db := true;
     useGolfData.courses := []; useGolfData.rounds := [];
     useGolfData.holeScores := []; useGolfData.isOnline := true;
     useGolfData.syncStatus := st; useGolfData.pendingConflicts := [] |}.

(** A pass over two queued rounds where the endpoint refuses the first. *)
Definition refuse_first (item : value) : bool :=
  negb (strict_eq (obj_get (spread item) "id") (VStr "sync-1000-0.5")).

Definition two_items : objectStore :=
  [(KStr "sync-1000-0.5", queued round123 1000 "0.5" 1000 0 "pending");
   (KStr "sync-1001-0.5", queued round124 1001 "0.5" 1001 0 "pending")].

Definition sample_course : value :=
  VObj [("id", VStr "sample-course-1"); ("name", VStr "Sample Golf Club"); ("par", VNum 72)].

Definition sample_hole : value :=
  VObj [("id", VStr "hole-round-123-1"); ("roundId", VStr "round-123");
        ("holeNumber", VNum 1); ("score", VNum 4)].

Definition sample_courses : objectStore := [(KStr "sample-course-1", sample_course)].

Definition sample_rounds : objectStore := [(KStr "round-123", round123)].

Definition sample_holes : objectStore := [(KStr "hole-round-123-1", sample_hole)].

Definition sample_db : GolfDB.DB :=
  <["holeScores" := sample_holes]>
    (<["rounds" := sample_rounds]> (<["courses" := sample_courses]> GolfDB.init)).

(** The hook once [initDB] has loaded the three collections. *)
Definition loaded (d : GolfDB.DB) (cs rs hs : objectStore) : useGolfData.World :=
  {| useGolfData.idb := d; useGolfData.db := true;
     useGolfData.courses := map snd cs; useGolfData.rounds := map snd rs;
     useGolfData.holeScores := map snd hs; useGolfData.isOnline := true;
     useGolfData.syncStatus := useGolfData.idle;
     useGolfData.pendingConflicts := [] |}.

(** [course-1] exists locally only; the conflict was put aside with the
    [manual] strategy at clock reading 1. *)
Definition local_only_conflict : value :=
  GolfDB.conflictOf "local_only" (VObj course1) VNull.

Definition manual : GolfDB.resolution :=
  {| GolfDB.strategy := VStr "manual"; GolfDB.mergeRules := VUndef |}.

Definition use_remote : GolfDB.resolution :=
  {| GolfDB.strategy := VStr "use_remote"; GolfDB.mergeRules := VUndef |}.

Definition stored_db : GolfDB.DB :=
  snd (run (GolfDB.resolveConflict "courses" local_only_conflict manual 1 1) courses_db).

Definition stored_record : value :=
  VObj [("id", VStr "conflict-1"); ("storeName", VStr "courses");
        ("conflict", local_only_conflict); ("timestamp", VNum 1)].

(** ** The schema, the queue and the stored conflicts *)

(** The stores the schema names. *)
Definition isSchemaStore (c : string) : bool :=
  existsb (String.eqb c)
    ["courses"; "rounds"; "holeScores"; "settings"; "conflicts"; "syncQueue"].

(** The item [addToSyncQueue] builds, and its key. *)
Definition syncItemOf (storeName operation data : value)
    (now : Z) (rnd : string) (now' : Z) : value :=
  VObj [("id", VStr ("sync-" +:+ pretty now +:+ "-" +:+ rnd));
        ("storeName", storeName);
        ("operation", operation);
        ("data", data);
        ("timestamp", VNum now');
        ("retries", VNum 0);
        ("status", VStr "pending")].

Definition syncKeyOf (now : Z) (rnd : string) : key :=
  KStr ("sync-" +:+ pretty now +:+ "-" +:+ rnd).

(** [n] calls of a method, one after the other. *)
Fixpoint times {S} (n : nat) (m : M S unit) : M S unit :=
  match n with
  | O => mret tt
  | S n' => m ;; times n' m
  end.

(** The record [storeConflict] builds, and its key. *)
Definition conflictRecordOf (storeName : string) (conflict : value) (now now' : Z) : value :=
  VObj [("id", VStr ("conflict-" +:+ pretty now));
        ("storeName", VStr storeName);
        ("conflict", conflict);
        ("timestamp", VNum now')].

Definition conflictKeyOf (now : Z) : key := KStr ("conflict-" +:+ pretty now).

(** The strategies [resolveConflict] has a case for. *)
Definition knownStrategy (s : value) : bool :=
  strict_eq s (VStr "use_local") || strict_eq s (VStr "use_remote")
  || strict_eq s (VStr "merge") || strict_eq s (VStr "manual").

(** The rules of [mergeData] that assign a field. *)
Definition assigning (rule : value) : bool :=
  strict_eq rule (VStr "use_remote") || strict_eq rule (VStr "combine")
  || strict_eq rule (VStr "latest").

(** The values that [===] compares by content. *)
Definition primitive (v : value) : bool :=
  match v with VArr _ | VObj _ => false | _ => true end.

(** An entity whose [lastModified] is a number, or is not there. *)
Definition timed (v : value) : bool :=
  match prop v "lastModified" with
  | Ok (VNum _) | Ok VUndef | Ok VNull => true
  | _ => false
  end.

(** What [getPendingConflicts] returns from a database. *)
Definition pendingOf (d : GolfDB.DB) : list value :=
  match d !! "conflicts" with Some cs => map snd cs | None => [] end.

(** The course [setHomeCourse] writes for a course of the hook. *)
Definition flagged (courseId c : value) : value :=
  VObj (obj_set (spread c) "isHomeCourse"
          (VBool (strict_eq (obj_get (spread c) "id") courseId))).

(** * Properties *)

(** ** Running a sequence *)

Lemma run_bind {S A B} (m : M S A) (k : A -> M S B) (s : S) :
  run (m ≫= k) s
  = match run m s with
    | (Ok a, s') => run (k a) s'
    | (Err e, s') => (Err e, s')
    end.
Proof. reflexivity. Qed.

Lemma run_try_catch {S A} (m : M S A) (h : exn -> M S A) (s : S) :
  run (try_catch m h) s
  = match run m s with
    | (Ok a, s') => (Ok a, s')
    | (Err OutsideModel, s') => (Err OutsideModel, s')
    | (Err e, s') => run (h e) s'
    end.
Proof. reflexivity. Qed.

(** ** Keys and object stores *)

Lemma string_compare_refl (s : string) : String.compare s s = Eq.
Proof.
  induction s as [|a s IH]; simpl; [reflexivity|].
  unfold Ascii.compare. now rewrite N.compare_refl.
Qed.

Lemma key_compare_refl (k : key) : key_compare k k = Eq.
Proof.
  destruct k as [n|s]; simpl.
  - apply Z.compare_refl.
  - apply string_compare_refl.
Qed.

Lemma key_compare_eq (a b : key) : key_compare a b = Eq -> a = b.
Proof.
  destruct a as [x|s], b as [y|t]; simpl; try discriminate.
  - intros H. apply Z.compare_eq in H. now subst.
  - intros H. apply String.compare_eq_iff in H. now subst.
Qed.

Lemma key_compare_antisym (a b : key) :
  key_compare b a = CompOpp (key_compare a b).
Proof.
  destruct a as [x|s], b as [y|t]; simpl; try reflexivity.
  - apply Z.compare_antisym.
  - apply String.compare_antisym.
Qed.

Lemma store_get_put_eq (k : key) (v : value) (s : objectStore) :
  store_get k (store_put k v s) = Some v.
Proof.
  induction s as [|[k' v'] s IH]; simpl.
  - now rewrite key_compare_refl.
  - destruct (key_compare k k') eqn:E; simpl.
    + now rewrite key_compare_refl.
    + now rewrite key_compare_refl.
    + now rewrite E.
Qed.

Lemma store_put_put (k : key) (v : value) (s : objectStore) :
  store_put k v (store_put k v s) = store_put k v s.
Proof.
  induction s as [|[k' v'] s IH]; simpl.
  - now rewrite key_compare_refl.
  - destruct (key_compare k k') eqn:E; simpl.
    + now rewrite key_compare_refl.
    + now rewrite key_compare_refl.
    + now rewrite E, IH.
Qed.

(** ** The store operations *)

Section StoreOperations.
Import GolfDB.

(** What a successful [put] is: the store exists, the record has a key,
    and the database afterwards holds the record under it. *)
Lemma put_Ok (c : string) (e : value) (db db1 : DB) (k : key) :
  run (put c e) db = (Ok k, db1) <->
  exists s, db !! c = Some s /\ keyOf (keyPath c) e = Ok k /\
            db1 = <[c := store_put k e s]> db.
Proof.
  unfold put, objectStoreOf, lift. simpl.
  destruct (db !! c) as [s|] eqn:Hs; simpl.
  - destruct (keyOf (keyPath c) e) as [k'|x] eqn:Hk; simpl.
    + split.
      * intros H. injection H as <- <-. now exists s.
      * intros (s' & Hs' & Hk' & ->). injection Hs' as <-. now injection Hk' as <-.
    + split; [discriminate|]. intros (s' & _ & Hk' & _). discriminate.
  - split; [discriminate|]. intros (s' & Hs' & _). discriminate.
Qed.

Lemma put_run (c : string) (e : value) (db : DB) (s : objectStore) (k : key) :
  db !! c = Some s -> keyOf (keyPath c) e = Ok k ->
  run (put c e) db = (Ok k, <[c := store_put k e s]> db).
Proof. intros Hs Hk. apply put_Ok. now exists s. Qed.

(** A [put] that fails has changed nothing. *)
Lemma put_Err (c : string) (e : value) (db db1 : DB) (x : exn) :
  run (put c e) db = (Err x, db1) -> db1 = db.
Proof.
  unfold put, objectStoreOf, lift. simpl.
  destruct (db !! c) as [s|]; simpl.
  - destruct (keyOf (keyPath c) e); simpl; intros H; now inversion H.
  - intros H; now inversion H.
Qed.

Lemma keyOf_prop (path : string) (e : value) (k : key) :
  keyOf path e = Ok k ->
  exists idv, prop e path = Ok idv /\ to_key idv = Ok k.
Proof.
  destruct e; simpl; try discriminate.
  intros H. eauto.
Qed.

Lemma get_Ok (c : string) (idv : value) (db : DB) (s : objectStore) (k : key) (v : value) :
  db !! c = Some s -> to_key idv = Ok k -> store_get k s = Some v ->
  run (get c idv) db = (Ok v, db).
Proof.
  intros Hs Hk Hv. unfold get, objectStoreOf, lift. simpl.
  now rewrite Hs; simpl; rewrite Hk; simpl; rewrite Hv.
Qed.

(** C7. [put] is idempotent: a second [put] of the same entity into the
    same collection leaves the database as the first one left it, whether
    the [put] succeeds or fails; and after a [put] that succeeded the
    second one succeeds with the same key, and [get] on the entity's key
    (its [id]; its [key] in [settings]) returns the entity. *)
Theorem put_idempotent (c : string) (e : value) (db : DB) :
  snd (run (put c e ;; put c e) db) = snd (run (put c e) db) /\
  forall k db1, run (put c e) db = (Ok k, db1) ->
    run (put c e) db1 = (Ok k, db1) /\
    exists idv, prop e (keyPath c) = Ok idv /\
                run (get c idv) db1 = (Ok e, db1).
Proof.
  assert (Hre : forall k db1, run (put c e) db = (Ok k, db1) ->
                              run (put c e) db1 = (Ok k, db1)).
  { intros k db1 H. apply put_Ok in H as (s & Hs & Hk & ->).
    apply put_Ok. exists (store_put k e s). split; [apply lookup_insert_eq|].
    split; [assumption|]. now rewrite insert_insert_eq, store_put_put. }
  split.
  - change (run (put c e ;; put c e) db)
      with (match run (put c e) db with
            | (Ok _, s') => run (put c e) s'
            | (Err x, s') => (Err x, s')
            end).
    destruct (run (put c e) db) as [[k|x] db1] eqn:H; [|reflexivity].
    now rewrite (Hre k db1 eq_refl).
  - intros k db1 H. split; [now apply Hre|].
    pose proof H as H'. apply put_Ok in H' as (s & Hs & Hk & ->).
    destruct (keyOf_prop _ _ _ Hk) as (idv & Hp & Hi).
    exists idv. split; [assumption|].
    eapply get_Ok; [apply lookup_insert_eq|eassumption|apply store_get_put_eq].
Qed.

(** What a successful [add] is: as [put], on a key that was free. *)
Lemma add_Ok (c : string) (e : value) (db db1 : DB) (k : key) :
  run (add c e) db = (Ok k, db1) <->
  exists s, db !! c = Some s /\ keyOf (keyPath c) e = Ok k /\
            store_get k s = None /\ db1 = <[c := store_put k e s]> db.
Proof.
  unfold add, objectStoreOf, lift, throw. simpl.
  destruct (db !! c) as [s|] eqn:Hs; simpl.
  - destruct (keyOf (keyPath c) e) as [k'|x] eqn:Hk; simpl.
    + destruct (store_get k' s) as [v|] eqn:Hg; simpl.
      * split; [discriminate|].
        intros (s' & Hs' & Hk' & Hg' & _). congruence.
      * split.
        -- intros H. injection H as <- <-. now exists s.
        -- intros (s' & Hs' & Hk' & _ & ->). congruence.
    + split; [discriminate|]. intros (s' & _ & Hk' & _). discriminate.
  - split; [discriminate|]. intros (s' & Hs' & _). discriminate.
Qed.

(** C8. After [add(c, e1)] has succeeded, [add(c, e2)] of an entity with
    the same key fails with IndexedDB's duplicate-key error
    ([ConstraintError]) and leaves the database as it was: [get] on the key
    still returns [e1]. *)
Theorem add_duplicate_key (c : string) (e1 e2 : value) (db db1 : DB) (k : key) :
  run (add c e1) db = (Ok k, db1) ->
  keyOf (keyPath c) e2 = Ok k ->
  run (add c e2) db1 = (Err ConstraintError, db1) /\
  exists idv, prop e1 (keyPath c) = Ok idv /\
              run (add c e2 ;; get c idv) db1 = (Err ConstraintError, db1) /\
              run (get c idv) db1 = (Ok e1, db1).
Proof.
  intros H1 H2. apply add_Ok in H1 as (s & Hs & Hk & _ & ->).
  assert (Hadd : run (add c e2) (<[c := store_put k e1 s]> db)
                 = (Err ConstraintError, <[c := store_put k e1 s]> db)).
  { unfold add, objectStoreOf, lift, throw. simpl.
    rewrite lookup_insert_eq. simpl. rewrite H2. simpl.
    now rewrite store_get_put_eq. }
  split; [exact Hadd|].
  destruct (keyOf_prop _ _ _ Hk) as (idv & Hp & Hi).
  exists idv. split; [assumption|]. split.
  - change (run (add c e2 ;; get c idv) (<[c := store_put k e1 s]> db))
      with (match run (add c e2) (<[c := store_put k e1 s]> db) with
            | (Ok _, s') => run (get c idv) s'
            | (Err x, s') => (Err x, s')
            end).
    now rewrite Hadd.
  - eapply get_Ok; [apply lookup_insert_eq|eassumption|apply store_get_put_eq].
Qed.

(** A course added twice under the id [c1] with a different par. *)
Lemma add_duplicate_key_witness :
  let e1 := VObj [("id", VStr "c1"); ("par", VNum 72)] in
  let e2 := VObj [("id", VStr "c1"); ("par", VNum 71)] in
  let db1 := <["courses" := [(KStr "c1", e1)]]> init in
  run (add "courses" e2) db1 = (Err ConstraintError, db1) /\
  exists idv, prop e1 (keyPath "courses") = Ok idv /\
              run (add "courses" e2 ;; get "courses" idv) db1
                = (Err ConstraintError, db1) /\
              run (get "courses" idv) db1 = (Ok e1, db1).
Proof.
  intros e1 e2 db1.
  apply (add_duplicate_key "courses" e1 e2 init db1 (KStr "c1")).
  - apply add_Ok. exists []. repeat split; reflexivity.
  - reflexivity.
Defined.

End StoreOperations.

(** [round-123], saved and saved again. *)
Lemma put_idempotent_witness :
  let db1 := <["rounds" := [(KStr "round-123", round123)]]> GolfDB.init in
  run (GolfDB.put "rounds" round123) db1 = (Ok (KStr "round-123"), db1) /\
  exists idv, prop round123 (GolfDB.keyPath "rounds") = Ok idv /\
              run (GolfDB.get "rounds" idv) db1 = (Ok round123, db1).
Proof.
  intros db1.
  apply (proj2 (put_idempotent "rounds" round123 GolfDB.init) (KStr "round-123") db1).
  apply put_Ok. exists []. repeat split; reflexivity.
Defined.

(** C7 as stated fails in [settings], the one collection whose key path
    is [key]: after the setting has been put, and put again, [get] on its
    [id] finds nothing; the record is under its [key]. *)
Lemma put_then_get_by_id_counterexample :
  let e := VObj [("id", VStr "s1"); ("key", VStr "theme"); ("value", VStr "dark")] in
  let r := run (GolfDB.put "settings" e ;; GolfDB.put "settings" e) GolfDB.init in
  fst r = Ok (KStr "theme") /\
  prop e "id" = Ok (VStr "s1") /\
  run (GolfDB.get "settings" (VStr "s1")) (snd r) = (Ok VUndef, snd r) /\
  run (GolfDB.get "settings" (VStr "theme")) (snd r) = (Ok e, snd r).
Proof. intros e r. repeat split; vm_compute; reflexivity. Qed.

(** C8 as stated fails in [settings]: two different settings with the
    same [id] and different [key]s are both added, and no duplicate-key
    error is raised. *)
Lemma add_same_id_counterexample :
  let e1 := VObj [("id", VStr "s1"); ("key", VStr "theme"); ("value", VStr "dark")] in
  let e2 := VObj [("id", VStr "s1"); ("key", VStr "units"); ("value", VStr "yards")] in
  let r1 := run (GolfDB.add "settings" e1) GolfDB.init in
  let r2 := run (GolfDB.add "settings" e2) (snd r1) in
  e1 <> e2 /\
  prop e1 "id" = prop e2 "id" /\
  fst r1 = Ok (KStr "theme") /\
  fst r2 = Ok (KStr "units") /\
  fst (run (GolfDB.getAll "settings") (snd r2)) = Ok [e1; e2].
Proof.
  intros e1 e2 r1 r2. split; [discriminate|]. repeat split; vm_compute; reflexivity.
Qed.

(** ** Objects *)

Lemma obj_get_set_eq (o : obj) (f : string) (v : value) :
  obj_get (obj_set o f v) f = v.
Proof.
  induction o as [|[g w] o IH]; simpl.
  - now rewrite String.eqb_refl.
  - destruct (String.eqb g f) eqn:E; simpl; now rewrite E.
Qed.

Lemma obj_get_set_ne (o : obj) (f g : string) (v : value) :
  f <> g -> obj_get (obj_set o f v) g = obj_get o g.
Proof.
  intros Hne. induction o as [|[h w] o IH]; simpl.
  - apply String.eqb_neq in Hne. now rewrite Hne.
  - destruct (String.eqb h f) eqn:E; simpl.
    + apply String.eqb_eq in E. subst h.
      apply String.eqb_neq in Hne. now rewrite Hne.
    + now rewrite IH.
Qed.

(** ** Merge resolution *)

Section Merge.
Import GolfDB.

Variables lo ro : obj.

Lemma mergeRule_field (merged : obj) (f : string) (rule : value) :
  exists merged',
    mergeRule (VObj lo) (VObj ro) merged (f, rule) = Ok merged' /\
    obj_get merged' f
      = ruleValue rule (obj_get merged f) (obj_get lo f) (obj_get ro f) /\
    forall g, f <> g -> obj_get merged' g = obj_get merged g.
Proof.
  unfold mergeRule, ruleValue. simpl.
  destruct (strict_eq rule (VStr "use_remote")).
  { eexists. split; [reflexivity|]. split;
      [apply obj_get_set_eq | intros g Hg; now apply obj_get_set_ne]. }
  destruct (strict_eq rule (VStr "use_local")).
  { eexists. split; [reflexivity|]. split; [reflexivity | reflexivity]. }
  destruct (strict_eq rule (VStr "combine")).
  { destruct (obj_get lo f) eqn:El;
      try (eexists; split; [reflexivity|]; split; reflexivity).
    simpl. destruct (obj_get ro f) eqn:Er;
      try (eexists; split; [reflexivity|]; split; reflexivity).
    eexists. split; [reflexivity|]. split;
      [apply obj_get_set_eq | intros g Hg; now apply obj_get_set_ne]. }
  destruct (strict_eq rule (VStr "latest")).
  { eexists. split; [reflexivity|]. split;
      [apply obj_get_set_eq | intros g Hg; now apply obj_get_set_ne]. }
  eexists. split; [reflexivity|]. split; reflexivity.
Qed.

(** The loop over the rules: a field no rule names keeps its value, and a
    field one rule names gets that rule's value. *)
Lemma merge_loop (rules : obj) :
  forall merged0, exists merged,
    foldM (mergeRule (VObj lo) (VObj ro)) merged0 rules = Ok merged /\
    (forall f, ~ In f (map fst rules) -> obj_get merged f = obj_get merged0 f) /\
    (List.NoDup (map fst rules) -> forall f rule, In (f, rule) rules ->
       obj_get merged f
         = ruleValue rule (obj_get merged0 f) (obj_get lo f) (obj_get ro f)).
Proof.
  induction rules as [|[g r] rules IH]; intros merged0.
  - exists merged0. split; [reflexivity|]. split; [reflexivity|].
    intros _ f rule [].
  - destruct (mergeRule_field merged0 g r) as (m1 & E1 & Hg & Hother).
    destruct (IH m1) as (m & E & Hout & Hin).
    exists m. split; [cbn [foldM]; now rewrite E1|]. split.
    + simpl. intros f Hf. rewrite Hout by tauto. apply Hother. tauto.
    + simpl. intros Hnd f rule [Heq|Hin'].
      * injection Heq as -> ->.
        apply List.NoDup_cons_iff in Hnd as [Hfresh Hnd'].
        rewrite (Hout f Hfresh). exact Hg.
      * apply List.NoDup_cons_iff in Hnd as [Hfresh Hnd'].
        rewrite (Hin Hnd' f rule Hin').
        rewrite Hother; [reflexivity|].
        intros ->. apply Hfresh. now apply (in_map fst _ (f, rule)).
Qed.

(** C10. Merge resolution defaults to the local entity. For a local
    entity, a remote entity and a rule set (an object: one rule per field
    name), [mergeData] returns a merged entity that agrees with the local
    one on every field the rule set does not name; that keeps the local
    value of a field under a [combine] rule when the field is not an array
    on both sides; and that has the remote value of a field under a
    [latest] rule, whatever the timestamps of the two sides. *)
Theorem mergeData_defaults_to_local (storeName : string) (rules : obj) :
  List.NoDup (map fst rules) ->
  exists merged,
    mergeData storeName (VObj lo) (VObj ro) (VObj rules) = Ok (VObj merged) /\
    (forall f, ~ In f (map fst rules) -> obj_get merged f = obj_get lo f) /\
    (forall f, In (f, VStr "combine") rules ->
       isArray (obj_get lo f) = false \/ isArray (obj_get ro f) = false ->
       obj_get merged f = obj_get lo f) /\
    (forall f, In (f, VStr "latest") rules ->
       obj_get merged f = obj_get ro f).
Proof.
  intros Hnd. destruct (merge_loop rules lo) as (merged & E & Hout & Hin).
  exists merged. split; [|split; [exact Hout|split]].
  - unfold mergeData. simpl. now rewrite E.
  - intros f Hf Harr. rewrite (Hin Hnd f _ Hf). unfold ruleValue. simpl.
    destruct (obj_get lo f), (obj_get ro f); try reflexivity.
    destruct Harr; discriminate.
  - intros f Hf. now rewrite (Hin Hnd f _ Hf).
Qed.

End Merge.

(** A round merged under four rules: the remote side is older, [tags] is a
    list on the local side only. *)
Lemma mergeData_defaults_to_local_witness :
  let lo := [("id", VStr "r1"); ("score", VNum 80); ("tags", VArr [VStr "a"]);
             ("notes", VStr "local"); ("lastModified", VNum 200)] in
  let ro := [("id", VStr "r1"); ("score", VNum 85); ("tags", VStr "b");
             ("notes", VStr "remote"); ("lastModified", VNum 100)] in
  let rules := [("tags", VStr "combine"); ("notes", VStr "latest")] in
  List.NoDup (map fst rules) /\
  exists merged,
    GolfDB.mergeData "rounds" (VObj lo) (VObj ro) (VObj rules) = Ok (VObj merged) /\
    (forall f, ~ In f (map fst rules) -> obj_get merged f = obj_get lo f) /\
    (forall f, In (f, VStr "combine") rules ->
       isArray (obj_get lo f) = false \/ isArray (obj_get ro f) = false ->
       obj_get merged f = obj_get lo f) /\
    (forall f, In (f, VStr "latest") rules ->
       obj_get merged f = obj_get ro f).
Proof.
  intros lo ro rules.
  assert (Hnd : List.NoDup (map fst rules)).
  { repeat constructor; simpl; intuition discriminate. }
  split; [exact Hnd|].
  exact (mergeData_defaults_to_local lo ro "rounds" rules Hnd).
Defined.

(** ** Conflict detection *)

Lemma strict_eq_key (k : key) : strict_eq (key_value k) (key_value k) = true.
Proof.
  destruct k as [n|s]; simpl.
  - apply Z.eqb_refl.
  - apply String.eqb_refl.
Qed.

Lemma truthy_VNum (n : Z) : n <> 0 -> truthy (VNum n) = true.
Proof. intros H. simpl. apply Z.eqb_neq in H. now rewrite H. Qed.

Section Detection.
Import GolfDB.

Variable JSON_stringify : value -> string.

(** [detectConflicts] is the two loops over what [getAll] returns. *)
Lemma detectConflicts_run (c : string) (remoteData : list value)
    (db : DB) (s : objectStore) :
  db !! c = Some s ->
  run (detectConflicts JSON_stringify c remoteData) db
    = (detectIn JSON_stringify (map snd s) remoteData, db).
Proof.
  intros Hs. unfold detectConflicts, getAll, objectStoreOf, lift. simpl.
  now rewrite Hs.
Qed.

Variables lo ro : obj.
Variable k : key.
Hypothesis local_id : obj_get lo "id" = key_value k.
Hypothesis remote_id : obj_get ro "id" = key_value k.

(** A local and a remote entity with the same id reach the comparison. *)
Lemma detectIn_both :
  detectIn JSON_stringify [VObj lo] [VObj ro]
    = compareItems JSON_stringify (VObj lo) (VObj ro).
Proof.
  unfold detectIn, detectRemote, detectLocal, same_id. simpl.
  rewrite local_id, remote_id, strict_eq_key. simpl.
  destruct (compareItems JSON_stringify (VObj lo) (VObj ro)); simpl;
    [now rewrite !app_nil_r | reflexivity].
Qed.

Lemma compare_numeric (tl tr : Z) :
  obj_get lo "lastModified" = VNum tl ->
  obj_get ro "lastModified" = VNum tr ->
  tl <> 0 -> tr <> 0 ->
  compareItems JSON_stringify (VObj lo) (VObj ro)
    = Ok (if tl <? tr then [conflictOf "server_newer" (VObj lo) (VObj ro)]
          else if tr <? tl then [conflictOf "local_newer" (VObj lo) (VObj ro)]
          else contentCheck JSON_stringify (VObj lo) (VObj ro)).
Proof.
  intros Hl Hr Hl0 Hr0. unfold compareItems. simpl.
  rewrite Hr, (truthy_VNum tr Hr0), Hl. simpl.
  unfold js_and. rewrite (truthy_VNum tr Hr0), (truthy_VNum tl Hl0). simpl.
  destruct (tl <? tr); [reflexivity|]. simpl.
  now destruct (tr <? tl).
Qed.

Lemma compare_untimed :
  truthy (obj_get lo "lastModified") = false \/
  truthy (obj_get ro "lastModified") = false ->
  compareItems JSON_stringify (VObj lo) (VObj ro)
    = Ok (contentCheck JSON_stringify (VObj lo) (VObj ro)).
Proof.
  intros H. unfold compareItems, js_and. simpl.
  destruct (truthy (obj_get ro "lastModified")) eqn:Er; simpl.
  - destruct H as [H|H]; [|discriminate]. now rewrite H.
  - now rewrite Er.
Qed.

(** C2, as the code has it. A timestamp counts only when it is truthy:
    [lastModified] absent, [null] or 0 is no timestamp. For a local and a
    remote entity with the same id, [detectConflicts]' comparison gives
    - [server_newer] when both timestamps are non-zero numbers and the
      remote one is greater, [local_newer] when the local one is greater;
    - when the two are equal non-zero numbers, or one side has no
      timestamp: [content_conflict] if the serializations differ, no
      conflict record if they are the same;
    and a remote entity alone gives [server_only], a local entity alone
    [local_only]. *)
Theorem detect_classification :
  (forall tl tr,
     obj_get lo "lastModified" = VNum tl ->
     obj_get ro "lastModified" = VNum tr ->
     tl <> 0 -> tr <> 0 ->
     (tl < tr -> detectIn JSON_stringify [VObj lo] [VObj ro]
                 = Ok [conflictOf "server_newer" (VObj lo) (VObj ro)]) /\
     (tr < tl -> detectIn JSON_stringify [VObj lo] [VObj ro]
                 = Ok [conflictOf "local_newer" (VObj lo) (VObj ro)]) /\
     (tl = tr -> JSON_stringify (VObj ro) <> JSON_stringify (VObj lo) ->
        detectIn JSON_stringify [VObj lo] [VObj ro]
        = Ok [conflictOf "content_conflict" (VObj lo) (VObj ro)]) /\
     (tl = tr -> JSON_stringify (VObj ro) = JSON_stringify (VObj lo) ->
        detectIn JSON_stringify [VObj lo] [VObj ro] = Ok [])) /\
  (truthy (obj_get lo "lastModified") = false \/
   truthy (obj_get ro "lastModified") = false ->
     (JSON_stringify (VObj ro) <> JSON_stringify (VObj lo) ->
        detectIn JSON_stringify [VObj lo] [VObj ro]
        = Ok [conflictOf "content_conflict" (VObj lo) (VObj ro)]) /\
     (JSON_stringify (VObj ro) = JSON_stringify (VObj lo) ->
        detectIn JSON_stringify [VObj lo] [VObj ro] = Ok [])) /\
  detectIn JSON_stringify [] [VObj ro]
    = Ok [conflictOf "server_only" VNull (VObj ro)] /\
  detectIn JSON_stringify [VObj lo] []
    = Ok [conflictOf "local_only" (VObj lo) VNull].
Proof.
  assert (Hdiff : JSON_stringify (VObj ro) <> JSON_stringify (VObj lo) ->
            contentCheck JSON_stringify (VObj lo) (VObj ro)
            = [conflictOf "content_conflict" (VObj lo) (VObj ro)]).
  { intros H. unfold contentCheck. apply String.eqb_neq in H. now rewrite H. }
  assert (Hsame : JSON_stringify (VObj ro) = JSON_stringify (VObj lo) ->
            contentCheck JSON_stringify (VObj lo) (VObj ro) = []).
  { intros H. unfold contentCheck. rewrite H. now rewrite String.eqb_refl. }
  split; [|split; [|split]].
  - intros tl tr Hl Hr Hl0 Hr0.
    rewrite detectIn_both, (compare_numeric tl tr Hl Hr Hl0 Hr0).
    repeat split.
    + intros H. apply Z.ltb_lt in H. now rewrite H.
    + intros H. assert (E : (tl <? tr) = false) by (apply Z.ltb_ge; lia).
      apply Z.ltb_lt in H. now rewrite E, H.
    + intros -> H. rewrite Z.ltb_irrefl. now rewrite Hdiff.
    + intros -> H. rewrite Z.ltb_irrefl. now rewrite Hsame.
  - intros H. rewrite detectIn_both, (compare_untimed H). split.
    + intros Hd. now rewrite Hdiff.
    + intros Hd. now rewrite Hsame.
  - reflexivity.
  - reflexivity.
Qed.

End Detection.

(** The scenario of a course changed on the server: [course-1] modified
    locally at 100 and remotely at 200, with another par. *)
Lemma detect_classification_witness :
  let lo := [("id", VStr "course-1"); ("par", VNum 72); ("lastModified", VNum 100)] in
  let ro := [("id", VStr "course-1"); ("par", VNum 71); ("lastModified", VNum 200)] in
  GolfDB.detectIn render [VObj lo] [VObj ro]
    = Ok [GolfDB.conflictOf "server_newer" (VObj lo) (VObj ro)].
Proof.
  intros lo ro.
  refine (proj1 (proj1 (detect_classification render lo ro (KStr "course-1")
                          eq_refl eq_refl) 100 200 eq_refl eq_refl _ _) _); lia.
Defined.

(** C2 as stated fails on a zero timestamp: the remote [lastModified] 5 is
    greater than the local [lastModified] 0, and the comparison reports a
    [content_conflict], not [server_newer]. *)
Lemma detect_zero_timestamp_counterexample :
  let l := VObj [("id", VStr "course-1"); ("par", VNum 72); ("lastModified", VNum 0)] in
  let r := VObj [("id", VStr "course-1"); ("par", VNum 72); ("lastModified", VNum 5)] in
  GolfDB.js_gt (VNum 5) (VNum 0) = Ok true /\
  GolfDB.detectIn render [l] [r] = Ok [GolfDB.conflictOf "content_conflict" l r] /\
  GolfDB.detectIn render [l] [r] <> Ok [GolfDB.conflictOf "server_newer" l r].
Proof.
  intros l r. split; [reflexivity|]. split; [vm_compute; reflexivity|].
  vm_compute. discriminate.
Qed.

(** ** Conflict resolution *)

Section Resolution.
Import GolfDB.

Lemma keyPath_cases (c : string) : keyPath c = "id" \/ keyPath c = "key".
Proof. unfold keyPath. destruct (String.eqb c "settings"); auto. Qed.

(** Bumping [lastModified] and [synced] leaves the key where it was. *)
Lemma keyOf_touched (c : string) (o : obj) (now : Z) :
  keyOf (keyPath c) (touched (VObj o) now) = keyOf (keyPath c) (VObj o).
Proof.
  unfold touched, keyOf. simpl.
  destruct (keyPath_cases c) as [-> | ->];
    now rewrite !obj_get_set_ne by discriminate.
Qed.

Lemma keyOf_accepted (c : string) (o : obj) :
  keyOf (keyPath c) (accepted (VObj o)) = keyOf (keyPath c) (VObj o).
Proof.
  unfold accepted, keyOf. simpl.
  destruct (keyPath_cases c) as [-> | ->];
    now rewrite !obj_get_set_ne by discriminate.
Qed.

Lemma getSyncQueue_insert_ne (c : string) (s : objectStore) (db : DB) :
  c <> "syncQueue" ->
  fst (run getSyncQueue (<[c := s]> db)) = fst (run getSyncQueue db).
Proof.
  intros Hc. unfold getSyncQueue, try_catch, getAll, objectStoreOf. simpl.
  rewrite lookup_insert_ne by exact Hc.
  now destruct (db !! "syncQueue").
Qed.

(** C1, as the code has it. Resolving a conflict whose two entities are
    present with [use_local] writes the local entity back to its
    collection with [lastModified] set to the clock reading and
    [synced = false], every other field as it was. Nothing is appended to
    the sync queue: every other collection is left as it was, and
    [getSyncQueue] returns what it returned before. *)
Theorem use_local_writes_back (c type : string) (lo ro : obj) (rules : value)
    (now now' : Z) (db : DB) (s : objectStore) (k : key) :
  db !! c = Some s ->
  keyOf (keyPath c) (VObj lo) = Ok k ->
  let resolved := touched (VObj lo) now in
  let db' := <[c := store_put k resolved s]> db in
  run (resolveConflict c (conflictOf type (VObj lo) (VObj ro))
         {| strategy := VStr "use_local"; mergeRules := rules |} now now') db
    = (Ok tt, db') /\
  run (get c (key_value k)) db' = (Ok resolved, db') /\
  prop resolved "lastModified" = Ok (VNum now) /\
  prop resolved "synced" = Ok (VBool false) /\
  (forall f, f <> "lastModified" -> f <> "synced" ->
             prop resolved f = prop (VObj lo) f) /\
  (forall c', c <> c' -> db' !! c' = db !! c') /\
  (c <> "syncQueue" -> fst (run getSyncQueue db') = fst (run getSyncQueue db)).
Proof.
  intros Hs Hk resolved db'. repeat split.
  - unfold resolveConflict, conflictOf. cbn -[put touched].
    rewrite run_bind, (put_run c (touched (VObj lo) now) db s k Hs); [reflexivity|].
    now rewrite keyOf_touched.
  - eapply get_Ok; [apply lookup_insert_eq| |apply store_get_put_eq].
    now destruct k.
  - unfold resolved, touched. simpl.
    rewrite obj_get_set_ne by discriminate. now rewrite obj_get_set_eq.
  - unfold resolved, touched. simpl. now rewrite obj_get_set_eq.
  - intros f H1 H2. unfold resolved, touched. simpl.
    now rewrite !obj_get_set_ne by congruence.
  - intros c' Hc. unfold db'. now rewrite lookup_insert_ne.
  - intros Hc. now apply getSyncQueue_insert_ne.
Qed.

End Resolution.

Lemma use_local_writes_back_witness :
  let resolved := GolfDB.touched (VObj course1) 300 in
  let db' := <["courses" := store_put (KStr "course-1") resolved
                              [(KStr "course-1", VObj course1)]]> courses_db in
  run (GolfDB.resolveConflict "courses"
         (GolfDB.conflictOf "server_newer" (VObj course1) (VObj course1_remote))
         {| GolfDB.strategy := VStr "use_local"; GolfDB.mergeRules := VUndef |}
         300 300) courses_db
    = (Ok tt, db') /\
  fst (run GolfDB.getSyncQueue db') = fst (run GolfDB.getSyncQueue courses_db).
Proof.
  intros resolved db'.
  pose proof (use_local_writes_back "courses" "server_newer" course1
                course1_remote VUndef 300 300 courses_db
                [(KStr "course-1", VObj course1)] (KStr "course-1")
                eq_refl eq_refl) as H.
  split; [apply H|]. apply H. discriminate.
Defined.

(** C1 as stated fails: after the [use_local] resolution of the conflict
    on [course-1] the sync queue is as empty as before, so no new pending
    [put] item references the resolved entity. *)
Lemma use_local_enqueues_nothing_counterexample :
  exists db',
    run (GolfDB.resolveConflict "courses"
           (GolfDB.conflictOf "server_newer" (VObj course1) (VObj course1_remote))
           {| GolfDB.strategy := VStr "use_local"; GolfDB.mergeRules := VUndef |}
           300 300) courses_db
      = (Ok tt, db') /\
    run GolfDB.getSyncQueue courses_db = (Ok [], courses_db) /\
    run GolfDB.getSyncQueue db' = (Ok [], db').
Proof.
  eexists. split; [reflexivity|]. split; reflexivity.
Qed.

(** ** Well-formed object stores *)

Lemma key_compare_flip (a b : key) : key_compare a b = Lt -> key_compare b a = Gt.
Proof. intros H. now rewrite key_compare_antisym, H. Qed.

Lemma store_get_skip (a b : objectStore) (k : key) :
  Forall (fun kv => key_compare (fst kv) k = Lt) a ->
  store_get k (a ++ b) = store_get k b.
Proof.
  induction 1 as [|[k' v'] a Hlt _ IH]; simpl; [reflexivity|].
  simpl in Hlt. now rewrite (key_compare_flip _ _ Hlt).
Qed.

Lemma store_put_skip (a b : objectStore) (k : key) (v : value) :
  Forall (fun kv => key_compare (fst kv) k = Lt) a ->
  store_put k v (a ++ b) = a ++ store_put k v b.
Proof.
  induction 1 as [|[k' v'] a Hlt _ IH]; simpl; [reflexivity|].
  simpl in Hlt. now rewrite (key_compare_flip _ _ Hlt), IH.
Qed.

Lemma store_get_ascending (s : objectStore) (k : key) (v : value) :
  ascending s -> In (k, v) s -> store_get k s = Some v.
Proof.
  induction s as [|[k' v'] s IH]; simpl; [tauto|].
  intros [Hlt Hasc] [Heq|Hin].
  - injection Heq as -> ->. now rewrite key_compare_refl.
  - rewrite Forall_forall in Hlt. specialize (Hlt _ (proj2 (list_elem_of_In _ _) Hin)).
    simpl in Hlt. rewrite (key_compare_flip _ _ Hlt). now apply IH.
Qed.

Lemma ascending_map (g : value -> value) (s : objectStore) :
  ascending s -> ascending (map (fun kv => (fst kv, g (snd kv))) s).
Proof.
  induction s as [|[k v] s IH]; simpl; [tauto|].
  intros [Hlt Hasc]. split; [|now apply IH].
  rewrite Forall_map. simpl. exact Hlt.
Qed.

(** *** The operations keep the stores well-formed *)

Lemma string_compare_trans (a : string) :
  forall b c, String.compare a b = Lt -> String.compare b c = Lt ->
              String.compare a c = Lt.
Proof.
  induction a as [|x a IH]; intros [|y b] [|z c]; simpl; try discriminate; trivial.
  unfold Ascii.compare.
  destruct (N.compare_spec (Ascii.N_of_ascii x) (Ascii.N_of_ascii y)) as [Exy|Lxy|Gxy];
    try discriminate;
    destruct (N.compare_spec (Ascii.N_of_ascii y) (Ascii.N_of_ascii z)) as [Eyz|Lyz|Gyz];
    try discriminate;
    destruct (N.compare_spec (Ascii.N_of_ascii x) (Ascii.N_of_ascii z)) as [Exz|Lxz|Gxz];
    try lia; trivial.
  apply IH.
Qed.

Lemma key_compare_trans (a b c : key) :
  key_compare a b = Lt -> key_compare b c = Lt -> key_compare a c = Lt.
Proof.
  destruct a as [x|s], b as [y|t], c as [z|u]; simpl; try discriminate; trivial.
  - rewrite !Z.compare_lt_iff. lia.
  - apply string_compare_trans.
Qed.

Lemma store_put_above (k0 k : key) (v : value) (s : objectStore) :
  key_compare k0 k = Lt ->
  Forall (fun kv => key_compare k0 (fst kv) = Lt) s ->
  Forall (fun kv => key_compare k0 (fst kv) = Lt) (store_put k v s).
Proof.
  intros Hk. induction 1 as [|[k' v'] s Hlt Hs IH]; simpl.
  - now constructor.
  - destruct (key_compare k k'); repeat constructor; assumption.
Qed.

Lemma store_put_ascending (k : key) (v : value) (s : objectStore) :
  ascending s -> ascending (store_put k v s).
Proof.
  induction s as [|[k' v'] s IH]; simpl; [intros _; split; [constructor|exact I]|].
  intros [Hlt Hasc]. destruct (key_compare k k') eqn:E; simpl.
  - apply key_compare_eq in E. subst k'. now split.
  - split; [|now split]. constructor; [exact E|].
    eapply Forall_impl; [exact Hlt|]. intros kv H.
    exact (key_compare_trans _ _ _ E H).
  - split; [|now apply IH]. apply store_put_above; [|exact Hlt].
    rewrite key_compare_antisym, E. reflexivity.
Qed.

Lemma store_put_keyed (path : string) (k : key) (v : value) (s : objectStore) :
  keyOf path v = Ok k -> keyed path s -> keyed path (store_put k v s).
Proof.
  intros Hk. induction 1 as [|[k' v'] s Hkv Hs IH]; simpl.
  - now repeat constructor.
  - destruct (key_compare k k'); repeat constructor; assumption.
Qed.

Lemma store_delete_above (k0 k : key) (s : objectStore) :
  Forall (fun kv => key_compare k0 (fst kv) = Lt) s ->
  Forall (fun kv => key_compare k0 (fst kv) = Lt) (store_delete k s).
Proof.
  induction 1 as [|[k' v'] s Hlt Hs IH]; simpl; [constructor|].
  destruct (key_compare k k'); try assumption; now constructor.
Qed.

Lemma store_delete_wf (path : string) (k : key) (s : objectStore) :
  store_wf path s -> store_wf path (store_delete k s).
Proof.
  intros [Hasc Hkeyed]. split.
  - induction s as [|[k' v'] s IH]; simpl; [exact I|].
    destruct Hasc as [Hlt Hasc]. apply Forall_cons in Hkeyed as [_ Hkeyed].
    destruct (key_compare k k'); try (now apply IH);
      (split; [now apply store_delete_above | now apply IH]).
  - induction Hkeyed as [|[k' v'] s Hkv Hs IH]; simpl; [constructor|].
    destruct Hasc as [_ Hasc].
    destruct (key_compare k k'); try (now apply IH);
      (constructor; [assumption | now apply IH]).
Qed.

Lemma init_wf : db_wf GolfDB.init.
Proof.
  intros c s H. unfold GolfDB.init in H.
  apply elem_of_list_to_map_2 in H.
  repeat (apply elem_of_cons in H as [H|H];
          [injection H as -> ->; split; [exact I|constructor]|]).
  inversion H.
Qed.

Lemma db_wf_insert (d : GolfDB.DB) (c : string) (s : objectStore) :
  db_wf d -> store_wf (GolfDB.keyPath c) s -> db_wf (<[c := s]> d).
Proof.
  intros Hd Hs c' s' H. destruct (decide (c = c')) as [<-|Hne].
  - rewrite lookup_insert_eq in H. now injection H as <-.
  - rewrite lookup_insert_ne in H by exact Hne. now apply Hd.
Qed.

Lemma put_wf (c : string) (e : value) (d : GolfDB.DB) :
  db_wf d -> db_wf (snd (run (GolfDB.put c e) d)).
Proof.
  intros Hd. destruct (run (GolfDB.put c e) d) as [[k|x] d'] eqn:H; simpl.
  - apply put_Ok in H as (s & Hs & Hk & ->).
    apply db_wf_insert; [exact Hd|]. destruct (Hd c s Hs) as [Hasc Hkeyed].
    split; [now apply store_put_ascending | now apply store_put_keyed].
  - now rewrite (put_Err _ _ _ _ _ H).
Qed.

Lemma add_wf (c : string) (e : value) (d : GolfDB.DB) :
  db_wf d -> db_wf (snd (run (GolfDB.add c e) d)).
Proof.
  intros Hd. destruct (run (GolfDB.add c e) d) as [[k|x] d'] eqn:H; simpl.
  - apply add_Ok in H as (s & Hs & Hk & _ & ->).
    apply db_wf_insert; [exact Hd|]. destruct (Hd c s Hs) as [Hasc Hkeyed].
    split; [now apply store_put_ascending | now apply store_put_keyed].
  - revert H. unfold GolfDB.add, GolfDB.objectStoreOf, lift, throw. simpl.
    destruct (d !! c) as [s|]; simpl; [|intros H; inversion H; now subst].
    destruct (keyOf (GolfDB.keyPath c) e) as [k|y]; simpl;
      [|intros H; inversion H; now subst].
    destruct (store_get k s); simpl; intros H; inversion H; now subst.
Qed.

Lemma delete_wf (c : string) (keyv : value) (d : GolfDB.DB) :
  db_wf d -> db_wf (snd (run (GolfDB.delete c keyv) d)).
Proof.
  intros Hd. unfold GolfDB.delete, GolfDB.objectStoreOf, lift. simpl.
  destruct (d !! c) as [s|] eqn:Hs; simpl; [|exact Hd].
  destruct (to_key keyv) as [k|x]; simpl; [|exact Hd].
  apply db_wf_insert; [exact Hd|]. apply store_delete_wf. now apply Hd.
Qed.

(** *** Well-formedness is an invariant of GolfDB

    Every method is a sequence of [add], [put], [get], [getAll] and
    [delete], so each keeps the database well-formed: the databases the
    methods reach from [init] are all well-formed. *)

Section Invariant.
Import GolfDB.

Lemma preserves_ret {A} (a : A) : preserves (mret a).
Proof. intros d Hd. exact Hd. Qed.

Lemma preserves_lift {A} (r : result A) : preserves (lift r).
Proof. intros d Hd. exact Hd. Qed.

Lemma preserves_bind {A B} (m : M DB A) (k : A -> M DB B) :
  preserves m -> (forall a, preserves (k a)) -> preserves (m ≫= k).
Proof.
  intros Hm Hk d Hd. rewrite run_bind. specialize (Hm d Hd).
  destruct (run m d) as [[a|x] d']; simpl in *; [now apply Hk | exact Hm].
Qed.

Lemma preserves_try_catch {A} (m : M DB A) (h : exn -> M DB A) :
  preserves m -> (forall x, preserves (h x)) -> preserves (try_catch m h).
Proof.
  intros Hm Hh d Hd. rewrite run_try_catch. specialize (Hm d Hd).
  destruct (run m d) as [[a|x] d']; simpl in *; [exact Hm|].
  destruct x; try exact Hm; now apply Hh.
Qed.

Lemma preserves_if {A} (b : bool) (m1 m2 : M DB A) :
  preserves m1 -> preserves m2 -> preserves (if b then m1 else m2).
Proof. now destruct b. Qed.

Lemma preserves_put (c : string) (e : value) : preserves (put c e).
Proof. intros d. apply put_wf. Qed.

Lemma preserves_add (c : string) (e : value) : preserves (add c e).
Proof. intros d. apply add_wf. Qed.

Lemma preserves_delete (c : string) (keyv : value) : preserves (delete c keyv).
Proof. intros d. apply delete_wf. Qed.

Lemma preserves_get (c : string) (keyv : value) : preserves (get c keyv).
Proof.
  intros d Hd. unfold get, objectStoreOf, lift. simpl.
  destruct (d !! c); simpl; [|exact Hd]. now destruct (to_key keyv).
Qed.

Lemma preserves_getAll (c : string) : preserves (getAll c).
Proof.
  intros d Hd. unfold getAll, objectStoreOf. simpl. now destruct (d !! c).
Qed.

Create HintDb golfdb_wf.
#[local] Hint Resolve preserves_ret preserves_lift preserves_put preserves_add
  preserves_delete preserves_get preserves_getAll : golfdb_wf.

Ltac preserved :=
  cbv zeta;
  repeat first
    [ solve [auto with golfdb_wf]
    | apply preserves_bind; [|intros ?]
    | apply preserves_try_catch; [|intros ?]
    | apply preserves_if ].

Lemma preserves_storeConflict (c : string) (conflict : value) (now now' : Z) :
  preserves (storeConflict c conflict now now').
Proof. unfold storeConflict. preserved. Qed.

Lemma preserves_resolveConflict (c : string) (conflict : value) (res : resolution)
    (now now' : Z) :
  preserves (resolveConflict c conflict res now now').
Proof.
  unfold resolveConflict. preserved.
Qed.

Lemma preserves_resolveStoredConflict (conflictId : value) (res : resolution)
    (now now' : Z) :
  preserves (resolveStoredConflict conflictId res now now').
Proof.
  unfold resolveStoredConflict. preserved.
Qed.

Lemma preserves_addToSyncQueue (storeName operation data : value)
    (now : Z) (rnd : string) (now' : Z) :
  preserves (addToSyncQueue storeName operation data now rnd now').
Proof. unfold addToSyncQueue. preserved. Qed.

Lemma preserves_markSyncItemComplete (syncId : value) :
  preserves (markSyncItemComplete syncId).
Proof. unfold markSyncItemComplete. preserved. Qed.

Lemma preserves_retrySyncItem (syncId : value) : preserves (retrySyncItem syncId).
Proof. unfold retrySyncItem. preserved. Qed.

Lemma preserves_removeFromSyncQueue (syncId : value) :
  preserves (removeFromSyncQueue syncId).
Proof. unfold removeFromSyncQueue. preserved. Qed.

End Invariant.

(** ** The sync pass *)

Section SyncPass.
Import GolfDB useGolfData.

Variable push : value -> bool.

Lemma onDb_run {A} (m : M DB A) (w : World) :
  db w = true ->
  run (onDb m) w = (fst (run m (idb w)), withIdb (snd (run m (idb w))) w).
Proof.
  intros Hdb. unfold onDb. simpl. rewrite Hdb.
  now destruct (run m (idb w)).
Qed.

Lemma processSyncItem_run (o : obj) (w : World) :
  run (processSyncItem push (VObj o)) w
  = (if delivered push (VObj o) then Ok tt else Err SyncItemFailed, w).
Proof.
  unfold processSyncItem, delivered, pushed. rewrite run_bind. simpl.
  destruct (strict_eq (obj_get o "operation") (VStr "add")); simpl;
    [now destruct (push (VObj o))|].
  destruct (strict_eq (obj_get o "operation") (VStr "put")); simpl;
    [now destruct (push (VObj o))|].
  destruct (strict_eq (obj_get o "operation") (VStr "delete")); simpl;
    [now destruct (push (VObj o))|].
  reflexivity.
Qed.

Lemma keyOf_id (o : obj) (k : key) :
  keyOf "id" (VObj o) = Ok k -> obj_get o "id" = key_value k.
Proof.
  simpl. destruct (obj_get o "id") as [| | | | | | |[]]; simpl; try discriminate;
    intros H; injection H as <-; reflexivity.
Qed.

Lemma to_key_value (k : key) : to_key (key_value k) = Ok k.
Proof. now destruct k. Qed.

Lemma markSyncItemComplete_run (d : DB) (s : objectStore) (k : key) (o : obj) :
  d !! "syncQueue" = Some s ->
  store_get k s = Some (VObj o) ->
  keyOf "id" (VObj o) = Ok k ->
  run (markSyncItemComplete (key_value k)) d
  = (Ok tt, <["syncQueue" := store_put k (completed o) s]> d).
Proof.
  intros Hs Hget Hk. unfold markSyncItemComplete.
  rewrite run_bind, (get_Ok _ _ _ s k (VObj o) Hs (to_key_value k) Hget).
  cbn -[put]. rewrite run_bind.
  rewrite (put_run "syncQueue" _ d s k Hs); [reflexivity|].
  simpl. rewrite obj_get_set_ne by discriminate. exact Hk.
Qed.

Lemma retrySyncItem_run (d : DB) (s : objectStore) (k : key) (o : obj) (n : Z) :
  d !! "syncQueue" = Some s ->
  store_get k s = Some (VObj o) ->
  keyOf "id" (VObj o) = Ok k ->
  obj_get o "retries" = VNum n ->
  run (retrySyncItem (key_value k)) d
  = (Ok tt, <["syncQueue" := store_put k (retried o n) s]> d).
Proof.
  intros Hs Hget Hk Hn. unfold retrySyncItem.
  rewrite run_bind, (get_Ok _ _ _ s k (VObj o) Hs (to_key_value k) Hget).
  cbn -[put]. rewrite Hn. cbn -[put].
  rewrite run_bind.
  rewrite (put_run "syncQueue" _ d s k Hs); [reflexivity|].
  simpl. rewrite !obj_get_set_ne by discriminate. exact Hk.
Qed.

(** One turn of the loop: the item is pushed, then marked complete or
    retried; either way the turn returns normally. *)
Lemma syncItem_run (w : World) (s : objectStore) (k : key) (o : obj) :
  db w = true ->
  idb w !! "syncQueue" = Some s ->
  store_get k s = Some (VObj o) ->
  keyOf "id" (VObj o) = Ok k ->
  (delivered push (VObj o) = false -> exists n, obj_get o "retries" = VNum n) ->
  run (syncItem push (VObj o)) w
  = (Ok tt, withIdb (<["syncQueue" := store_put k (afterSync push (VObj o)) s]> (idb w)) w).
Proof.
  intros Hdb Hs Hget Hk Hretries.
  unfold syncItem. rewrite run_try_catch, run_bind, processSyncItem_run.
  unfold afterSync.
  destruct (delivered push (VObj o)) eqn:Hd.
  - rewrite run_bind. cbn [lift run prop]. rewrite (keyOf_id o k Hk).
    rewrite (onDb_run _ w Hdb), (markSyncItemComplete_run _ s k o Hs Hget Hk).
    reflexivity.
  - destruct (Hretries eq_refl) as [n Hn]. rewrite Hn.
    rewrite run_bind. cbn [lift run prop]. rewrite (keyOf_id o k Hk).
    rewrite (onDb_run _ w Hdb), (retrySyncItem_run _ s k o n Hs Hget Hk Hn).
    reflexivity.
Qed.

Lemma withIdb_id (w : World) : withIdb (idb w) w = w.
Proof. now destruct w. Qed.

(** The loop of the pass over the queue read at its start: the records
    [pre] have had their turn, the records [post] are still to come. *)
Lemma sync_loop (post : objectStore) :
  forall (pre : objectStore) (w : World),
    db w = true ->
    idb w !! "syncQueue" = Some (pre ++ post) ->
    Forall (fun kv => Forall (fun kv' => key_compare (fst kv) (fst kv') = Lt) post) pre ->
    store_wf "id" post ->
    (forall kv, In kv post -> delivered push (snd kv) = false ->
                exists n, prop (snd kv) "retries" = Ok (VNum n)) ->
    run (for_of (map snd post) (syncItem push)) w
    = (Ok tt, withIdb (<["syncQueue" := pre ++ map (step push) post]> (idb w)) w).
Proof.
  induction post as [|[k item] post IH]; intros pre w Hdb Hq Hpre [Hasc Hkeyed] Hretries.
  - simpl. rewrite insert_id by exact Hq. now rewrite withIdb_id.
  - apply Forall_cons in Hkeyed as [Hk Hkeyed]. simpl in Hk.
    destruct item as [| | | | | |o|]; try discriminate Hk.
    destruct Hasc as [Hhead Hasc].
    assert (Hbelow : Forall (fun kv => key_compare (fst kv) k = Lt) pre).
    { eapply Forall_impl; [exact Hpre|]. intros kv H.
      now apply Forall_cons in H as [H _]. }
    assert (Hget : store_get k (pre ++ (k, VObj o) :: post) = Some (VObj o)).
    { rewrite (store_get_skip _ _ _ Hbelow). simpl. now rewrite key_compare_refl. }
    assert (Hn : delivered push (VObj o) = false -> exists n, obj_get o "retries" = VNum n).
    { intros Hd. destruct (Hretries (k, VObj o) (or_introl eq_refl) Hd) as [n Hn].
      exists n. simpl in Hn. now injection Hn. }
    cbn [map snd for_of]. rewrite run_bind.
    rewrite (syncItem_run w _ k o Hdb Hq Hget Hk Hn).
    rewrite (store_put_skip _ _ _ _ Hbelow). cbn [store_put].
    rewrite key_compare_refl.
    rewrite (IH (pre ++ [(k, afterSync push (VObj o))])).
    + cbn [idb withIdb]. rewrite insert_insert_eq.
      cbn [map step fst snd]. rewrite <- app_assoc. reflexivity.
    + exact Hdb.
    + cbn [idb withIdb]. rewrite lookup_insert_eq, <- app_assoc. reflexivity.
    + apply Forall_app. split.
      * eapply Forall_impl; [exact Hpre|]. intros kv H.
        now apply Forall_cons in H as [_ H].
      * constructor; [exact Hhead|constructor].
    + split; assumption.
    + intros kv Hin. apply Hretries. now right.
Qed.

Lemma getSyncQueue_run (d : DB) (q : objectStore) :
  d !! "syncQueue" = Some q -> run getSyncQueue d = (Ok (map snd q), d).
Proof.
  intros Hq. unfold getSyncQueue, getAll, objectStoreOf. simpl. now rewrite Hq.
Qed.

Lemma getPendingConflicts_run (d : DB) :
  exists l, run getPendingConflicts d = (Ok l, d).
Proof.
  unfold getPendingConflicts, getAll, objectStoreOf. simpl.
  destruct (d !! "conflicts"); eexists; reflexivity.
Qed.

Lemma checkForConflicts_run (w : World) :
  db w = true ->
  exists l, run checkForConflicts w = (Ok tt, withPendingConflicts l w).
Proof.
  intros Hdb. destruct (getPendingConflicts_run (idb w)) as [l Hl].
  exists l. unfold checkForConflicts, loadPendingConflicts.
  cbn [run]. rewrite Hdb. cbn [negb].
  rewrite run_try_catch, run_bind, (onDb_run _ w Hdb), Hl.
  cbn [fst snd]. rewrite withIdb_id. reflexivity.
Qed.

(** The whole pass: every item of the queue has its turn, in the order of
    the queue, and the coordinator ends [idle]. *)
Lemma performSync_run (w : World) (q : objectStore) :
  db w = true ->
  isOnline w = true ->
  idb w !! "syncQueue" = Some q ->
  store_wf "id" q ->
  (forall kv, In kv q -> delivered push (snd kv) = false ->
              exists n, prop (snd kv) "retries" = Ok (VNum n)) ->
  exists w',
    run (performSync push) w = (Ok tt, w') /\
    idb w' = <["syncQueue" := map (step push) q]> (idb w) /\
    syncStatus w' = idle.
Proof.
  intros Hdb Hon Hq Hwf Hretries.
  pose (w1 := withSyncStatus syncing w).
  pose (w2 := withIdb (<["syncQueue" := map (step push) q]> (idb w)) w1).
  destruct (checkForConflicts_run w2 Hdb) as [l Hl].
  exists (withSyncStatus idle (withPendingConflicts l w2)).
  split; [|split; reflexivity].
  unfold performSync. cbn [run]. rewrite Hdb, Hon. cbn [negb orb].
  rewrite run_try_catch, run_bind. cbn [setSyncStatus run]. fold w1.
  rewrite run_bind, (onDb_run _ w1 Hdb).
  cbn [idb withSyncStatus w1]. rewrite (getSyncQueue_run _ q Hq).
  cbn [fst snd].
  replace (withIdb (idb w) w1) with w1 by (symmetry; apply (withIdb_id w1)).
  rewrite run_bind.
  rewrite (sync_loop q [] w1 Hdb Hq (List.Forall_nil _) Hwf Hretries).
  change (withIdb (<["syncQueue" := [] ++ map (step push) q]> (idb w1)) w1) with w2.
  rewrite run_bind, Hl. reflexivity.
Qed.

Lemma store_get_step (q : objectStore) (k : key) (item : value) :
  ascending q -> In (k, item) q ->
  store_get k (map (step push) q) = Some (afterSync push item).
Proof.
  intros Hasc Hin. apply store_get_ascending.
  - exact (ascending_map (afterSync push) q Hasc).
  - exact (in_map (step push) q (k, item) Hin).
Qed.

(** C4, as the code has it. A sync trigger is dropped when the database
    handle is missing or the application is offline. The coordinator's
    [syncStatus] is not looked at: with a handle and online, a trigger that
    arrives while it is [syncing] runs the same pass as one that arrives
    while it is [idle] or [error], and that pass is a full one: every item
    of the queue has its turn and the coordinator ends [idle]. *)
Theorem trigger_ignores_sync_status (w : World) :
  (db w = false \/ isOnline w = false -> run (performSync push) w = (Ok tt, w)) /\
  (db w = true -> isOnline w = true ->
   forall st, run (performSync push) (withSyncStatus st w) = run (performSync push) w) /\
  (db w = true -> isOnline w = true ->
   forall q : objectStore,
     idb w !! "syncQueue" = Some q ->
     store_wf "id" q ->
     (forall kv, In kv q -> delivered push (snd kv) = false ->
                 exists n, prop (snd kv) "retries" = Ok (VNum n)) ->
     forall st, exists w',
       run (performSync push) (withSyncStatus st w) = (Ok tt, w') /\
       idb w' = <["syncQueue" := map (step push) q]> (idb w) /\
       syncStatus w' = idle).
Proof.
  split; [|split].
  - intros [H|H]; unfold performSync; cbn [run]; rewrite H;
      [reflexivity | now rewrite orb_true_r].
  - intros Hdb Hon st. unfold performSync. cbn [run db isOnline withSyncStatus].
    rewrite Hdb, Hon. reflexivity.
  - intros Hdb Hon q Hq Hwf Hretries st.
    exact (performSync_run (withSyncStatus st w) q Hdb Hon Hq Hwf Hretries).
Qed.

End SyncPass.

(** C3, as the code has it. Draining the queue ([getSyncQueue]) yields
    every item of the [syncQueue] store, whatever its status, in the order
    of the store: ascending by [id], the key of the store. *)
Theorem drain_yields_whole_queue (d : GolfDB.DB) (q : objectStore) :
  db_wf d ->
  d !! "syncQueue" = Some q ->
  run GolfDB.getSyncQueue d = (Ok (map snd q), d) /\
  ascending q /\
  forall k item, In (k, item) q -> prop item "id" = Ok (key_value k).
Proof.
  intros Hwf Hq. split; [now apply getSyncQueue_run|].
  destruct (Hwf _ _ Hq) as [Hasc Hkeyed]. split; [exact Hasc|].
  intros k item Hin. unfold keyed in Hkeyed. rewrite Forall_forall in Hkeyed.
  specialize (Hkeyed _ (proj2 (list_elem_of_In _ _) Hin)). simpl in Hkeyed.
  destruct item; try discriminate. simpl. f_equal. now apply keyOf_id.
Qed.

(** *** The queue scenarios *)

Lemma drain_yields_whole_queue_witness :
  let q := [(KStr "sync-1000-0.5", queued round123 1000 "0.5" 1000 0 "pending")] in
  run GolfDB.getSyncQueue queued_db = (Ok (map snd q), queued_db) /\
  ascending q /\
  forall k item, In (k, item) q -> prop item "id" = Ok (key_value k).
Proof.
  intros q. apply (drain_yields_whole_queue queued_db q).
  - apply preserves_addToSyncQueue, init_wf.
  - reflexivity.
Defined.

(** C3 as stated fails twice over. The drain of a queue whose only item is
    [completed] yields that item; and the drain of two items enqueued in
    the same millisecond yields the one with timestamp 1001 before the one
    with timestamp 1000, the order of their ids. *)
Lemma drain_counterexample :
  run GolfDB.getSyncQueue completed_db
    = (Ok [queued round123 1000 "0.5" 1000 0 "completed"], completed_db) /\
  run GolfDB.getSyncQueue same_ms_db
    = (Ok [queued round124 1000 "0.1" 1001 0 "pending";
           queued round123 1000 "0.9" 1000 0 "pending"], same_ms_db).
Proof. split; vm_compute; reflexivity. Qed.

Lemma trigger_ignores_sync_status_witness :
  let w := world_of queued_db useGolfData.idle in
  run (useGolfData.performSync useGolfData.noPush)
      (useGolfData.withSyncStatus useGolfData.syncing w)
  = run (useGolfData.performSync useGolfData.noPush) w /\
  exists w',
    run (useGolfData.performSync useGolfData.noPush)
        (useGolfData.withSyncStatus useGolfData.syncing w) = (Ok tt, w') /\
    useGolfData.syncStatus w' = useGolfData.idle.
Proof.
  intros w. split.
  - exact (proj1 (proj2 (trigger_ignores_sync_status useGolfData.noPush w))
             eq_refl eq_refl useGolfData.syncing).
  - destruct (proj2 (proj2 (trigger_ignores_sync_status useGolfData.noPush w))
                eq_refl eq_refl
                [(KStr "sync-1000-0.5", queued round123 1000 "0.5" 1000 0 "pending")]
                eq_refl) with (st := useGolfData.syncing)
      as (w' & Hrun & _ & Hidle).
    + repeat constructor.
    + intros kv [<-|[]] _. eexists. reflexivity.
    + exists w'. split; assumption.
Defined.

(** C4 as stated fails: with the coordinator [syncing], a trigger is not a
    no-op. It runs a pass that marks the pending item [completed] and
    leaves the coordinator [idle]. *)
Lemma trigger_while_syncing_counterexample :
  let w := world_of queued_db useGolfData.syncing in
  useGolfData.syncStatus w = useGolfData.syncing /\
  run (useGolfData.performSync useGolfData.noPush) w
    = (Ok tt, world_of completed_db useGolfData.idle) /\
  run (useGolfData.performSync useGolfData.noPush) w <> (Ok tt, w).
Proof.
  intros w. split; [reflexivity|].
  assert (H : run (useGolfData.performSync useGolfData.noPush) w
              = (Ok tt, world_of completed_db useGolfData.idle))
    by (vm_compute; reflexivity).
  split; [exact H|]. rewrite H. intros E.
  apply (f_equal (fun r => useGolfData.syncStatus (snd r))) in E.
  discriminate E.
Qed.

(** ** Export, clear, import *)

Section Backup.
Import GolfDB useGolfData.

(** *** JSON text keeps what the checks and the key path read *)

Lemma truthy_json_clone (v : value) :
  finite v = true -> truthy (json_clone v) = truthy v.
Proof. destruct v; try reflexivity. discriminate. Qed.

Lemma typeof_number_json_clone (v : value) :
  finite v = true -> typeof_number (json_clone v) = typeof_number v.
Proof. destruct v; try reflexivity. discriminate. Qed.

Lemma obj_get_json_clone (o : obj) (f : string) :
  obj_get o f <> VUndef ->
  obj_get (spread (json_clone (VObj o))) f = json_clone (obj_get o f).
Proof.
  induction o as [|[g x] o IH]; simpl; [congruence|].
  destruct (String.eqb g f) eqn:E.
  - intros Hx. destruct x; try congruence; simpl; now rewrite E.
  - intros Hx. specialize (IH Hx). simpl in IH.
    destruct x; simpl; rewrite ?E; exact IH.
Qed.

Lemma keyOf_json_clone (o : obj) (k : key) :
  keyOf "id" (VObj o) = Ok k -> keyOf "id" (json_clone (VObj o)) = Ok k.
Proof.
  intros Hk. pose proof (keyOf_id o k Hk) as Hid.
  assert (Hne : obj_get o "id" <> VUndef) by (rewrite Hid; now destruct k).
  pose proof (obj_get_json_clone o "id" Hne) as H.
  simpl in H. simpl. rewrite H, Hid. now destruct k.
Qed.

Lemma keyed_cloned (s : objectStore) : keyed "id" s -> keyed "id" (cloned s).
Proof.
  unfold keyed, cloned. intros H. apply Forall_map.
  eapply Forall_impl; [exact H|]. intros [k v] Hk. simpl in *.
  destruct v; try discriminate. now apply keyOf_json_clone.
Qed.

(** What the array of a store's records reads back as from the file. *)
Lemma cloned_array (s : objectStore) :
  keyed "id" s ->
  map (fun x => match x with VUndef => VNull | _ => json_clone x end) (map snd s)
  = map snd (cloned s).
Proof.
  unfold cloned. rewrite !map_map. intros H.
  induction H as [|[k v] s Hk _ IH]; simpl; [reflexivity|].
  f_equal; [|exact IH]. simpl in Hk. now destruct v.
Qed.

(** *** The loops of [clearAllData] and [importData] *)

Lemma getAll_run (c : string) (d : DB) (s : objectStore) :
  d !! c = Some s -> run (getAll c) d = (Ok (map snd s), d).
Proof. intros H. unfold getAll, objectStoreOf. simpl. now rewrite H. Qed.

Lemma delete_run (c : string) (d : DB) (s : objectStore) (k : key) :
  d !! c = Some s ->
  run (delete c (key_value k)) d = (Ok tt, <[c := store_delete k s]> d).
Proof.
  intros H. unfold delete, objectStoreOf, lift. simpl.
  rewrite H. simpl. now rewrite to_key_value.
Qed.

Lemma deleteEach_run (c : string) (items : objectStore) :
  keyed "id" items ->
  forall (w : World) (s : objectStore),
    db w = true ->
    idb w !! c = Some s ->
    run (deleteEach c (map snd items)) w
    = (Ok tt, withIdb (<[c := delete_all (map fst items) s]> (idb w)) w).
Proof.
  unfold deleteEach.
  induction 1 as [|[k v] items Hk _ IH]; intros w s Hdb Hs.
  - simpl. rewrite insert_id by exact Hs. now rewrite withIdb_id.
  - simpl in Hk. destruct v as [| | | | | |o|]; try discriminate Hk.
    cbn [map snd fst for_of delete_all fold_left].
    rewrite run_bind, run_bind. cbn [lift run prop].
    rewrite (keyOf_id o k Hk), (onDb_run _ w Hdb), (delete_run c _ s k Hs).
    cbn [fst snd].
    rewrite (IH (withIdb (<[c := store_delete k s]> (idb w)) w)
               (store_delete k s) Hdb (lookup_insert_eq _ _ _)).
    cbn [idb withIdb]. now rewrite insert_insert_eq.
Qed.

Lemma putEach_run (c : string) (items : objectStore) :
  keyed (keyPath c) items ->
  forall (w : World) (s : objectStore),
    db w = true ->
    idb w !! c = Some s ->
    run (for_of (map snd items) (fun x => onDb (put c x) ;; mret tt)) w
    = (Ok tt, withIdb (<[c := put_all items s]> (idb w)) w).
Proof.
  induction 1 as [|[k v] items Hk _ IH]; intros w s Hdb Hs.
  - simpl. rewrite insert_id by exact Hs. now rewrite withIdb_id.
  - simpl in Hk. cbn [map snd fst for_of put_all fold_left].
    rewrite run_bind, run_bind, (onDb_run _ w Hdb), (put_run c v _ s k Hs Hk).
    cbn [fst snd M_ret mret run].
    rewrite (IH (withIdb (<[c := store_put k v s]> (idb w)) w)
               (store_put k v s) Hdb (lookup_insert_eq _ _ _)).
    cbn [idb withIdb]. now rewrite insert_insert_eq.
Qed.

Lemma validCourse_run (o : obj) (w : World) :
  passesCourse (VObj o) = true -> run (validCourse (VObj o)) w = (Ok tt, w).
Proof.
  unfold passesCourse. cbn [spread]. intros Hp.
  apply andb_true_iff in Hp as [H1 H2].
  unfold validCourse. cbn. now rewrite H1, H2.
Qed.

Lemma validRound_run (o : obj) (w : World) :
  passesRound (VObj o) = true -> run (validRound (VObj o)) w = (Ok tt, w).
Proof.
  unfold passesRound. cbn [spread]. intros Hp.
  apply andb_true_iff in Hp as [Hp H3]. apply andb_true_iff in Hp as [H1 H2].
  unfold validRound. cbn. now rewrite H1, H2, H3.
Qed.

Lemma validHole_run (o : obj) (w : World) :
  passesHole (VObj o) = true -> run (validHole (VObj o)) w = (Ok tt, w).
Proof.
  unfold passesHole. cbn [spread]. intros Hp.
  apply andb_true_iff in Hp as [Hp H3]. apply andb_true_iff in Hp as [H1 H2].
  unfold validHole. cbn. now rewrite H1, H2, H3.
Qed.

Lemma for_of_unit {S A} (body : A -> M S unit) (l : list A) (s : S) :
  Forall (fun x => run (body x) s = (Ok tt, s)) l ->
  run (for_of l body) s = (Ok tt, s).
Proof.
  induction 1 as [|x l Hx _ IH]; [reflexivity|].
  cbn [for_of]. now rewrite run_bind, Hx.
Qed.

(** The checks pass on the text of an entity when they pass on the entity. *)
Lemma passesCourse_clone (o : obj) :
  passesCourse (VObj o) = true -> keptCourse (VObj o) = true ->
  passesCourse (json_clone (VObj o)) = true.
Proof.
  unfold passesCourse, keptCourse. cbn [spread]. intros H K.
  apply andb_true_iff in H as [H1 H2]. apply andb_true_iff in K as [K1 K2].
  assert (N1 : obj_get o "id" <> VUndef) by (intros E; rewrite E in H1; discriminate).
  assert (N2 : obj_get o "name" <> VUndef) by (intros E; rewrite E in H2; discriminate).
  rewrite (obj_get_json_clone o "id" N1), (obj_get_json_clone o "name" N2),
    (truthy_json_clone _ K1), (truthy_json_clone _ K2), H1, H2.
  reflexivity.
Qed.

Lemma passesRound_clone (o : obj) :
  passesRound (VObj o) = true -> keptRound (VObj o) = true ->
  passesRound (json_clone (VObj o)) = true.
Proof.
  unfold passesRound, keptRound. cbn [spread]. intros H K.
  apply andb_true_iff in H as [H H3]. apply andb_true_iff in H as [H1 H2].
  apply andb_true_iff in K as [K K3]. apply andb_true_iff in K as [K1 K2].
  assert (N1 : obj_get o "id" <> VUndef) by (intros E; rewrite E in H1; discriminate).
  assert (N2 : obj_get o "courseId" <> VUndef)
    by (intros E; rewrite E in H2; discriminate).
  assert (N3 : obj_get o "totalScore" <> VUndef)
    by (intros E; rewrite E in H3; discriminate).
  rewrite (obj_get_json_clone o "id" N1), (obj_get_json_clone o "courseId" N2),
    (obj_get_json_clone o "totalScore" N3),
    (truthy_json_clone _ K1), (truthy_json_clone _ K2),
    (typeof_number_json_clone _ K3), H1, H2, H3.
  reflexivity.
Qed.

Lemma passesHole_clone (o : obj) :
  passesHole (VObj o) = true -> keptHole (VObj o) = true ->
  passesHole (json_clone (VObj o)) = true.
Proof.
  unfold passesHole, keptHole. cbn [spread]. intros H K.
  apply andb_true_iff in H as [H H3]. apply andb_true_iff in H as [H1 H2].
  apply andb_true_iff in K as [K K3]. apply andb_true_iff in K as [K1 K2].
  assert (N1 : obj_get o "id" <> VUndef) by (intros E; rewrite E in H1; discriminate).
  assert (N2 : obj_get o "roundId" <> VUndef)
    by (intros E; rewrite E in H2; discriminate).
  assert (N3 : obj_get o "score" <> VUndef)
    by (intros E; rewrite E in H3; discriminate).
  rewrite (obj_get_json_clone o "id" N1), (obj_get_json_clone o "roundId" N2),
    (obj_get_json_clone o "score" N3),
    (truthy_json_clone _ K1), (truthy_json_clone _ K2),
    (typeof_number_json_clone _ K3), H1, H2, H3.
  reflexivity.
Qed.

(** *** What the deletes and the puts leave in a store *)

Lemma store_delete_In (k : key) (s : objectStore) (kv : key * value) :
  In kv (store_delete k s) -> In kv s /\ fst kv <> k.
Proof.
  induction s as [|[k' v'] s IH]; simpl; [tauto|].
  destruct (key_compare k k') eqn:E.
  - intros H. destruct (IH H). tauto.
  - intros [<-|H]; [|destruct (IH H); tauto].
    split; [tauto|]. simpl. intros ->. rewrite key_compare_refl in E. discriminate.
  - intros [<-|H]; [|destruct (IH H); tauto].
    split; [tauto|]. simpl. intros ->. rewrite key_compare_refl in E. discriminate.
Qed.

Lemma delete_all_clears (ks : list key) :
  forall s, (forall kv, In kv s -> In (fst kv) ks) -> delete_all ks s = [].
Proof.
  induction ks as [|k ks IH]; intros s Hs.
  - destruct s as [|kv s]; [reflexivity|]. destruct (Hs kv (or_introl eq_refl)).
  - cbn [delete_all fold_left]. apply IH. intros kv Hin.
    apply store_delete_In in Hin as [Hin Hne].
    destruct (Hs kv Hin) as [E|H]; [congruence|exact H].
Qed.

Lemma store_put_keys (k0 : key) (v : value) (s : objectStore) (k : key) :
  In k (map fst (store_put k0 v s)) <-> k = k0 \/ In k (map fst s).
Proof.
  induction s as [|[k' v'] s IH]; simpl; [intuition congruence|].
  destruct (key_compare k0 k') eqn:E; simpl.
  - apply key_compare_eq in E. subst k'. intuition congruence.
  - intuition congruence.
  - rewrite IH. intuition congruence.
Qed.

Lemma put_all_keys (kvs : objectStore) :
  forall s k, In k (map fst (put_all kvs s)) <-> In k (map fst kvs) \/ In k (map fst s).
Proof.
  induction kvs as [|[k0 v] kvs IH]; intros s k.
  - simpl. tauto.
  - cbn [put_all fold_left fst snd map]. fold (put_all kvs (store_put k0 v s)).
    rewrite IH, store_put_keys. simpl. intuition congruence.
Qed.

Lemma put_all_keyed (path : string) (kvs : objectStore) :
  keyed path kvs -> forall s, keyed path s -> keyed path (put_all kvs s).
Proof.
  induction 1 as [|[k v] kvs Hk _ IH]; intros s Hs; [exact Hs|].
  cbn [put_all fold_left fst snd]. apply IH. now apply store_put_keyed.
Qed.

Lemma ids_keyed (s : objectStore) :
  keyed "id" s -> ids (map snd s) = map key_value (map fst s).
Proof.
  unfold ids. rewrite !map_map.
  induction 1 as [|[k v] s Hk _ IH]; simpl; [reflexivity|].
  f_equal; [|exact IH]. simpl in Hk.
  destruct v; try discriminate. cbn [spread]. now apply keyOf_id.
Qed.

Lemma cloned_keys (s : objectStore) : map fst (cloned s) = map fst s.
Proof. unfold cloned. rewrite map_map. reflexivity. Qed.

(** The ids of a store re-imported from its own export into the emptied
    store are the ids it had. *)
Lemma reimported_ids (s : objectStore) (i : value) :
  keyed "id" s ->
  In i (ids (map snd (put_all (cloned s) []))) <-> In i (ids (map snd s)).
Proof.
  intros Hs.
  rewrite (ids_keyed s Hs).
  rewrite (ids_keyed _ (put_all_keyed "id" _ (keyed_cloned s Hs) [] (List.Forall_nil _))).
  rewrite !in_map_iff. split; intros (k & <- & Hk); exists k; (split; [reflexivity|]).
  - apply put_all_keys in Hk as [Hk|[]]. now rewrite cloned_keys in Hk.
  - apply put_all_keys. left. now rewrite cloned_keys.
Qed.

(** *** The three steps *)

Lemma keyed_key_in (s : objectStore) (kv : key * value) :
  In kv s -> In (fst kv) (map fst s).
Proof. apply in_map. Qed.

Lemma clearAllData_run (w : World) (cs rs hs : objectStore) :
  db w = true ->
  idb w !! "courses" = Some cs ->
  idb w !! "rounds" = Some rs ->
  idb w !! "holeScores" = Some hs ->
  keyed "id" cs -> keyed "id" rs -> keyed "id" hs ->
  exists w',
    run clearAllData w = (Ok tt, w') /\
    idb w' = <["holeScores" := []]> (<["rounds" := []]> (<["courses" := []]> (idb w))) /\
    db w' = true.
Proof.
  intros Hdb Hc Hr Hh Kc Kr Kh. eexists. split; [|split].
  - unfold clearAllData.
    rewrite run_bind, (onDb_run _ w Hdb), (getAll_run _ _ _ Hc). cbn [fst snd].
    rewrite withIdb_id.
    rewrite run_bind, (onDb_run _ w Hdb), (getAll_run _ _ _ Hr). cbn [fst snd].
    rewrite withIdb_id.
    rewrite run_bind, (onDb_run _ w Hdb), (getAll_run _ _ _ Hh). cbn [fst snd].
    rewrite withIdb_id.
    rewrite run_bind, (deleteEach_run "courses" cs Kc w cs Hdb Hc).
    rewrite (delete_all_clears _ cs (keyed_key_in cs)).
    rewrite run_bind.
    erewrite (deleteEach_run "rounds" rs Kr); [|exact Hdb|].
    2:{ cbn [idb withIdb]. rewrite lookup_insert_ne by discriminate. exact Hr. }
    rewrite (delete_all_clears _ rs (keyed_key_in rs)).
    rewrite run_bind.
    erewrite (deleteEach_run "holeScores" hs Kh); [|exact Hdb|].
    2:{ cbn [idb withIdb]. rewrite !lookup_insert_ne by discriminate. exact Hh. }
    rewrite (delete_all_clears _ hs (keyed_key_in hs)).
    reflexivity.
  - reflexivity.
  - exact Hdb.
Qed.

Lemma all_valid {body : value -> M World unit} {passes : value -> bool}
    (ok : forall o w, passes (VObj o) = true -> run (body (VObj o)) w = (Ok tt, w))
    (items : objectStore) (w : World) :
  keyed "id" items ->
  Forall (fun x => passes x = true) (map snd items) ->
  run (for_of (map snd items) body) w = (Ok tt, w).
Proof.
  intros Hk Hp. apply for_of_unit.
  induction Hk as [|[k v] items Hkv _ IH]; [constructor|].
  apply Forall_cons in Hp as [Hv Hp]. constructor; [|now apply IH].
  simpl in *. destruct v; try discriminate. now apply ok.
Qed.

Lemma importData_run (w : World) (date : string) (a b c sa sb sc : objectStore) :
  db w = true ->
  idb w !! "courses" = Some sa ->
  idb w !! "rounds" = Some sb ->
  idb w !! "holeScores" = Some sc ->
  keyed "id" a -> keyed "id" b -> keyed "id" c ->
  Forall (fun x => passesCourse x = true) (map snd a) ->
  Forall (fun x => passesRound x = true) (map snd b) ->
  Forall (fun x => passesHole x = true) (map snd c) ->
  exists w',
    run (importData (Some (VObj [("courses", VArr (map snd a));
                                 ("rounds", VArr (map snd b));
                                 ("holeScores", VArr (map snd c));
                                 ("exportDate", VStr date)]))) w
      = (Ok tt, w') /\
    idb w' = <["holeScores" := put_all c sc]>
               (<["rounds" := put_all b sb]>
                  (<["courses" := put_all a sa]> (idb w))).
Proof.
  intros Hdb Hc Hr Hh Ka Kb Kc Pa Pb Pc. eexists. split.
  - unfold importData. cbn [truthy typeof_object negb orb].
    rewrite run_bind. cbn [lift run prop obj_get String.eqb Ascii.eqb Bool.eqb].
    rewrite run_bind. cbn [lift run prop obj_get String.eqb Ascii.eqb Bool.eqb].
    rewrite run_bind. cbn [lift run prop obj_get String.eqb Ascii.eqb Bool.eqb].
    rewrite run_bind, (all_valid validCourse_run a w Ka Pa).
    rewrite run_bind, (all_valid validRound_run b w Kb Pb).
    rewrite run_bind, (all_valid validHole_run c w Kc Pc).
    rewrite run_bind, (putEach_run "courses" a Ka w sa Hdb Hc).
    rewrite run_bind. erewrite (putEach_run "rounds" b Kb); [|exact Hdb|].
    2:{ cbn [idb withIdb]. rewrite lookup_insert_ne by discriminate. exact Hr. }
    rewrite run_bind. erewrite (putEach_run "holeScores" c Kc); [|exact Hdb|].
    2:{ cbn [idb withIdb]. rewrite !lookup_insert_ne by discriminate. exact Hh. }
    reflexivity.
  - reflexivity.
Qed.

Lemma passes_cloned (passes kept : value -> bool) (s : objectStore) :
  (forall o, passes (VObj o) = true -> kept (VObj o) = true ->
             passes (json_clone (VObj o)) = true) ->
  keyed "id" s ->
  Forall (fun x => passes x = true) (map snd s) ->
  Forall (fun x => kept x = true) (map snd s) ->
  Forall (fun x => passes x = true) (map snd (cloned s)).
Proof.
  intros Hclone Hk Hp Hf.
  induction Hk as [|[k v] s Hkv _ IH]; [constructor|].
  apply Forall_cons in Hp as [Hv Hp]. apply Forall_cons in Hf as [Hfv Hf].
  simpl in Hkv, Hv, Hfv.
  destruct v; try discriminate.
  cbn [cloned map fst snd]. constructor; [now apply Hclone | now apply IH].
Qed.

Lemma getAll_inv (c : string) (d : DB) (l : list value) :
  run (getAll c) d = (Ok l, d) -> exists s, d !! c = Some s /\ l = map snd s.
Proof.
  unfold getAll, objectStoreOf. simpl.
  destruct (d !! c) as [s|]; simpl; [|discriminate].
  intros H. injection H as <-. eauto.
Qed.

(** C9, as the code has it. When every stored course, round and hole
    score passes the checks of [importData] (a truthy [id] and [name]; a
    truthy [id] and [courseId] and a numeric [totalScore]; a truthy [id]
    and [roundId] and a numeric [score]) and none of these fields is
    [NaN] or an infinity, which the file holds as [null], exporting what
    [getAll] returns for the three collections, clearing them and
    importing the file back succeeds and leaves, in every collection of
    the database, a [getAll] result with the same set of ids as before. *)
Theorem export_clear_import_roundtrip (w : World) (date : string)
    (cs rs hs : objectStore) :
  db w = true ->
  db_wf (idb w) ->
  idb w !! "courses" = Some cs ->
  idb w !! "rounds" = Some rs ->
  idb w !! "holeScores" = Some hs ->
  courses w = map snd cs ->
  rounds w = map snd rs ->
  holeScores w = map snd hs ->
  Forall (fun x => passesCourse x = true) (courses w) ->
  Forall (fun x => passesRound x = true) (rounds w) ->
  Forall (fun x => passesHole x = true) (holeScores w) ->
  Forall (fun x => keptCourse x = true) (courses w) ->
  Forall (fun x => keptRound x = true) (rounds w) ->
  Forall (fun x => keptHole x = true) (holeScores w) ->
  exists w',
    run (clearAllData ;; importData (Some (backupOf date w))) w = (Ok tt, w') /\
    forall c l,
      run (getAll c) (idb w) = (Ok l, idb w) ->
      exists l',
        run (getAll c) (idb w') = (Ok l', idb w') /\
        forall i, In i (ids l') <-> In i (ids l).
Proof.
  intros Hdb Hwf Hc Hr Hh Ec Er Eh Pc Pr Ph Fc Fr Fh.
  destruct (Hwf _ _ Hc) as [_ Kc]. destruct (Hwf _ _ Hr) as [_ Kr].
  destruct (Hwf _ _ Hh) as [_ Kh]. cbn in Kc, Kr, Kh.
  rewrite Ec in Pc, Fc. rewrite Er in Pr, Fr. rewrite Eh in Ph, Fh.
  assert (Hfile : backupOf date w
                  = VObj [("courses", VArr (map snd (cloned cs)));
                          ("rounds", VArr (map snd (cloned rs)));
                          ("holeScores", VArr (map snd (cloned hs)));
                          ("exportDate", VStr date)]).
  { unfold backupOf, exportData. rewrite Ec, Er, Eh. cbn [json_clone].
    now rewrite (cloned_array cs Kc), (cloned_array rs Kr), (cloned_array hs Kh). }
  destruct (clearAllData_run w cs rs hs Hdb Hc Hr Hh Kc Kr Kh)
    as (w1 & Hclear & Hidb1 & Hdb1).
  destruct (importData_run w1 date (cloned cs) (cloned rs) (cloned hs) [] [] [] Hdb1)
    as (w2 & Himport & Hidb2).
  { rewrite Hidb1, !lookup_insert_ne by discriminate. apply lookup_insert_eq. }
  { rewrite Hidb1, lookup_insert_ne by discriminate. apply lookup_insert_eq. }
  { rewrite Hidb1. apply lookup_insert_eq. }
  { now apply keyed_cloned. }
  { now apply keyed_cloned. }
  { now apply keyed_cloned. }
  { exact (passes_cloned passesCourse keptCourse cs passesCourse_clone Kc Pc Fc). }
  { exact (passes_cloned passesRound keptRound rs passesRound_clone Kr Pr Fr). }
  { exact (passes_cloned passesHole keptHole hs passesHole_clone Kh Ph Fh). }
  exists w2. split.
  - rewrite run_bind, Hclear, Hfile. exact Himport.
  - intros c l Hl. apply getAll_inv in Hl as (s & Hs & ->).
    rewrite Hidb2, Hidb1.
    destruct (decide (c = "holeScores")) as [->|Nh].
    { exists (map snd (put_all (cloned hs) [])). split.
      - apply getAll_run. now rewrite lookup_insert_eq.
      - assert (E : Some s = Some hs) by exact (eq_trans (eq_sym Hs) Hh).
        injection E as ->. intros i. now apply reimported_ids. }
    destruct (decide (c = "rounds")) as [->|Nr].
    { exists (map snd (put_all (cloned rs) [])). split.
      - apply getAll_run. rewrite lookup_insert_ne by discriminate.
        now rewrite lookup_insert_eq.
      - assert (E : Some s = Some rs) by exact (eq_trans (eq_sym Hs) Hr).
        injection E as ->. intros i. now apply reimported_ids. }
    destruct (decide (c = "courses")) as [->|Nc].
    { exists (map snd (put_all (cloned cs) [])). split.
      - apply getAll_run. rewrite !lookup_insert_ne by discriminate.
        now rewrite lookup_insert_eq.
      - assert (E : Some s = Some cs) by exact (eq_trans (eq_sym Hs) Hc).
        injection E as ->. intros i. now apply reimported_ids. }
    exists (map snd s). split; [|tauto].
    apply getAll_run. now rewrite !lookup_insert_ne by congruence.
Qed.

End Backup.

(** *** The backup scenarios *)

Lemma export_clear_import_roundtrip_witness :
  let w := loaded sample_db sample_courses sample_rounds sample_holes in
  exists w',
    run (useGolfData.clearAllData ;;
         useGolfData.importData (Some (useGolfData.backupOf "2025-01-01T00:00:00.000Z" w))) w
      = (Ok tt, w') /\
    forall c l,
      run (GolfDB.getAll c) (useGolfData.idb w) = (Ok l, useGolfData.idb w) ->
      exists l',
        run (GolfDB.getAll c) (useGolfData.idb w') = (Ok l', useGolfData.idb w') /\
        forall i, In i (ids l') <-> In i (ids l).
Proof.
  intros w.
  apply (export_clear_import_roundtrip w "2025-01-01T00:00:00.000Z"
           sample_courses sample_rounds sample_holes).
  - reflexivity.
  - apply db_wf_insert; [apply db_wf_insert; [apply db_wf_insert; [apply init_wf|]|]|];
      (split; [simpl; repeat constructor | repeat constructor]).
  - reflexivity.
  - reflexivity.
  - reflexivity.
  - reflexivity.
  - reflexivity.
  - reflexivity.
  - repeat constructor.
  - repeat constructor.
  - repeat constructor.
  - repeat constructor.
  - repeat constructor.
  - repeat constructor.
Defined.

(** C9 as stated fails on a store that holds a course without a name
    ([course-1]; the store checks no field but the key): the import of the
    export is refused, and the cleared collection stays empty. It fails
    as well on a round whose [totalScore] is [NaN]: the round passes the
    check of [importData] as it is stored ([NaN] is a number), the file
    holds [null] for the score, and what is read back is refused. *)
Lemma roundtrip_refused_counterexample :
  (let w := loaded courses_db [(KStr "course-1", VObj course1)] [] [] in
   let r := run (useGolfData.clearAllData ;;
                 useGolfData.importData
                   (Some (useGolfData.backupOf "2025-01-01T00:00:00.000Z" w))) w in
   fst r = Err (Thrown "Invalid course data. Each course must have an id and name.") /\
   fst (run (GolfDB.getAll "courses") (useGolfData.idb w)) = Ok [VObj course1] /\
   fst (run (GolfDB.getAll "courses") (useGolfData.idb (snd r))) = Ok []) /\
  (let round := VObj [("id", VStr "round-9"); ("courseId", VStr "course-1");
                      ("totalScore", VNonFinite NaN)] in
   let w := loaded (<["rounds" := [(KStr "round-9", round)]]> GolfDB.init)
              [] [(KStr "round-9", round)] [] in
   let r := run (useGolfData.clearAllData ;;
                 useGolfData.importData
                   (Some (useGolfData.backupOf "2025-01-01T00:00:00.000Z" w))) w in
   passesRound round = true /\
   fst r = Err (Thrown
     "Invalid round data. Each round must have id, courseId, and totalScore.") /\
   fst (run (GolfDB.getAll "rounds") (useGolfData.idb w)) = Ok [round] /\
   fst (run (GolfDB.getAll "rounds") (useGolfData.idb (snd r))) = Ok []).
Proof. repeat split; vm_compute; reflexivity. Qed.

(** ** Stored conflicts *)

Lemma store_get_delete_eq (k : key) (s : objectStore) :
  store_get k (store_delete k s) = None.
Proof.
  induction s as [|[k' v'] s IH]; simpl; [reflexivity|].
  destruct (key_compare k k') eqn:E; simpl; rewrite ?E; exact IH.
Qed.

(** Where the resolution itself returns normally, [resolveStoredConflict]
    goes on to delete the record it was called on, whatever the strategy. *)
Lemma resolveStoredConflict_clears (d d1 : GolfDB.DB) (cs cs1 : objectStore)
    (kc : key) (record inner : value) (c : string) (res : GolfDB.resolution)
    (now now' : Z) :
  d !! "conflicts" = Some cs ->
  store_get kc cs = Some record ->
  prop record "storeName" = Ok (VStr c) ->
  prop record "conflict" = Ok inner ->
  run (GolfDB.resolveConflict c inner res now now') d = (Ok tt, d1) ->
  d1 !! "conflicts" = Some cs1 ->
  run (GolfDB.resolveStoredConflict (key_value kc) res now now') d
    = (Ok tt, <["conflicts" := store_delete kc cs1]> d1) /\
  run (GolfDB.get "conflicts" (key_value kc)) (<["conflicts" := store_delete kc cs1]> d1)
    = (Ok VUndef, <["conflicts" := store_delete kc cs1]> d1).
Proof.
  intros Hcs Hget Hname Hinner Hres Hcs1. split.
  - unfold GolfDB.resolveStoredConflict.
    rewrite run_bind, (get_Ok _ _ _ cs kc record Hcs (to_key_value kc) Hget).
    destruct record; try discriminate Hname.
    cbn [truthy]. rewrite run_bind. cbn [lift run]. rewrite Hname.
    rewrite run_bind. cbn [lift run GolfDB.storeNameOf].
    rewrite run_bind. cbn [lift run]. rewrite Hinner.
    rewrite run_bind, Hres. now apply delete_run.
  - unfold GolfDB.get, GolfDB.objectStoreOf, lift. simpl.
    rewrite lookup_insert_eq. simpl. rewrite to_key_value. simpl.
    now rewrite store_get_delete_eq.
Qed.

(** With the remote entity present, [use_remote] stores it with
    [synced = true] and changes no other collection. *)
Lemma use_remote_accepts (c type : string) (local : value) (ro : obj) (rules : value)
    (now now' : Z) (d : GolfDB.DB) (s : objectStore) (k : key) :
  d !! c = Some s ->
  keyOf (GolfDB.keyPath c) (VObj ro) = Ok k ->
  run (GolfDB.resolveConflict c (GolfDB.conflictOf type local (VObj ro))
         {| GolfDB.strategy := VStr "use_remote"; GolfDB.mergeRules := rules |}
         now now') d
    = (Ok tt, <[c := store_put k (GolfDB.accepted (VObj ro)) s]> d) /\
  prop (GolfDB.accepted (VObj ro)) "synced" = Ok (VBool true).
Proof.
  intros Hs Hk. split.
  - unfold GolfDB.resolveConflict, GolfDB.conflictOf.
    cbn -[GolfDB.put GolfDB.accepted].
    rewrite run_bind, (put_run c (GolfDB.accepted (VObj ro)) d s k Hs); [reflexivity|].
    now rewrite keyOf_accepted.
  - unfold GolfDB.accepted. simpl. now rewrite obj_get_set_eq.
Qed.

(** C5 on the code. The stored Conflict Record of a [local_only] conflict
    (its [remote] is [null], as [detectConflicts] builds it) is not
    removed by a [use_remote] resolution: the [put] of [{ synced: true }]
    is rejected for want of a key, and the [delete] that follows it in
    [resolveStoredConflict] is never reached. And a [manual] resolution of
    a stored record at the clock reading of its own id ([conflict-1])
    persists nothing: the [add] under the same id is rejected, the error
    is swallowed, and the record is deleted. *)
Lemma stored_conflict_resolution_defects :
  run GolfDB.getPendingConflicts stored_db = (Ok [stored_record], stored_db) /\
  run (GolfDB.resolveStoredConflict (VStr "conflict-1") use_remote 2 2) stored_db
    = (Err DataError, stored_db) /\
  (let r := run (GolfDB.resolveStoredConflict (VStr "conflict-1") manual 1 1) stored_db in
   fst r = Ok tt /\ fst (run GolfDB.getPendingConflicts (snd r)) = Ok []).
Proof. repeat split; vm_compute; reflexivity. Qed.

(** * The store: what each operation leaves *)

Section StoreMore.
Import GolfDB.

Lemma key_compare_ne (a b : key) : a <> b -> key_compare a b <> Eq.
Proof. intros Hne E. now apply Hne, key_compare_eq. Qed.

Lemma store_delete_absent (k : key) (s : objectStore) :
  store_get k s = None -> store_delete k s = s.
Proof.
  induction s as [|[k' v'] s IH]; simpl; [reflexivity|].
  destruct (key_compare k k'); [discriminate| |]; intros H; now rewrite IH.
Qed.

Lemma store_get_delete_ne (k k' : key) (s : objectStore) :
  k' <> k -> store_get k' (store_delete k s) = store_get k' s.
Proof.
  intros Hne. induction s as [|[k0 v0] s IH]; simpl; [reflexivity|].
  destruct (key_compare k k0) eqn:E; simpl.
  - apply key_compare_eq in E. subst k0.
    destruct (key_compare k' k) eqn:E'; [|exact IH|exact IH].
    now apply key_compare_ne in E'.
  - now rewrite IH.
  - now rewrite IH.
Qed.

Lemma store_get_put_ne (k k' : key) (v : value) (s : objectStore) :
  k' <> k -> store_get k' (store_put k v s) = store_get k' s.
Proof.
  intros Hne. pose proof (key_compare_ne k' k Hne) as Hk.
  induction s as [|[k0 v0] s IH]; simpl.
  - now destruct (key_compare k' k).
  - destruct (key_compare k k0) eqn:E; simpl.
    + apply key_compare_eq in E. subst k0. now destruct (key_compare k' k).
    + now destruct (key_compare k' k).
    + now rewrite IH.
Qed.

Lemma get_run (c : string) (d : DB) (s : objectStore) (k : key) :
  d !! c = Some s ->
  run (get c (key_value k)) d
  = (Ok (match store_get k s with Some v => v | None => VUndef end), d).
Proof.
  intros Hs. unfold get, objectStoreOf, lift. simpl.
  rewrite Hs. simpl. now rewrite to_key_value.
Qed.

(** X1. [delete(c, key)] on an existing collection always succeeds: the
    record under the key is gone ([get] returns [undefined]), every other
    record and every other collection reads as before, deleting a key
    that is absent changes nothing, and deleting again changes nothing
    more. *)
Theorem delete_removes_only_its_key (c : string) (keyv : value) (d : DB)
    (s : objectStore) (k : key) :
  d !! c = Some s ->
  to_key keyv = Ok k ->
  exists d',
    run (delete c keyv) d = (Ok tt, d') /\
    run (get c keyv) d' = (Ok VUndef, d') /\
    (forall k', k' <> k ->
       run (get c (key_value k')) d' = (fst (run (get c (key_value k')) d), d')) /\
    (forall c', c' <> c -> d' !! c' = d !! c') /\
    (store_get k s = None -> d' = d) /\
    run (delete c keyv) d' = (Ok tt, d').
Proof.
  intros Hs Hk. exists (<[c := store_delete k s]> d).
  assert (Hdel : forall d0 s0, d0 !! c = Some s0 ->
            run (delete c keyv) d0 = (Ok tt, <[c := store_delete k s0]> d0)).
  { intros d0 s0 H0. unfold delete, objectStoreOf, lift. simpl.
    rewrite H0. simpl. now rewrite Hk. }
  split; [now apply Hdel|]. split; [|split; [|split; [|split]]].
  - unfold get, objectStoreOf, lift. simpl. rewrite lookup_insert_eq. simpl.
    rewrite Hk. simpl. now rewrite store_get_delete_eq.
  - intros k' Hne.
    rewrite (get_run c _ _ k' (lookup_insert_eq _ _ _)), (get_run c d s k' Hs).
    simpl. now rewrite store_get_delete_ne.
  - intros c' Hne. now rewrite lookup_insert_ne.
  - intros Habsent. rewrite store_delete_absent by exact Habsent.
    now apply insert_id.
  - rewrite (Hdel _ _ (lookup_insert_eq _ _ _)), insert_insert_eq.
    rewrite store_delete_absent; [reflexivity | apply store_get_delete_eq].
Qed.

Lemma delete_removes_only_its_key_witness :
  exists d',
    run (delete "courses" (VStr "course-1")) courses_db = (Ok tt, d') /\
    run (get "courses" (VStr "course-1")) d' = (Ok VUndef, d').
Proof.
  destruct (delete_removes_only_its_key "courses" (VStr "course-1") courses_db
              [(KStr "course-1", VObj course1)] (KStr "course-1")
              (lookup_insert_eq _ _ _) eq_refl)
    as (d' & Hdel & Hget & _).
  exists d'. now split.
Defined.

Lemma store_get_above (k : key) (s : objectStore) :
  Forall (fun kv => key_compare k (fst kv) = Lt) s -> store_get k s = None.
Proof.
  induction 1 as [|[k' v'] s Hlt _ IH]; simpl; [reflexivity|].
  simpl in Hlt. now rewrite Hlt.
Qed.

Lemma store_put_length (k : key) (v : value) (s : objectStore) :
  ascending s ->
  length (store_put k v s)
  = match store_get k s with Some _ => length s | None => S (length s) end.
Proof.
  induction s as [|[k' v'] s IH]; simpl; [reflexivity|].
  intros [Hlt Hasc]. destruct (key_compare k k') eqn:E; simpl.
  - reflexivity.
  - rewrite store_get_above; [reflexivity|].
    eapply Forall_impl; [exact Hlt|]. intros kv H.
    exact (key_compare_trans _ _ _ E H).
  - rewrite (IH Hasc). now destruct (store_get k s).
Qed.

(** X2. A [put] that succeeds touches the record under its key only:
    every other record of the collection and every other collection
    reads as before, and [getAll] is one record longer exactly when the
    key was not there yet. *)
Theorem put_touches_only_its_key (c : string) (e : value) (d d' : DB) (k : key) :
  db_wf d ->
  run (put c e) d = (Ok k, d') ->
  (forall k', k' <> k ->
     run (get c (key_value k')) d' = (fst (run (get c (key_value k')) d), d')) /\
  (forall c', c' <> c -> d' !! c' = d !! c') /\
  exists l l',
    run (getAll c) d = (Ok l, d) /\
    run (getAll c) d' = (Ok l', d') /\
    length l' = match fst (run (get c (key_value k)) d) with
                | Ok VUndef => S (length l)
                | _ => length l
                end.
Proof.
  intros Hwf Hput. apply put_Ok in Hput as (s & Hs & Hk & ->).
  destruct (Hwf c s Hs) as [Hasc Hkeyed]. split; [|split].
  - intros k' Hne.
    rewrite (get_run c _ _ k' (lookup_insert_eq _ _ _)), (get_run c d s k' Hs).
    simpl. now rewrite store_get_put_ne.
  - intros c' Hne. now rewrite lookup_insert_ne.
  - exists (map snd s), (map snd (store_put k e s)). split; [|split].
    + unfold getAll, objectStoreOf. simpl. now rewrite Hs.
    + unfold getAll, objectStoreOf. simpl. now rewrite lookup_insert_eq.
    + rewrite !length_map, (store_put_length k e s Hasc), (get_run c d s k Hs).
      simpl. destruct (store_get k s) as [v|] eqn:Hg; [|reflexivity].
      assert (Hin : In (k, v) s).
      { clear -Hg. induction s as [|[k0 v0] s IH]; simpl in *; [discriminate|].
        destruct (key_compare k k0) eqn:E; [|right; auto|right; auto].
        apply key_compare_eq in E. subst k0. injection Hg as ->. now left. }
      unfold keyed in Hkeyed. rewrite Forall_forall in Hkeyed.
      specialize (Hkeyed _ (proj2 (list_elem_of_In _ _) Hin)). simpl in Hkeyed.
      destruct v; try discriminate; reflexivity.
Qed.

Lemma put_touches_only_its_key_witness :
  exists d' l l',
    run (put "courses" sample_course) courses_db = (Ok (KStr "sample-course-1"), d') /\
    run (getAll "courses") courses_db = (Ok l, courses_db) /\
    run (getAll "courses") d' = (Ok l', d') /\
    length l' = S (length l).
Proof.
  assert (Hwf : db_wf courses_db).
  { apply db_wf_insert; [apply init_wf|].
    split; [simpl; repeat constructor | repeat constructor]. }
  assert (Hput : run (put "courses" sample_course) courses_db
                 = (Ok (KStr "sample-course-1"),
                    snd (run (put "courses" sample_course) courses_db)))
    by reflexivity.
  destruct (put_touches_only_its_key "courses" sample_course courses_db _
              (KStr "sample-course-1") Hwf Hput)
    as (_ & _ & l & l' & Hl & Hl' & Hlen).
  exists (snd (run (put "courses" sample_course) courses_db)), l, l'.
  repeat split; assumption.
Defined.

Lemma store_get_In (k : key) (v : value) (s : objectStore) :
  store_get k s = Some v -> In (k, v) s.
Proof.
  induction s as [|[k0 v0] s IH]; simpl; [discriminate|].
  destruct (key_compare k k0) eqn:E; [|right; auto|right; auto].
  apply key_compare_eq in E. subst k0. intros H. injection H as ->. now left.
Qed.

Lemma ascending_sorted (s : objectStore) :
  ascending s -> StronglySorted (fun a b => key_compare a b = Lt) (map fst s).
Proof.
  induction s as [|[k v] s IH]; simpl; [constructor|].
  intros [Hlt Hasc]. constructor; [now apply IH|].
  apply List.Forall_map. rewrite List.Forall_forall. rewrite Forall_forall in Hlt.
  intros kv Hin. apply Hlt. now apply list_elem_of_In.
Qed.

Lemma sorted_NoDup (ks : list key) :
  StronglySorted (fun a b => key_compare a b = Lt) ks -> List.NoDup ks.
Proof.
  induction 1 as [|k ks _ IH Hlt]; constructor; [|exact IH].
  intros Hin. rewrite List.Forall_forall in Hlt. specialize (Hlt k Hin).
  rewrite key_compare_refl in Hlt. discriminate.
Qed.

Lemma key_value_inj (a b : key) : key_value a = key_value b -> a = b.
Proof. destruct a, b; simpl; congruence. Qed.

Lemma keyOf_path (path : string) (v : value) (k : key) :
  keyOf path v = Ok k -> obj_get (spread v) path = key_value k /\ v <> VUndef.
Proof.
  destruct v; simpl; try discriminate. intros H. split; [|discriminate].
  destruct (obj_get o path) as [| | | | | | |[]]; simpl in H; try discriminate;
    injection H as <-; reflexivity.
Qed.

(** X3. In a well-formed database [getAll] and [get] agree: [getAll]
    lists exactly the records [get] finds under some key, in strictly
    ascending order of their key, so no two of them share an id. *)
Theorem getAll_agrees_with_get (c : string) (d : DB) (l : list value) :
  db_wf d ->
  run (getAll c) d = (Ok l, d) ->
  (forall v, In v l <->
     v <> VUndef /\ exists k, run (get c (key_value k)) d = (Ok v, d)) /\
  (exists ks,
     map (fun v => obj_get (spread v) (keyPath c)) l = map key_value ks /\
     StronglySorted (fun a b => key_compare a b = Lt) ks) /\
  List.NoDup (map (fun v => obj_get (spread v) (keyPath c)) l).
Proof.
  intros Hwf Hl. apply getAll_inv in Hl as (s & Hs & ->).
  destruct (Hwf c s Hs) as [Hasc Hkeyed].
  assert (Hids : map (fun v => obj_get (spread v) (keyPath c)) (map snd s)
                 = map key_value (map fst s)).
  { rewrite !map_map. clear -Hkeyed.
    induction Hkeyed as [|[k v] s Hk _ IH]; simpl; [reflexivity|].
    f_equal; [|exact IH]. now apply keyOf_path in Hk as [Hk _]. }
  split; [|split].
  - intros v. split.
    + intros Hin. apply in_map_iff in Hin as ([k v'] & <- & Hin). cbn [snd].
      unfold keyed in Hkeyed. rewrite Forall_forall in Hkeyed.
      pose proof (Hkeyed _ (proj2 (list_elem_of_In _ _) Hin)) as Hk.
      apply keyOf_path in Hk as [_ Hne]. split; [exact Hne|].
      exists k. rewrite (get_run c d s k Hs).
      now rewrite (store_get_ascending s k v' Hasc Hin).
    + intros (Hne & k & Hget). rewrite (get_run c d s k Hs) in Hget.
      injection Hget as Hget. destruct (store_get k s) as [v'|] eqn:Hg;
        [|congruence]. subst v'.
      apply (in_map snd s (k, v)). now apply store_get_In.
  - exists (map fst s). split; [exact Hids | now apply ascending_sorted].
  - rewrite Hids. apply Finite.Injective_map_NoDup.
    + intros a b. apply key_value_inj.
    + now apply sorted_NoDup, ascending_sorted.
Qed.

Lemma getAll_agrees_with_get_witness :
  exists l,
    run (getAll "syncQueue") same_ms_db = (Ok l, same_ms_db) /\
    List.NoDup (map (fun v => obj_get (spread v) (keyPath "syncQueue")) l).
Proof.
  eexists. split; [reflexivity|].
  refine (proj2 (proj2 (getAll_agrees_with_get "syncQueue" same_ms_db _ _ eq_refl))).
  unfold same_ms_db. apply preserves_addToSyncQueue, preserves_addToSyncQueue, init_wf.
Defined.

(** X4. Well-formedness is an invariant of the database: the fresh
    database is well-formed, and every method of [GolfDB] that writes
    ([add], [put], [delete], the conflict and the queue methods) leaves a
    well-formed database well-formed, whether it returns or rejects. *)
Theorem golfdb_keeps_stores_well_formed :
  db_wf init /\
  (forall c e, preserves (add c e)) /\
  (forall c e, preserves (put c e)) /\
  (forall c keyv, preserves (delete c keyv)) /\
  (forall c conflict res now now', preserves (resolveConflict c conflict res now now')) /\
  (forall id res now now', preserves (resolveStoredConflict id res now now')) /\
  (forall c op data now rnd now', preserves (addToSyncQueue c op data now rnd now')) /\
  (forall id, preserves (markSyncItemComplete id)) /\
  (forall id, preserves (retrySyncItem id)) /\
  (forall id, preserves (removeFromSyncQueue id)).
Proof.
  exact (conj init_wf
        (conj preserves_add
        (conj preserves_put
        (conj preserves_delete
        (conj preserves_resolveConflict
        (conj preserves_resolveStoredConflict
        (conj preserves_addToSyncQueue
        (conj preserves_markSyncItemComplete
        (conj preserves_retrySyncItem preserves_removeFromSyncQueue))))))))).
Qed.

Lemma golfdb_keeps_stores_well_formed_witness :
  db_wf (snd (run (GolfDB.put "courses" (VObj course1)) GolfDB.init)).
Proof.
  exact (proj1 (proj2 (proj2 golfdb_keeps_stores_well_formed))
           "courses" (VObj course1) GolfDB.init
           (proj1 golfdb_keeps_stores_well_formed)).
Defined.

End StoreMore.

(** ** The schema upgrade and the indexes *)

Section Schema.
Import GolfDB.

Lemma lookup_createIfMissing (n : string) (d : DB) (c : string) :
  createIfMissing n d !! c
  = match d !! c with
    | Some s => Some s
    | None => if String.eqb c n then Some ([] : objectStore) else None
    end.
Proof.
  unfold createIfMissing. destruct (String.eqb c n) eqn:E.
  - apply String.eqb_eq in E. subst c.
    destruct (d !! n) as [s|] eqn:Hn; [exact Hn|].
    apply lookup_insert_eq.
  - apply String.eqb_neq in E.
    assert (Hid : forall o : option objectStore,
              o = match o with Some s => Some s | None => None end)
      by now intros [|].
    destruct (d !! n) as [s|] eqn:Hn.
    + apply Hid.
    + rewrite lookup_insert_ne by congruence. apply Hid.
Qed.

Lemma lookup_onupgradeneeded (d : DB) (c : string) :
  onupgradeneeded d !! c
  = match d !! c with
    | Some s => Some s
    | None => if isSchemaStore c then Some ([] : objectStore) else None
    end.
Proof.
  unfold onupgradeneeded, isSchemaStore. rewrite !lookup_createIfMissing.
  destruct (d !! c); [reflexivity|]. simpl.
  destruct (String.eqb c "courses"); [reflexivity|].
  destruct (String.eqb c "rounds"); [reflexivity|].
  destruct (String.eqb c "holeScores"); [reflexivity|].
  destruct (String.eqb c "settings"); [reflexivity|].
  destruct (String.eqb c "conflicts"); [reflexivity|].
  destruct (String.eqb c "syncQueue"); reflexivity.
Qed.

(** X5. The schema upgrade creates, empty, exactly the stores of the
    schema that are missing: a store that exists keeps its records, a
    store outside the schema is neither created nor dropped, running the
    upgrade again changes nothing, a well-formed database stays
    well-formed, and the upgrade of the empty database is the fresh
    database [init]. *)
Theorem upgrade_creates_missing_stores (d : DB) :
  (forall c s, d !! c = Some s -> onupgradeneeded d !! c = Some s) /\
  (forall c, d !! c = None ->
     onupgradeneeded d !! c = if isSchemaStore c then Some ([] : objectStore) else None) /\
  onupgradeneeded (onupgradeneeded d) = onupgradeneeded d /\
  (db_wf d -> db_wf (onupgradeneeded d)) /\
  onupgradeneeded ∅ = init.
Proof.
  split; [|split; [|split; [|split]]].
  - intros c s H. now rewrite lookup_onupgradeneeded, H.
  - intros c H. now rewrite lookup_onupgradeneeded, H.
  - apply map_eq. intros c. rewrite !lookup_onupgradeneeded.
    destruct (d !! c); [reflexivity|]. now destruct (isSchemaStore c).
  - intros Hwf c s. rewrite lookup_onupgradeneeded.
    destruct (d !! c) as [s'|] eqn:E.
    + intros H. injection H as <-. now apply Hwf.
    + destruct (isSchemaStore c); [|discriminate].
      intros H. injection H as <-. split; [exact I|constructor].
  - apply map_eq. intros c. rewrite lookup_onupgradeneeded, lookup_empty.
    unfold init, isSchemaStore. simpl.
    destruct (String.eqb_spec c "courses") as [->|N1]; [reflexivity|].
    destruct (String.eqb_spec c "rounds") as [->|N2]; [reflexivity|].
    destruct (String.eqb_spec c "holeScores") as [->|N3]; [reflexivity|].
    destruct (String.eqb_spec c "settings") as [->|N4]; [reflexivity|].
    destruct (String.eqb_spec c "conflicts") as [->|N5]; [reflexivity|].
    destruct (String.eqb_spec c "syncQueue") as [->|N6]; [reflexivity|].
    symmetry. now rewrite !lookup_insert_ne, lookup_empty by congruence.
Qed.

Lemma upgrade_creates_missing_stores_witness :
  onupgradeneeded courses_db !! "courses" = Some [(KStr "course-1", VObj course1)] /\
  db_wf (onupgradeneeded courses_db).
Proof.
  destruct (upgrade_creates_missing_stores courses_db) as (Hkeep & _ & _ & Hwf & _).
  split.
  - apply Hkeep. apply lookup_insert_eq.
  - apply Hwf. apply db_wf_insert; [apply init_wf|].
    split; [simpl; repeat constructor | repeat constructor].
Defined.

End Schema.

Section Indexes.
Import GolfDB.



Lemma to_key_inv (v : value) (k : key) : to_key v = Ok k -> v = key_value k.
Proof.
  destruct v as [| | | | | | |[]]; simpl; try discriminate;
    intros H; now injection H as <-.
Qed.






End Indexes.

(** * The synchronisation queue *)

Section QueueMore.
Import GolfDB.

Lemma add_taken (c : string) (e : value) (d : DB) (s : objectStore) (k : key) (v : value) :
  d !! c = Some s -> keyOf (keyPath c) e = Ok k -> store_get k s = Some v ->
  run (add c e) d = (Err ConstraintError, d).
Proof.
  intros Hs Hk Hg. unfold add, objectStoreOf, lift, throw. simpl.
  rewrite Hs. simpl. rewrite Hk. simpl. now rewrite Hg.
Qed.

Lemma add_missing (c : string) (e : value) (d : DB) :
  d !! c = None -> run (add c e) d = (Err NotFoundError, d).
Proof.
  intros Hs. unfold add, objectStoreOf, lift, throw. simpl. now rewrite Hs.
Qed.

(** X7. [addToSyncQueue] never rejects. When the generated id is free
    the queue gains exactly the new item, pending and with no retry, and
    keeps every other item; when the id is taken, or there is no
    [syncQueue] store, the mutation is dropped without a trace: the
    database is left as it was and the call still returns normally. *)
Theorem addToSyncQueue_never_rejects (storeName operation data : value)
    (now : Z) (rnd : string) (now' : Z) (d : DB) :
  let item := syncItemOf storeName operation data now rnd now' in
  let k := syncKeyOf now rnd in
  exists d',
    run (addToSyncQueue storeName operation data now rnd now') d = (Ok tt, d') /\
    (forall q : objectStore, d !! "syncQueue" = Some q -> store_get k q = None ->
       d' = <["syncQueue" := store_put k item q]> d /\
       run (get "syncQueue" (key_value k)) d' = (Ok item, d') /\
       prop item "status" = Ok (VStr "pending") /\
       prop item "retries" = Ok (VNum 0) /\
       (forall k', k' <> k ->
          run (get "syncQueue" (key_value k')) d'
          = (fst (run (get "syncQueue" (key_value k')) d), d'))) /\
    (forall (q : objectStore) v, d !! "syncQueue" = Some q ->
       store_get k q = Some v -> d' = d) /\
    (d !! "syncQueue" = None -> d' = d).
Proof.
  intros item k. unfold addToSyncQueue. fold (syncItemOf storeName operation data now rnd now').
  fold item.
  assert (Hkey : keyOf (keyPath "syncQueue") item = Ok k) by reflexivity.
  destruct (d !! "syncQueue") as [q|] eqn:Hq.
  - destruct (store_get k q) as [v|] eqn:Hg.
    + exists d. split; [|split; [|split]].
      * rewrite run_try_catch, run_bind.
        now rewrite (add_taken "syncQueue" item d q k v Hq Hkey Hg).
      * intros q0 E0 E1. injection E0 as <-. congruence.
      * reflexivity.
      * reflexivity.
    + exists (<["syncQueue" := store_put k item q]> d). split; [|split; [|split]].
      * rewrite run_try_catch, run_bind.
        assert (Hadd : run (add "syncQueue" item) d
                       = (Ok k, <["syncQueue" := store_put k item q]> d)).
        { apply add_Ok. now exists q. }
        now rewrite Hadd.
      * intros q0 E0 _. injection E0 as <-. split; [reflexivity|].
        split; [|split; [reflexivity|split; [reflexivity|]]].
        -- rewrite (get_run "syncQueue" _ _ k (lookup_insert_eq _ _ _)).
           now rewrite store_get_put_eq.
        -- intros k' Hne.
           rewrite (get_run "syncQueue" _ _ k' (lookup_insert_eq _ _ _)),
             (get_run "syncQueue" d q k' Hq).
           simpl. now rewrite store_get_put_ne.
      * intros q0 v E0 E1. injection E0 as <-. congruence.
      * discriminate.
  - exists d. split; [|split; [|split]].
    + rewrite run_try_catch, run_bind.
      now rewrite (add_missing "syncQueue" item d Hq).
    + discriminate.
    + discriminate.
    + reflexivity.
Qed.

Lemma addToSyncQueue_never_rejects_witness :
  exists d',
    run (addToSyncQueue (VStr "rounds") (VStr "put") round124 1000 "0.5" 1001) queued_db
      = (Ok tt, d') /\
    d' = queued_db.
Proof.
  destruct (addToSyncQueue_never_rejects (VStr "rounds") (VStr "put") round124
              1000 "0.5" 1001 queued_db)
    as (d' & Hrun & _ & Htaken & _).
  exists d'. split; [exact Hrun|].
  apply (Htaken [(KStr "sync-1000-0.5", queued round123 1000 "0.5" 1000 0 "pending")]
           (queued round123 1000 "0.5" 1000 0 "pending")); reflexivity.
Defined.

Lemma obj_set_set (o : obj) (f : string) (v w : value) :
  obj_set (obj_set o f v) f w = obj_set o f w.
Proof.
  induction o as [|[g x] o IH]; simpl.
  - now rewrite String.eqb_refl.
  - destruct (String.eqb g f) eqn:E; simpl; rewrite E; [reflexivity|now rewrite IH].
Qed.

Lemma get_missing (c : string) (keyv : value) (d : DB) :
  d !! c = None -> run (get c keyv) d = (Err NotFoundError, d).
Proof. intros H. unfold get, objectStoreOf, lift. simpl. now rewrite H. Qed.

(** X8. [markSyncItemComplete(id)] changes the status of the item under
    the id to [completed] and nothing else: every other field of the
    item and every other item stay as they were, and marking again
    changes nothing more. On an id that is not in the queue it does
    nothing; without a [syncQueue] store it rejects with
    [NotFoundError]. *)
Theorem markSyncItemComplete_sets_status_only (d : DB) (k : key) :
  (d !! "syncQueue" = None ->
   run (markSyncItemComplete (key_value k)) d = (Err NotFoundError, d)) /\
  (forall q : objectStore, d !! "syncQueue" = Some q -> store_get k q = None ->
   run (markSyncItemComplete (key_value k)) d = (Ok tt, d)) /\
  (forall (q : objectStore) o,
     d !! "syncQueue" = Some q -> store_get k q = Some (VObj o) ->
     keyOf "id" (VObj o) = Ok k ->
     exists d' item,
       run (markSyncItemComplete (key_value k)) d = (Ok tt, d') /\
       run (get "syncQueue" (key_value k)) d' = (Ok item, d') /\
       prop item "status" = Ok (VStr "completed") /\
       (forall f, f <> "status" -> prop item f = prop (VObj o) f) /\
       (forall k', k' <> k ->
          run (get "syncQueue" (key_value k')) d'
          = (fst (run (get "syncQueue" (key_value k')) d), d')) /\
       run (markSyncItemComplete (key_value k)) d' = (Ok tt, d')).
Proof.
  split; [|split].
  - intros Hq. unfold markSyncItemComplete.
    now rewrite run_bind, (get_missing _ _ _ Hq).
  - intros q Hq Hg. unfold markSyncItemComplete.
    rewrite run_bind, (get_run "syncQueue" d q k Hq), Hg. reflexivity.
  - intros q o Hq Hg Hk.
    exists (<["syncQueue" := store_put k (completed o) q]> d), (completed o).
    split; [now apply markSyncItemComplete_run|].
    split; [|split; [|split; [|split]]].
    + rewrite (get_run "syncQueue" _ _ k (lookup_insert_eq _ _ _)).
      now rewrite store_get_put_eq.
    + unfold completed. simpl. now rewrite obj_get_set_eq.
    + intros f Hf. unfold completed. simpl. now rewrite obj_get_set_ne by congruence.
    + intros k' Hne.
      rewrite (get_run "syncQueue" _ _ k' (lookup_insert_eq _ _ _)),
        (get_run "syncQueue" d q k' Hq).
      simpl. now rewrite store_get_put_ne.
    + rewrite (markSyncItemComplete_run _ (store_put k (completed o) q) k
                 (obj_set o "status" (VStr "completed"))
                 (lookup_insert_eq _ _ _) (store_get_put_eq _ _ _)).
      * unfold completed. now rewrite obj_set_set, insert_insert_eq, store_put_put.
      * simpl. rewrite obj_get_set_ne by discriminate. exact Hk.
Qed.

Lemma markSyncItemComplete_sets_status_only_witness :
  exists d' item,
    run (markSyncItemComplete (VStr "sync-1000-0.5")) queued_db = (Ok tt, d') /\
    run (get "syncQueue" (VStr "sync-1000-0.5")) d' = (Ok item, d') /\
    prop item "status" = Ok (VStr "completed").
Proof.
  destruct (proj2 (proj2 (markSyncItemComplete_sets_status_only queued_db
                            (KStr "sync-1000-0.5")))
              [(KStr "sync-1000-0.5", queued round123 1000 "0.5" 1000 0 "pending")]
              _ eq_refl eq_refl eq_refl)
    as (d' & item & Hrun & Hget & Hstatus & _).
  exists d', item. repeat split; assumption.
Defined.

Lemma js_succ_safe (n : Z) : - 2 ^ 53 <= n < 2 ^ 53 -> js_succ n = n + 1.
Proof.
  intros [H1 H2]. unfold js_succ.
  apply Z.leb_le in H1. apply Z.ltb_lt in H2. now rewrite H1, H2.
Qed.

Lemma js_succ_counts (n : nat) :
  forall r, - 2 ^ 53 <= r -> r + Z.of_nat n <= 2 ^ 53 ->
            Nat.iter n js_succ r = r + Z.of_nat n.
Proof.
  assert (E : 2 ^ 53 = 9007199254740992) by reflexivity. rewrite E.
  induction n as [|n IH]; intros r H1 H2.
  - simpl. lia.
  - rewrite Nat.iter_succ, IH by lia. rewrite js_succ_safe by (rewrite E; lia). lia.
Qed.

Lemma js_succ_stuck (n : nat) : Nat.iter n js_succ (2 ^ 53) = 2 ^ 53.
Proof.
  induction n as [|n IH]; [reflexivity|].
  rewrite Nat.iter_succ, IH. reflexivity.
Qed.

(** X9. The code puts no limit on retries: [n] calls of
    [retrySyncItem(id)] add one to the counter [n] times, with every
    other field but the status as it was, and after any retry the status
    is [pending], whatever it was before (a [completed] item is pending
    again). From a counter [r], not below -2^53, the count is [r + n] as
    long as that is at most 2^53; only the arithmetic stops it: at 2^53 a
    retry leaves the counter where it is. *)
Theorem retrySyncItem_counts_every_retry (n : nat) :
  forall (d : DB) (q : objectStore) (k : key) (o : obj) (r : Z),
    d !! "syncQueue" = Some q ->
    store_get k q = Some (VObj o) ->
    keyOf "id" (VObj o) = Ok k ->
    obj_get o "retries" = VNum r ->
    exists d' item,
      run (times n (retrySyncItem (key_value k))) d = (Ok tt, d') /\
      run (get "syncQueue" (key_value k)) d' = (Ok item, d') /\
      prop item "retries" = Ok (VNum (Nat.iter n js_succ r)) /\
      (- 2 ^ 53 <= r -> r + Z.of_nat n <= 2 ^ 53 ->
         prop item "retries" = Ok (VNum (r + Z.of_nat n))) /\
      (r = 2 ^ 53 -> prop item "retries" = Ok (VNum (2 ^ 53))) /\
      (n <> O -> prop item "status" = Ok (VStr "pending")) /\
      (forall f, f <> "retries" -> f <> "status" -> prop item f = prop (VObj o) f).
Proof.
  assert (Hmain : forall (d : DB) (q : objectStore) (k : key) (o : obj) (r : Z),
    d !! "syncQueue" = Some q ->
    store_get k q = Some (VObj o) ->
    keyOf "id" (VObj o) = Ok k ->
    obj_get o "retries" = VNum r ->
    exists d' item,
      run (times n (retrySyncItem (key_value k))) d = (Ok tt, d') /\
      run (get "syncQueue" (key_value k)) d' = (Ok item, d') /\
      prop item "retries" = Ok (VNum (Nat.iter n js_succ r)) /\
      (n <> O -> prop item "status" = Ok (VStr "pending")) /\
      (forall f, f <> "retries" -> f <> "status" -> prop item f = prop (VObj o) f)).
  { induction n as [|n IH]; intros d q k o r Hq Hg Hk Hr.
    - exists d, (VObj o). split; [reflexivity|]. split; [|split; [|split]].
      + now rewrite (get_run "syncQueue" d q k Hq), Hg.
      + simpl. now rewrite Hr.
      + congruence.
      + reflexivity.
    - assert (Hk' : keyOf "id" (retried o r) = Ok k).
      { unfold retried. simpl. rewrite !obj_get_set_ne by discriminate. exact Hk. }
      assert (Hr' : obj_get (obj_set (obj_set o "retries" (VNum (js_succ r)))
                               "status" (VStr "pending")) "retries" = VNum (js_succ r)).
      { rewrite obj_get_set_ne by discriminate. apply obj_get_set_eq. }
      destruct (IH (<["syncQueue" := store_put k (retried o r) q]> d)
                   (store_put k (retried o r) q) k _ (js_succ r)
                   (lookup_insert_eq _ _ _) (store_get_put_eq _ _ _) Hk' Hr')
        as (d' & item & Hrun & Hget & Hretries & Hstatus & Hother).
      exists d', item. split; [|split; [|split; [|split]]].
      + cbn [times]. rewrite run_bind, (retrySyncItem_run d q k o r Hq Hg Hk Hr).
        exact Hrun.
      + exact Hget.
      + rewrite Hretries. now rewrite Nat.iter_succ_r.
      + intros _. destruct n as [|n'].
        * cbn [times] in Hrun. injection Hrun as <-.
          rewrite (get_run "syncQueue" _ _ k (lookup_insert_eq _ _ _)),
            store_get_put_eq in Hget.
          injection Hget as <-. unfold retried. simpl. now rewrite obj_get_set_eq.
        * now apply Hstatus.
      + intros f H1 H2. rewrite (Hother f H1 H2). simpl.
        now rewrite !obj_get_set_ne by congruence. }
  intros d q k o r Hq Hg Hk Hr.
  destruct (Hmain d q k o r Hq Hg Hk Hr) as (d' & item & Hrun & Hget & Hretries & Hrest).
  exists d', item. split; [exact Hrun|]. split; [exact Hget|]. split; [exact Hretries|].
  split; [|split; [|exact Hrest]].
  - intros H1 H2. now rewrite Hretries, js_succ_counts.
  - intros ->. now rewrite Hretries, js_succ_stuck.
Qed.

Lemma retrySyncItem_counts_every_retry_witness :
  exists d' item,
    run (times 5 (retrySyncItem (VStr "sync-1000-0.5"))) completed_db = (Ok tt, d') /\
    run (get "syncQueue" (VStr "sync-1000-0.5")) d' = (Ok item, d') /\
    prop item "retries" = Ok (VNum 5) /\
    prop item "status" = Ok (VStr "pending").
Proof.
  destruct (retrySyncItem_counts_every_retry 5 completed_db
              [(KStr "sync-1000-0.5", queued round123 1000 "0.5" 1000 0 "completed")]
              (KStr "sync-1000-0.5") _ 0 eq_refl eq_refl eq_refl eq_refl)
    as (d' & item & Hrun & Hget & _ & Hretries & _ & Hstatus & _).
  exists d', item. split; [exact Hrun|]. split; [exact Hget|]. split.
  - apply Hretries; [discriminate|discriminate].
  - now apply Hstatus.
Defined.

End QueueMore.

(** * Conflicts: strategies and detection *)

Section ConflictsMore.
Import GolfDB.

Lemma store_put_In (k : key) (v : value) (s : objectStore) :
  In (k, v) (store_put k v s).
Proof.
  induction s as [|[k0 v0] s IH]; simpl; [now left|].
  destruct (key_compare k k0); simpl; auto.
Qed.

(** X10. The [manual] strategy writes nothing to the entity's collection,
    which need not even exist: it puts the conflict aside. The call never
    rejects, every collection but [conflicts] is left as it was, and when
    the id [conflict-<now>] is free the record that holds the pair is
    stored under it and is among the pending conflicts. *)
Theorem manual_resolution_stores_the_pair (c : string) (co : obj) (rules : value)
    (now now' : Z) (d : DB) :
  let record := conflictRecordOf c (VObj co) now now' in
  let k := conflictKeyOf now in
  exists d',
    run (resolveConflict c (VObj co)
           {| strategy := VStr "manual"; mergeRules := rules |} now now') d
      = (Ok tt, d') /\
    (forall c', c' <> "conflicts" -> d' !! c' = d !! c') /\
    (forall cs : objectStore, d !! "conflicts" = Some cs -> store_get k cs = None ->
       d' = <["conflicts" := store_put k record cs]> d /\
       run (get "conflicts" (key_value k)) d' = (Ok record, d') /\
       (exists l, run getPendingConflicts d' = (Ok l, d') /\ In record l) /\
       prop record "conflict" = Ok (VObj co) /\
       prop record "storeName" = Ok (VStr c)).
Proof.
  intros record k.
  change (run (resolveConflict c (VObj co)
                 {| strategy := VStr "manual"; mergeRules := rules |} now now') d)
    with (run (try_catch (add "conflicts" record ;; mret tt) (fun _ => mret tt)) d).
  assert (Hkey : keyOf (keyPath "conflicts") record = Ok k) by reflexivity.
  destruct (d !! "conflicts") as [cs|] eqn:Hcs.
  - destruct (store_get k cs) as [v|] eqn:Hg.
    + exists d. split; [|split].
      * rewrite run_try_catch, run_bind.
        now rewrite (add_taken "conflicts" record d cs k v Hcs Hkey Hg).
      * reflexivity.
      * intros cs0 E0 E1. injection E0 as <-. congruence.
    + exists (<["conflicts" := store_put k record cs]> d). split; [|split].
      * rewrite run_try_catch, run_bind.
        assert (Hadd : run (add "conflicts" record) d
                       = (Ok k, <["conflicts" := store_put k record cs]> d)).
        { apply add_Ok. now exists cs. }
        now rewrite Hadd.
      * intros c' Hne. now rewrite lookup_insert_ne by congruence.
      * intros cs0 E0 _. injection E0 as <-. split; [reflexivity|].
        split; [|split; [|split; reflexivity]].
        -- rewrite (get_run "conflicts" _ _ k (lookup_insert_eq _ _ _)).
           now rewrite store_get_put_eq.
        -- exists (map snd (store_put k record cs)). split.
           ++ unfold getPendingConflicts.
              rewrite run_try_catch, (getAll_run "conflicts" _ _ (lookup_insert_eq _ _ _)).
              reflexivity.
           ++ apply (in_map snd _ (k, record)), store_put_In.
  - exists d. split; [|split].
    + rewrite run_try_catch, run_bind.
      now rewrite (add_missing "conflicts" record d Hcs).
    + reflexivity.
    + discriminate.
Qed.

Lemma manual_resolution_stores_the_pair_witness :
  exists d',
    run (resolveConflict "courses" local_only_conflict manual 1 1) courses_db = (Ok tt, d') /\
    run (get "conflicts" (VStr "conflict-1")) d' = (Ok stored_record, d') /\
    d' !! "courses" = courses_db !! "courses".
Proof.
  destruct (manual_resolution_stores_the_pair "courses"
              [("type", VStr "local_only"); ("local", VObj course1); ("remote", VNull)]
              VUndef 1 1 courses_db)
    as (d' & Hrun & Hother & Hfree).
  exists d'. split; [exact Hrun|]. split.
  - exact (proj1 (proj2 (Hfree [] eq_refl eq_refl))).
  - apply Hother. discriminate.
Defined.

Lemma unknown_strategy (s : value) :
  knownStrategy s = false ->
  strict_eq s (VStr "use_local") = false /\ strict_eq s (VStr "use_remote") = false /\
  strict_eq s (VStr "merge") = false /\ strict_eq s (VStr "manual") = false.
Proof.
  unfold knownStrategy. intros H.
  apply orb_false_elim in H as [H H4]. apply orb_false_elim in H as [H H3].
  apply orb_false_elim in H as [H1 H2]. auto.
Qed.

Lemma resolveConflict_unknown (c : string) (co : obj) (res : resolution)
    (now now' : Z) (d : DB) :
  knownStrategy (strategy res) = false ->
  run (resolveConflict c (VObj co) res now now') d = (Ok tt, d).
Proof.
  intros H. destruct (unknown_strategy _ H) as (H1 & H2 & H3 & H4).
  unfold resolveConflict. rewrite !run_bind. cbn [lift run prop].
  now rewrite H1, H2, H3, H4.
Qed.

(** X11. What [resolveStoredConflict] does when there is nothing it can
    resolve. Without a [conflicts] store it rejects with [NotFoundError];
    on an id that is not stored it does nothing; and with a strategy that
    is none of [use_local], [use_remote], [merge] and [manual] it writes
    nothing to any collection and still deletes the stored record: the
    conflict is dropped unresolved. *)
Theorem resolveStoredConflict_without_resolution (kc : key) (res : resolution)
    (now now' : Z) (d : DB) :
  (d !! "conflicts" = None ->
   run (resolveStoredConflict (key_value kc) res now now') d = (Err NotFoundError, d)) /\
  (forall cs : objectStore, d !! "conflicts" = Some cs -> store_get kc cs = None ->
   run (resolveStoredConflict (key_value kc) res now now') d = (Ok tt, d)) /\
  (forall (cs : objectStore) record c co,
     d !! "conflicts" = Some cs -> store_get kc cs = Some record ->
     prop record "storeName" = Ok (VStr c) ->
     prop record "conflict" = Ok (VObj co) ->
     knownStrategy (strategy res) = false ->
     run (resolveStoredConflict (key_value kc) res now now') d
       = (Ok tt, <["conflicts" := store_delete kc cs]> d)).
Proof.
  split; [|split].
  - intros Hcs. unfold resolveStoredConflict.
    now rewrite run_bind, (get_missing _ _ _ Hcs).
  - intros cs Hcs Hg. unfold resolveStoredConflict.
    rewrite run_bind, (get_run "conflicts" d cs kc Hcs), Hg. reflexivity.
  - intros cs record c co Hcs Hg Hname Hinner Hunknown.
    unfold resolveStoredConflict.
    rewrite run_bind, (get_run "conflicts" d cs kc Hcs), Hg.
    assert (Ht : truthy record = true) by (destruct record; try discriminate; reflexivity).
    rewrite Ht, run_bind. cbn [lift run]. rewrite Hname.
    rewrite run_bind. cbn [lift run storeNameOf]. rewrite run_bind. cbn [lift run].
    rewrite Hinner, run_bind, (resolveConflict_unknown c co res now now' d Hunknown).
    apply (delete_run "conflicts" d cs kc Hcs).
Qed.

Lemma resolveStoredConflict_without_resolution_witness :
  run (resolveStoredConflict (VStr "conflict-1")
         {| strategy := VStr "skip"; mergeRules := VUndef |} 2 2) stored_db
  = (Ok tt, <["conflicts" := []]> stored_db) /\
  stored_db !! "courses" = courses_db !! "courses".
Proof.
  split; [|reflexivity].
  exact (proj2 (proj2 (resolveStoredConflict_without_resolution (KStr "conflict-1")
                         {| strategy := VStr "skip"; mergeRules := VUndef |} 2 2 stored_db))
           [(KStr "conflict-1", stored_record)] stored_record "courses"
           [("type", VStr "local_only"); ("local", VObj course1); ("remote", VNull)]
           eq_refl eq_refl eq_refl eq_refl eq_refl).
Defined.

Lemma foldM_not_assigning (local remote : value) (rs : obj) :
  Forall (fun fr => assigning (snd fr) = false) rs ->
  forall merged, foldM (mergeRule local remote) merged rs = Ok merged.
Proof.
  induction 1 as [|[f rule] rs Hr _ IH]; intros merged; [reflexivity|].
  cbn [foldM]. unfold assigning in Hr. cbn [snd] in Hr.
  apply orb_false_elim in Hr as [Hr H3]. apply orb_false_elim in Hr as [H1 H2].
  assert (E : mergeRule local remote merged (f, rule) = Ok merged).
  { unfold mergeRule. rewrite H1, H2, H3.
    now destruct (strict_eq rule (VStr "use_local")). }
  rewrite E. apply IH.
Qed.

(** X12. A [merge] whose rule set assigns no field (no rule set at all,
    an empty one, or only [use_local] and unknown rules) is the
    [use_local] resolution: the two calls have the same outcome and leave
    the same database, whatever the conflict. *)
Theorem merge_without_assigning_rule_is_use_local (c : string) (conflict rules : value)
    (rs : obj) (now now' : Z) (d : DB) :
  entries (js_or rules (VObj [])) = Ok rs ->
  Forall (fun fr => assigning (snd fr) = false) rs ->
  run (resolveConflict c conflict
         {| strategy := VStr "merge"; mergeRules := rules |} now now') d
  = run (resolveConflict c conflict
           {| strategy := VStr "use_local"; mergeRules := rules |} now now') d.
Proof.
  intros Hrs Hinert. unfold resolveConflict. rewrite !run_bind. cbn [lift run].
  destruct (prop conflict "local") as [local|e]; [|reflexivity].
  rewrite !run_bind. cbn [lift run].
  destruct (prop conflict "remote") as [remote|e]; [|reflexivity].
  cbn [strategy mergeRules].
  change (strict_eq (VStr "merge") (VStr "use_local")) with false.
  change (strict_eq (VStr "merge") (VStr "use_remote")) with false.
  change (strict_eq (VStr "merge") (VStr "merge")) with true.
  change (strict_eq (VStr "use_local") (VStr "use_local")) with true.
  cbv iota.
  assert (E : mergeData c local remote rules = Ok (VObj (spread local))).
  { unfold mergeData. rewrite Hrs. cbn [mbind result_bind].
    now rewrite (foldM_not_assigning local remote rs Hinert). }
  rewrite run_bind. cbn [lift run]. rewrite E. reflexivity.
Qed.

Lemma merge_without_assigning_rule_is_use_local_witness :
  run (resolveConflict "courses"
         (conflictOf "server_newer" (VObj course1) (VObj course1_remote))
         {| strategy := VStr "merge"; mergeRules := VUndef |} 300 300) courses_db
  = run (resolveConflict "courses"
           (conflictOf "server_newer" (VObj course1) (VObj course1_remote))
           {| strategy := VStr "use_local"; mergeRules := VUndef |} 300 300) courses_db.
Proof.
  apply (merge_without_assigning_rule_is_use_local "courses" _ VUndef []);
    [reflexivity | constructor].
Defined.

End ConflictsMore.

(** ** The [combine] rule *)

Section Combine.
Import GolfDB.

Lemma sameValueZero_primitive (x y : value) :
  primitive x = true -> (sameValueZero x y = true <-> x = y).
Proof.
  intros Hx. split.
  - destruct x as [| | | | | | |[]], y as [| | | | | | |[]]; simpl;
      try discriminate; intros H; try reflexivity.
    + apply Bool.eqb_prop in H. now subst.
    + apply Z.eqb_eq in H. now subst.
    + apply String.eqb_eq in H. now subst.
  - intros <-. destruct x as [| | | | | | |[]]; simpl; try discriminate;
      try reflexivity.
    + apply Bool.eqb_reflx.
    + apply Z.eqb_refl.
    + apply String.eqb_refl.
Qed.

Lemma seen_In (x : value) (seen : list value) :
  primitive x = true -> (existsb (sameValueZero x) seen = true <-> In x seen).
Proof.
  intros Hx. rewrite existsb_exists. split.
  - intros (y & Hy & E). apply (sameValueZero_primitive x y Hx) in E. now subst.
  - intros H. exists x. split; [exact H|]. now apply sameValueZero_primitive.
Qed.

Lemma setOf_spec (l : list value) :
  forall seen,
    Forall (fun x => primitive x = true) l ->
    List.NoDup seen ->
    List.NoDup (setOf l seen) /\
    (forall x, In x (setOf l seen) <-> In x seen \/ In x l) /\
    exists extra, setOf l seen = seen ++ extra.
Proof.
  induction l as [|x l IH]; intros seen Hp Hnd; simpl.
  - split; [exact Hnd|]. split; [tauto|]. exists []. now rewrite app_nil_r.
  - apply List.Forall_cons_iff in Hp as [Hx Hp].
    destruct (existsb (sameValueZero x) seen) eqn:E.
    + apply (seen_In x seen Hx) in E.
      destruct (IH seen Hp Hnd) as (H1 & H2 & H3).
      split; [exact H1|]. split; [|exact H3].
      intros y. rewrite H2. intuition (subst; auto).
    + assert (Hnot : ~ In x seen).
      { intros Hin. apply (seen_In x seen Hx) in Hin. congruence. }
      assert (Hnd' : List.NoDup (seen ++ [x])).
      { apply List.NoDup_app; [exact Hnd|repeat constructor; simpl; tauto|].
        intros y Hy [<-|[]]. contradiction. }
      destruct (IH (seen ++ [x]) Hp Hnd') as (H1 & H2 & extra & H3).
      split; [exact H1|]. split.
      * intros y. rewrite H2, in_app_iff. simpl. tauto.
      * exists (x :: extra). rewrite H3, <- app_assoc. reflexivity.
Qed.

Lemma setOf_prefix (a b : list value) :
  forall seen,
    Forall (fun x => primitive x = true) a ->
    List.NoDup (seen ++ a) ->
    setOf (a ++ b) seen = setOf b (seen ++ a).
Proof.
  induction a as [|x a IH]; intros seen Hp Hnd; simpl.
  - now rewrite app_nil_r.
  - apply List.Forall_cons_iff in Hp as [Hx Hp].
    assert (Hnot : ~ In x seen).
    { apply List.NoDup_remove_2 in Hnd. rewrite in_app_iff in Hnd. tauto. }
    destruct (existsb (sameValueZero x) seen) eqn:E.
    + apply (seen_In x seen Hx) in E. contradiction.
    + rewrite (IH (seen ++ [x]) Hp); rewrite <- app_assoc; [reflexivity|exact Hnd].
Qed.

(** X13. The [combine] rule on two arrays of primitive values leaves in
    the field their union without duplicates, in the order of first
    occurrence, the local elements first: when the local array has no
    duplicate it is a prefix of the merged one. Every other field is the
    local one. *)
Theorem combine_is_the_union (c f : string) (lo ro : obj) (ls rs : list value) :
  obj_get lo f = VArr ls ->
  obj_get ro f = VArr rs ->
  Forall (fun x => primitive x = true) (ls ++ rs) ->
  exists merged u,
    mergeData c (VObj lo) (VObj ro) (VObj [(f, VStr "combine")]) = Ok (VObj merged) /\
    obj_get merged f = VArr u /\
    List.NoDup u /\
    (forall x, In x u <-> In x ls \/ In x rs) /\
    (List.NoDup ls -> exists extra, u = ls ++ extra) /\
    (forall g, g <> f -> obj_get merged g = obj_get lo g).
Proof.
  intros Hl Hr Hp.
  destruct (setOf_spec (ls ++ rs) [] Hp (List.NoDup_nil _)) as (Hnd & Hin & _).
  exists (obj_set lo f (VArr (setOf (ls ++ rs) []))), (setOf (ls ++ rs) []).
  split; [|split; [|split; [|split; [|split]]]].
  - unfold mergeData. cbn -[setOf]. now rewrite Hl, Hr.
  - apply obj_get_set_eq.
  - exact Hnd.
  - intros x. rewrite Hin, in_app_iff. simpl. tauto.
  - intros Hls. apply Forall_app in Hp as [Hpl Hpr].
    rewrite (setOf_prefix ls rs [] Hpl Hls).
    destruct (setOf_spec rs ([] ++ ls) Hpr Hls) as (_ & _ & extra & E).
    exists extra. exact E.
  - intros g Hg. apply obj_get_set_ne. congruence.
Qed.

Lemma combine_is_the_union_witness :
  exists merged,
    mergeData "rounds"
      (VObj [("id", VStr "r1"); ("tags", VArr [VStr "a"; VStr "b"])])
      (VObj [("id", VStr "r1"); ("tags", VArr [VStr "b"; VStr "c"])])
      (VObj [("tags", VStr "combine")]) = Ok (VObj merged) /\
    obj_get merged "tags" = VArr [VStr "a"; VStr "b"; VStr "c"].
Proof.
  destruct (combine_is_the_union "rounds" "tags"
              [("id", VStr "r1"); ("tags", VArr [VStr "a"; VStr "b"])]
              [("id", VStr "r1"); ("tags", VArr [VStr "b"; VStr "c"])]
              [VStr "a"; VStr "b"] [VStr "b"; VStr "c"] eq_refl eq_refl)
    as (merged & u & Hm & Hu & _).
  - repeat constructor.
  - exists merged. split; [exact Hm|].
    vm_compute in Hm. injection Hm as <-. reflexivity.
Defined.

End Combine.

(** ** Detection over whole collections *)

Section DetectionMore.
Import GolfDB.

Variable JSON_stringify : value -> string.

Lemma flat_mapM_all {A B} (f : A -> result (list B)) (g : A -> list B) (l : list A) :
  Forall (fun x => f x = Ok (g x)) l ->
  flat_mapM f l = Ok (concat (map g l)).
Proof.
  induction 1 as [|x l Hx _ IH]; [reflexivity|].
  cbn [flat_mapM map concat]. now rewrite Hx, IH.
Qed.

Lemma concat_singletons {A B} (g : A -> B) (l : list A) :
  concat (map (fun x => [g x]) l) = map g l.
Proof. induction l as [|x l IH]; simpl; [reflexivity|now rewrite IH]. Qed.

Lemma concat_empty {A B} (l : list A) :
  concat (map (fun _ => @nil B) l) = [].
Proof. induction l as [|x l IH]; simpl; [reflexivity|exact IH]. Qed.

Lemma flat_mapM_length {A B} (f : A -> result (list B)) (l : list A) :
  (forall x ys, f x = Ok ys -> (length ys <= 1)%nat) ->
  forall zs, flat_mapM f l = Ok zs -> (length zs <= length l)%nat.
Proof.
  intros Hf. induction l as [|x l IH]; intros zs; cbn [flat_mapM].
  - intros H. injection H as <-. reflexivity.
  - destruct (f x) as [ys|e] eqn:Ex; [|discriminate]. cbn [mbind result_bind].
    destruct (flat_mapM f l) as [zs'|e]; [|discriminate]. cbn [mbind result_bind].
    intros H. injection H as <-. rewrite length_app. cbn [length].
    specialize (Hf x ys Ex). specialize (IH zs' eq_refl). lia.
Qed.

Lemma contentCheck_length (a b : value) :
  (length (contentCheck JSON_stringify a b) <= 1)%nat.
Proof.
  unfold contentCheck.
  destruct (negb (JSON_stringify b =? JSON_stringify a)%string); simpl; lia.
Qed.

Lemma compareItems_length (a b : value) (ys : list value) :
  compareItems JSON_stringify a b = Ok ys -> (length ys <= 1)%nat.
Proof.
  pose proof (contentCheck_length a b) as Hc.
  unfold compareItems.
  destruct (prop b "lastModified") as [rm|e]; [|discriminate]. cbn [mbind result_bind].
  destruct (if truthy rm then prop a "lastModified" else Ok rm) as [lm|e];
    cbn [mbind result_bind]; [|discriminate].
  destruct (truthy (js_and rm lm)).
  - destruct (js_gt rm lm) as [[|]|e]; cbn [mbind result_bind]; [| |discriminate].
    + intros H. injection H as <-. simpl. lia.
    + destruct (js_lt rm lm) as [[|]|e]; cbn [mbind result_bind]; [| |discriminate];
        intros H; injection H as <-; simpl; lia.
  - intros H. injection H as <-. exact Hc.
Qed.

Lemma detectRemote_length (ls : list value) (r : value) (ys : list value) :
  detectRemote JSON_stringify ls r = Ok ys -> (length ys <= 1)%nat.
Proof.
  unfold detectRemote.
  destruct (js_find (same_id r) ls) as [l|e]; [|discriminate]. cbn [mbind result_bind].
  destruct (truthy l).
  - apply compareItems_length.
  - intros H. injection H as <-. simpl. lia.
Qed.

Lemma detectLocal_length (rs : list value) (l : value) (ys : list value) :
  detectLocal rs l = Ok ys -> (length ys <= 1)%nat.
Proof.
  unfold detectLocal.
  destruct (js_find (same_id l) rs) as [r|e]; [|discriminate]. cbn [mbind result_bind].
  destruct (negb (truthy r)); intros H; injection H as <-; simpl; lia.
Qed.

(** X14. Detection against an empty side, and its size. With no local
    entity every remote one is reported [server_only], in the order
    received; with no remote entity every local one is reported
    [local_only], in the order of the store. In general an entity is
    reported at most once per side: the report is never longer than the
    two collections together. *)
Theorem detect_one_sided_and_bounded (ls rs : list value) :
  detectIn JSON_stringify [] rs = Ok (map (conflictOf "server_only" VNull) rs) /\
  detectIn JSON_stringify ls []
    = Ok (map (fun l => conflictOf "local_only" l VNull) ls) /\
  (forall report, detectIn JSON_stringify ls rs = Ok report ->
     (length report <= length ls + length rs)%nat).
Proof.
  split; [|split].
  - unfold detectIn.
    rewrite (flat_mapM_all (detectRemote JSON_stringify [])
               (fun r => [conflictOf "server_only" VNull r]) rs).
    + cbn [flat_mapM mbind result_bind mret result_ret].
      now rewrite concat_singletons, app_nil_r.
    + apply List.Forall_forall. reflexivity.
  - unfold detectIn. cbn [flat_mapM mbind result_bind].
    rewrite (flat_mapM_all (detectLocal [])
               (fun l => [conflictOf "local_only" l VNull]) ls).
    + cbn [mbind result_bind mret result_ret]. now rewrite concat_singletons.
    + apply List.Forall_forall. reflexivity.
  - intros report. unfold detectIn.
    destruct (flat_mapM (detectRemote JSON_stringify ls) rs) as [a|e] eqn:Ea;
      [|discriminate].
    cbn [mbind result_bind].
    destruct (flat_mapM (detectLocal rs) ls) as [b|e] eqn:Eb; [|discriminate].
    cbn [mbind result_bind]. intros H. injection H as <-.
    rewrite length_app.
    pose proof (flat_mapM_length _ rs (detectRemote_length ls) a Ea).
    pose proof (flat_mapM_length _ ls (detectLocal_length rs) b Eb).
    lia.
Qed.

Lemma strict_eq_key_value (a b : key) :
  strict_eq (key_value a) (key_value b) = true -> a = b.
Proof.
  destruct a, b; simpl; try discriminate; intros H.
  - apply Z.eqb_eq in H. now subst.
  - apply String.eqb_eq in H. now subst.
Qed.

Lemma same_id_keys (v v0 : value) (k k0 : key) :
  keyOf "id" v = Ok k -> keyOf "id" v0 = Ok k0 ->
  same_id v v0 = Ok (strict_eq (key_value k0) (key_value k)).
Proof.
  intros Hv Hv0.
  destruct (keyOf_prop _ _ _ Hv) as (i & Hi & Hk).
  destruct (keyOf_prop _ _ _ Hv0) as (i0 & Hi0 & Hk0).
  apply to_key_inv in Hk, Hk0. subst i i0.
  unfold same_id. now rewrite Hi0, Hi.
Qed.

(** [find] on the snapshot of a well-formed store returns the record
    itself: no other record has its id. *)
Lemma js_find_self (s : objectStore) (k : key) (v : value) :
  ascending s -> keyed "id" s -> In (k, v) s ->
  js_find (same_id v) (map snd s) = Ok v.
Proof.
  induction s as [|[k0 v0] s IH]; intros Hasc Hkeyed Hin; [contradiction|].
  destruct Hasc as [Hlt Hasc]. apply List.Forall_cons_iff in Hkeyed as [Hk0 Hkeyed].
  cbn [fst snd] in Hk0. cbn [map snd js_find].
  assert (Hk : keyOf "id" v = Ok k).
  { destruct Hin as [E|Hin]; [now injection E as <- <-|].
    apply (proj1 (List.Forall_forall _ _) Hkeyed (k, v) Hin). }
  rewrite (same_id_keys v v0 k k0 Hk Hk0). cbn [mbind result_bind].
  destruct Hin as [E|Hin].
  - injection E as <- <-. now rewrite strict_eq_key.
  - destruct (strict_eq (key_value k0) (key_value k)) eqn:E.
    + apply strict_eq_key_value in E. subst k0.
      apply (proj1 (List.Forall_forall _ _) Hlt) in Hin. cbn [fst] in Hin.
      now rewrite key_compare_refl in Hin.
    + now apply IH.
Qed.

Lemma compareItems_self (o : obj) :
  timed (VObj o) = true ->
  compareItems JSON_stringify (VObj o) (VObj o) = Ok [].
Proof.
  unfold timed, compareItems, contentCheck. cbn [prop mbind result_bind].
  rewrite String.eqb_refl.
  destruct (obj_get o "lastModified") as [| | |n| | | |]; try discriminate; intros _;
    try reflexivity.
  destruct (Z.eq_dec n 0) as [->|Hn]; [reflexivity|].
  pose proof (truthy_VNum n Hn) as Ht.
  rewrite Ht. cbn [mbind result_bind]. unfold js_and. rewrite !Ht.
  cbn [js_gt js_lt mbind result_bind]. rewrite Z.ltb_irrefl. reflexivity.
Qed.

(** X15. Detection of a collection against its own snapshot reports
    nothing: when the remote data is what [getAll] returns from a
    well-formed collection keyed by [id], whose timestamps are numbers
    where there are any, [detectConflicts] returns the empty list and
    leaves the database as it was. *)
Theorem detect_own_snapshot_is_clean (c : string) (d : DB) (s : objectStore) :
  db_wf d ->
  c <> "settings" ->
  d !! c = Some s ->
  Forall (fun v => timed v = true) (map snd s) ->
  run (getAll c) d = (Ok (map snd s), d) /\
  run (detectConflicts JSON_stringify c (map snd s)) d = (Ok [], d).
Proof.
  intros Hwf Hc Hs Htimed.
  split; [now apply getAll_run|].
  rewrite (detectConflicts_run JSON_stringify c _ d s Hs).
  f_equal.
  destruct (Hwf c s Hs) as [Hasc Hkeyed].
  assert (Hpath : keyPath c = "id").
  { unfold keyPath. destruct (String.eqb_spec c "settings"); [contradiction|reflexivity]. }
  rewrite Hpath in Hkeyed.
  assert (Hitem : forall v, In v (map snd s) ->
            exists o, v = VObj o /\ timed v = true /\
                      js_find (same_id v) (map snd s) = Ok v).
  { intros v Hv. apply in_map_iff in Hv as ([k v'] & E & Hin). cbn [snd] in E. subst v'.
    pose proof (proj1 (List.Forall_forall _ _) Hkeyed (k, v) Hin) as Hk. cbn [fst snd] in Hk.
    assert (Ht : timed v = true).
    { apply (proj1 (List.Forall_forall _ _) Htimed). apply in_map_iff. now exists (k, v). }
    destruct v; try discriminate. exists o. split; [reflexivity|]. split; [exact Ht|].
    now apply (js_find_self s k). }
  unfold detectIn.
  rewrite (flat_mapM_all (detectRemote JSON_stringify (map snd s)) (fun _ => []) (map snd s)).
  - cbn [mbind result_bind].
    rewrite (flat_mapM_all (detectLocal (map snd s)) (fun _ => []) (map snd s)).
    + cbn [mbind result_bind mret result_ret]. now rewrite !concat_empty.
    + apply List.Forall_forall. intros v Hv.
      destruct (Hitem v Hv) as (o & -> & _ & Hfind).
      unfold detectLocal. now rewrite Hfind.
  - apply List.Forall_forall. intros v Hv.
    destruct (Hitem v Hv) as (o & -> & Ht & Hfind).
    unfold detectRemote. rewrite Hfind. cbn [mbind result_bind truthy].
    now apply compareItems_self.
Qed.

End DetectionMore.

Lemma detect_one_sided_and_bounded_witness :
  (length [GolfDB.conflictOf "server_newer" (VObj course1) (VObj course1_remote)]
   <= length [VObj course1] + length [VObj course1_remote])%nat.
Proof.
  apply (proj2 (proj2 (detect_one_sided_and_bounded render [VObj course1] [VObj course1_remote]))).
  vm_compute. reflexivity.
Defined.

Lemma sample_db_wf : db_wf sample_db.
Proof.
  unfold sample_db.
  do 3 (apply db_wf_insert; [|repeat constructor]).
  exact init_wf.
Qed.

Lemma detect_own_snapshot_is_clean_witness :
  run (GolfDB.detectConflicts render "courses" [sample_course]) sample_db = (Ok [], sample_db).
Proof.
  apply (detect_own_snapshot_is_clean render "courses" sample_db sample_courses).
  - exact sample_db_wf.
  - discriminate.
  - reflexivity.
  - repeat constructor.
Defined.

(** ** The reading methods *)

Section Reads.
Import GolfDB.

Variable JSON_stringify : value -> string.

Lemma getAll_missing (c : string) (d : DB) :
  d !! c = None -> run (getAll c) d = (Err NotFoundError, d).
Proof. intros H. unfold getAll, objectStoreOf. simpl. now rewrite H. Qed.

(** X16. The reading methods never write: whatever [get], [getAll] and
    [detectConflicts] return, the database is as it was. The two guarded
    reads, [getSyncQueue] and [getPendingConflicts], never reject either:
    where [getAll] rejects with [NotFoundError] on a store that does not
    exist, they return the empty list. *)
Theorem reads_never_write (d : DB) :
  (forall c keyv, snd (run (get c keyv) d) = d) /\
  (forall c, snd (run (getAll c) d) = d) /\
  (forall c remote, snd (run (detectConflicts JSON_stringify c remote) d) = d) /\
  (exists l, run getSyncQueue d = (Ok l, d)) /\
  (exists l, run getPendingConflicts d = (Ok l, d)) /\
  (forall c, d !! c = None ->
     run (getAll c) d = (Err NotFoundError, d) /\
     (c = "syncQueue" -> run getSyncQueue d = (Ok [], d)) /\
     (c = "conflicts" -> run getPendingConflicts d = (Ok [], d))).
Proof.
  split; [|split; [|split; [|split; [|split]]]].
  - intros c keyv. unfold get, objectStoreOf. simpl.
    destruct (d !! c); [|reflexivity]. simpl. now destruct (to_key keyv).
  - intros c. unfold getAll, objectStoreOf. simpl. now destruct (d !! c).
  - intros c remote. unfold detectConflicts, getAll, objectStoreOf. simpl.
    destruct (d !! c); [|reflexivity]. simpl.
    now destruct (detectIn JSON_stringify (map snd o) remote).
  - unfold getSyncQueue, getAll, objectStoreOf. simpl.
    destruct (d !! "syncQueue"); eexists; reflexivity.
  - apply getPendingConflicts_run.
  - intros c Hc. split; [now apply getAll_missing|]. split; intros ->.
    + unfold getSyncQueue. now rewrite run_try_catch, (getAll_missing _ _ Hc).
    + unfold getPendingConflicts. now rewrite run_try_catch, (getAll_missing _ _ Hc).
Qed.

End Reads.

Lemma reads_never_write_witness :
  run (GolfDB.getAll "syncQueue") (∅ : GolfDB.DB) = (Err NotFoundError, ∅) /\
  run GolfDB.getSyncQueue (∅ : GolfDB.DB) = (Ok [], ∅).
Proof.
  destruct (proj2 (proj2 (proj2 (proj2 (proj2 (reads_never_write render ∅)))))
              "syncQueue" (lookup_empty _)) as (H1 & H2 & _).
  split; [exact H1|now apply H2].
Defined.


(** * The hook *)

Section HookMore.
Import GolfDB useGolfData.

Lemma keyPath_id (c : string) : c <> "settings" -> keyPath c = "id".
Proof.
  intros Hc. unfold keyPath. now destruct (String.eqb_spec c "settings").
Qed.

Lemma onDb_closed {A} (m : M DB A) (w : World) :
  db w = false -> run (onDb m) w = (Err TypeError, w).
Proof. intros H. unfold onDb. simpl. now rewrite H. Qed.

(** X17. [clearAllData] empties the three collections it names and the
    three lists of the hook, and nothing else: the settings, the sync
    queue and the stored conflicts stay as they were, like the online
    flag, the sync status and the pending conflicts. What it deletes is
    what [getAll] returns, not what the hook lists hold. Without a
    database handle it rejects with [TypeError] and changes nothing. *)
Theorem clearAllData_empties_the_collections (w : World) :
  (db w = false -> run clearAllData w = (Err TypeError, w)) /\
  (forall cs rs hs : objectStore,
     db w = true ->
     db_wf (idb w) ->
     idb w !! "courses" = Some cs ->
     idb w !! "rounds" = Some rs ->
     idb w !! "holeScores" = Some hs ->
     exists w',
       run clearAllData w = (Ok tt, w') /\
       run (getAll "courses") (idb w') = (Ok [], idb w') /\
       run (getAll "rounds") (idb w') = (Ok [], idb w') /\
       run (getAll "holeScores") (idb w') = (Ok [], idb w') /\
       (forall c, c <> "courses" -> c <> "rounds" -> c <> "holeScores" ->
                  idb w' !! c = idb w !! c) /\
       courses w' = [] /\ rounds w' = [] /\ holeScores w' = [] /\
       isOnline w' = isOnline w /\ syncStatus w' = syncStatus w /\
       pendingConflicts w' = pendingConflicts w).
Proof.
  split.
  - intros Hdb. unfold clearAllData. now rewrite run_bind, (onDb_closed _ w Hdb).
  - intros cs rs hs Hdb Hwf Hc Hr Hh.
    assert (Kc : keyed "id" cs) by exact (proj2 (Hwf _ _ Hc)).
    assert (Kr : keyed "id" rs) by exact (proj2 (Hwf _ _ Hr)).
    assert (Kh : keyed "id" hs) by exact (proj2 (Hwf _ _ Hh)).
    eexists. split.
    + unfold clearAllData.
      rewrite run_bind, (onDb_run _ w Hdb), (getAll_run _ _ _ Hc). cbn [fst snd].
      rewrite withIdb_id.
      rewrite run_bind, (onDb_run _ w Hdb), (getAll_run _ _ _ Hr). cbn [fst snd].
      rewrite withIdb_id.
      rewrite run_bind, (onDb_run _ w Hdb), (getAll_run _ _ _ Hh). cbn [fst snd].
      rewrite withIdb_id.
      rewrite run_bind, (deleteEach_run "courses" cs Kc w cs Hdb Hc).
      rewrite (delete_all_clears _ cs (keyed_key_in cs)).
      rewrite run_bind.
      erewrite (deleteEach_run "rounds" rs Kr); [|exact Hdb|].
      2:{ cbn [idb withIdb]. rewrite lookup_insert_ne by discriminate. exact Hr. }
      rewrite (delete_all_clears _ rs (keyed_key_in rs)).
      rewrite run_bind.
      erewrite (deleteEach_run "holeScores" hs Kh); [|exact Hdb|].
      2:{ cbn [idb withIdb]. rewrite !lookup_insert_ne by discriminate. exact Hh. }
      rewrite (delete_all_clears _ hs (keyed_key_in hs)).
      reflexivity.
    + cbn [idb withIdb courses rounds holeScores isOnline syncStatus pendingConflicts].
      split; [|split; [|split; [|split]]].
      * apply (getAll_run "courses" _ []).
        now rewrite !lookup_insert_ne, lookup_insert_eq by discriminate.
      * apply (getAll_run "rounds" _ []).
        now rewrite lookup_insert_ne, lookup_insert_eq by discriminate.
      * apply (getAll_run "holeScores" _ []). now rewrite lookup_insert_eq.
      * intros c H1 H2 H3. now rewrite !lookup_insert_ne by congruence.
      * repeat split; reflexivity.
Qed.

Lemma clearAllData_empties_the_collections_witness :
  exists w',
    run clearAllData (loaded sample_db sample_courses sample_rounds sample_holes)
      = (Ok tt, w') /\
    run (getAll "courses") (idb w') = (Ok [], idb w') /\
    courses w' = [].
Proof.
  destruct (proj2 (clearAllData_empties_the_collections
                     (loaded sample_db sample_courses sample_rounds sample_holes))
              sample_courses sample_rounds sample_holes
              eq_refl sample_db_wf eq_refl eq_refl eq_refl)
    as (w' & Hrun & Hc & _ & _ & _ & Hl & _).
  exists w'. repeat split; assumption.
Defined.

(** *** [importData] refuses before it writes *)

Lemma validCourse_state (x : value) (w : World) : snd (run (validCourse x) w) = w.
Proof.
  unfold validCourse. rewrite run_bind. cbn [lift run].
  destruct (prop x "id"); [|reflexivity].
  rewrite run_bind. cbn [lift run]. destruct (prop x "name"); [|reflexivity].
  now destruct (negb (truthy a) || negb (truthy a0)).
Qed.

Lemma validRound_state (x : value) (w : World) : snd (run (validRound x) w) = w.
Proof.
  unfold validRound. rewrite run_bind. cbn [lift run].
  destruct (prop x "id"); [|reflexivity].
  rewrite run_bind. cbn [lift run]. destruct (prop x "courseId"); [|reflexivity].
  rewrite run_bind. cbn [lift run]. destruct (prop x "totalScore"); [|reflexivity].
  now destruct (negb (truthy a) || negb (truthy a0) || negb (typeof_number a1)).
Qed.

Lemma validHole_state (x : value) (w : World) : snd (run (validHole x) w) = w.
Proof.
  unfold validHole. rewrite run_bind. cbn [lift run].
  destruct (prop x "id"); [|reflexivity].
  rewrite run_bind. cbn [lift run]. destruct (prop x "roundId"); [|reflexivity].
  rewrite run_bind. cbn [lift run]. destruct (prop x "score"); [|reflexivity].
  now destruct (negb (truthy a) || negb (truthy a0) || negb (typeof_number a1)).
Qed.

Lemma for_of_state {S A} (body : A -> M S unit) (l : list A) :
  (forall x s, snd (run (body x) s) = s) ->
  forall s, snd (run (for_of l body) s) = s.
Proof.
  intros Hbody. induction l as [|x l IH]; intros s; [reflexivity|].
  cbn [for_of]. rewrite run_bind.
  pose proof (Hbody x s) as Hx. destruct (run (body x) s) as [[[]|e] s1].
  - cbn [snd] in Hx. subst s1. apply IH.
  - exact Hx.
Qed.

Lemma put_not_thrown (c : string) (x : value) (d d' : DB) (e : exn) (msg : string) :
  run (put c x) d = (Err e, d') -> e <> Thrown msg.
Proof.
  unfold put, objectStoreOf. simpl.
  destruct (d !! c); simpl; [|intros H; injection H as <- _; discriminate].
  destruct x; simpl; try (intros H; injection H as <- _; discriminate).
  destruct (obj_get o0 (keyPath c)) as [| | | | | | |[]]; simpl; intros H;
    try discriminate H; injection H as <- _; discriminate.
Qed.

Lemma putEach_not_thrown (c : string) (l : list value) (msg : string) :
  forall (w w' : World) (e : exn),
    run (for_of l (fun x => onDb (put c x) ;; mret tt)) w = (Err e, w') ->
    e <> Thrown msg.
Proof.
  induction l as [|x l IH]; intros w w' e; cbn [for_of].
  - discriminate.
  - rewrite run_bind, run_bind. unfold onDb at 1. cbn [run].
    destruct (db w).
    + destruct (run (put c x) (idb w)) as [[k|e0] d1] eqn:Ep.
      * cbn [mret M_ret run]. apply IH.
      * intros H. injection H as <- _. exact (put_not_thrown _ _ _ _ _ msg Ep).
    + intros H. injection H as <- _. discriminate.
Qed.

(** X18. [importData] refuses before it writes. Whenever it rejects with
    one of its own messages (text that is no JSON, data that is no
    object, a collection that is no array, an entity that fails its
    check) the database and the hook state are exactly as they were: no
    entity of the file has been stored, not even those before the
    offending one. *)
Theorem importData_refusal_writes_nothing (parsed : option value) (w w' : World)
    (msg : string) :
  run (importData parsed) w = (Err (Thrown msg), w') -> w' = w.
Proof.
  unfold importData. destruct parsed as [data|];
    [|intros H; now injection H as _ <-].
  destruct (negb (truthy data) || negb (typeof_object data));
    [intros H; now injection H as _ <-|].
  rewrite run_bind. cbn [lift run].
  destruct (prop data "courses") as [cs|e]; [|intros H; now injection H as _ <-].
  destruct cs as [| | | | |cs| |]; try (intros H; now injection H as _ <-).
  rewrite run_bind. cbn [lift run].
  destruct (prop data "rounds") as [rs|e]; [|intros H; now injection H as _ <-].
  destruct rs as [| | | | |rs| |]; try (intros H; now injection H as _ <-).
  rewrite run_bind. cbn [lift run].
  destruct (prop data "holeScores") as [hs|e]; [|intros H; now injection H as _ <-].
  destruct hs as [| | | | |hs| |]; try (intros H; now injection H as _ <-).
  rewrite run_bind.
  pose proof (for_of_state validCourse cs validCourse_state w) as H1.
  destruct (run (for_of cs validCourse) w) as [[[]|e] w1]; cbn [snd] in H1; subst w1;
    [|intros H; now injection H as _ <-].
  rewrite run_bind.
  pose proof (for_of_state validRound rs validRound_state w) as H2.
  destruct (run (for_of rs validRound) w) as [[[]|e] w1]; cbn [snd] in H2; subst w1;
    [|intros H; now injection H as _ <-].
  rewrite run_bind.
  pose proof (for_of_state validHole hs validHole_state w) as H3.
  destruct (run (for_of hs validHole) w) as [[[]|e] w1]; cbn [snd] in H3; subst w1;
    [|intros H; now injection H as _ <-].
  rewrite run_bind.
  destruct (run (for_of cs (fun course => onDb (put "courses" course) ;; mret tt)) w)
    as [[[]|e] w1] eqn:E1.
  2:{ intros H. injection H as -> _. now destruct (putEach_not_thrown _ _ msg _ _ _ E1). }
  rewrite run_bind.
  destruct (run (for_of rs (fun round => onDb (put "rounds" round) ;; mret tt)) w1)
    as [[[]|e] w2] eqn:E2.
  2:{ intros H. injection H as -> _. now destruct (putEach_not_thrown _ _ msg _ _ _ E2). }
  rewrite run_bind.
  destruct (run (for_of hs (fun hole => onDb (put "holeScores" hole) ;; mret tt)) w2)
    as [[[]|e] w3] eqn:E3.
  2:{ intros H. injection H as -> _. now destruct (putEach_not_thrown _ _ msg _ _ _ E3). }
  discriminate.
Qed.

Lemma importData_refusal_writes_nothing_witness :
  let w := loaded courses_db [] [] [] in
  let data := VObj [("courses", VArr [sample_course; VObj course1]);
                    ("rounds", VArr []); ("holeScores", VArr [])] in
  snd (run (importData (Some data)) w) = w.
Proof.
  intros w data.
  apply (importData_refusal_writes_nothing (Some data) w _
           "Invalid course data. Each course must have an id and name.").
  vm_compute. reflexivity.
Defined.

End HookMore.

(** ** The sync pass and the queue *)

Section SyncMore.
Import GolfDB useGolfData.

Variable push : value -> bool.

Lemma getPendingConflicts_eq (d : DB) :
  run getPendingConflicts d = (Ok (pendingOf d), d).
Proof.
  unfold getPendingConflicts, pendingOf, getAll, objectStoreOf. simpl.
  now destruct (d !! "conflicts").
Qed.

Lemma checkForConflicts_eq (w : World) :
  db w = true ->
  run checkForConflicts w = (Ok tt, withPendingConflicts (pendingOf (idb w)) w).
Proof.
  intros Hdb. unfold checkForConflicts, loadPendingConflicts.
  cbn [run]. rewrite Hdb. cbn [negb].
  rewrite run_try_catch, run_bind, (onDb_run _ w Hdb), getPendingConflicts_eq.
  cbn [fst snd]. rewrite withIdb_id. reflexivity.
Qed.

(** The world a pass leaves. *)
Lemma performSync_world (w : World) (q : objectStore) :
  db w = true ->
  isOnline w = true ->
  idb w !! "syncQueue" = Some q ->
  store_wf "id" q ->
  (forall kv, In kv q -> delivered push (snd kv) = false ->
              exists n, prop (snd kv) "retries" = Ok (VNum n)) ->
  run (performSync push) w
  = (Ok tt,
     {| idb := <["syncQueue" := map (step push) q]> (idb w); db := true;
        courses := courses w; rounds := rounds w; holeScores := holeScores w;
        isOnline := true; syncStatus := idle;
        pendingConflicts := pendingOf (idb w) |}).
Proof.
  intros Hdb Hon Hq Hwf Hretries.
  pose (w1 := withSyncStatus syncing w).
  pose (w2 := withIdb (<["syncQueue" := map (step push) q]> (idb w)) w1).
  unfold performSync. cbn [run]. rewrite Hdb, Hon. cbn [negb orb].
  rewrite run_try_catch, run_bind. cbn [setSyncStatus run]. fold w1.
  rewrite run_bind, (onDb_run _ w1 Hdb).
  cbn [idb withSyncStatus w1]. rewrite (getSyncQueue_run _ q Hq).
  cbn [fst snd].
  replace (withIdb (idb w) w1) with w1 by (symmetry; apply (withIdb_id w1)).
  rewrite run_bind.
  rewrite (sync_loop push q [] w1 Hdb Hq (List.Forall_nil _) Hwf Hretries).
  change (withIdb (<["syncQueue" := [] ++ map (step push) q]> (idb w1)) w1) with w2.
  rewrite run_bind, (checkForConflicts_eq w2 Hdb).
  cbn [setSyncStatus run]. unfold withSyncStatus, withPendingConflicts, w2, withIdb, w1.
  cbn [idb db courses rounds holeScores isOnline syncStatus pendingConflicts withSyncStatus].
  rewrite Hdb, Hon. do 2 f_equal.
  unfold pendingOf. now rewrite lookup_insert_ne by discriminate.
Qed.

Lemma step_keys (q : objectStore) : map fst (map (step push) q) = map fst q.
Proof. rewrite map_map. reflexivity. Qed.

(** X19. A sync pass removes nothing from the queue: after the pass the
    queue holds an item under exactly the ids it held before, in the same
    order, the completed ones included ([removeFromSyncQueue] is never
    called). Every other collection and the three lists of the hook are
    as they were, and the pending conflicts of the hook are those of the
    store. *)
Theorem sync_pass_keeps_every_item (w : World) (q : objectStore) :
  db w = true ->
  isOnline w = true ->
  idb w !! "syncQueue" = Some q ->
  store_wf "id" q ->
  (forall kv, In kv q -> delivered push (snd kv) = false ->
              exists n, prop (snd kv) "retries" = Ok (VNum n)) ->
  exists w' q',
    run (performSync push) w = (Ok tt, w') /\
    idb w' !! "syncQueue" = Some q' /\
    map fst q' = map fst q /\
    (forall c, c <> "syncQueue" -> idb w' !! c = idb w !! c) /\
    courses w' = courses w /\ rounds w' = rounds w /\ holeScores w' = holeScores w /\
    run getPendingConflicts (idb w') = (Ok (pendingConflicts w'), idb w').
Proof.
  intros Hdb Hon Hq Hwf Hretries.
  eexists. exists (map (step push) q).
  split; [exact (performSync_world w q Hdb Hon Hq Hwf Hretries)|].
  cbn [idb courses rounds holeScores pendingConflicts].
  split; [apply lookup_insert_eq|]. split; [apply step_keys|].
  split; [intros c Hc; now rewrite lookup_insert_ne by congruence|].
  repeat split.
  rewrite getPendingConflicts_eq. unfold pendingOf.
  now rewrite lookup_insert_ne by discriminate.
Qed.

End SyncMore.

Lemma sync_pass_keeps_every_item_witness :
  exists w' q',
    run (useGolfData.performSync refuse_first)
        (world_of (<["syncQueue" := two_items]> GolfDB.init) useGolfData.idle)
      = (Ok tt, w') /\
    useGolfData.idb w' !! "syncQueue" = Some q' /\
    map fst q' = map fst two_items.
Proof.
  destruct (sync_pass_keeps_every_item refuse_first
              (world_of (<["syncQueue" := two_items]> GolfDB.init) useGolfData.idle)
              two_items eq_refl eq_refl (lookup_insert_eq _ _ _))
    as (w' & q' & Hrun & Hq & Hkeys & _).
  - repeat constructor.
  - intros kv [<-|[<-|[]]] _; eexists; reflexivity.
  - exists w', q'. repeat split; assumption.
Defined.

Section SyncTwice.
Import GolfDB useGolfData.

Lemma delivered_noPush (o : obj) : delivered noPush (VObj o) = true.
Proof.
  unfold delivered, noPush. cbn [prop].
  now destruct (strict_eq (obj_get o "operation") (VStr "add")
                || strict_eq (obj_get o "operation") (VStr "put")
                || strict_eq (obj_get o "operation") (VStr "delete")).
Qed.

Lemma keyed_object (path : string) (v : value) (k : key) :
  keyOf path v = Ok k -> exists o, v = VObj o.
Proof. destruct v; simpl; try discriminate. intros _. now eexists. Qed.

Lemma step_noPush (q : objectStore) :
  keyed "id" q ->
  map (step noPush) q
  = map (fun kv => (fst kv, VObj (obj_set (spread (snd kv)) "status" (VStr "completed")))) q.
Proof.
  induction 1 as [|[k v] q Hk _ IH]; [reflexivity|].
  cbn [map]. rewrite IH. f_equal. cbn [fst snd] in Hk.
  destruct (keyed_object _ _ _ Hk) as [o ->].
  unfold step. cbn [fst snd afterSync spread]. now rewrite delivered_noPush.
Qed.

Lemma completed_keyed (q : objectStore) :
  keyed "id" q ->
  keyed "id" (map (fun kv => (fst kv, VObj (obj_set (spread (snd kv)) "status"
                                              (VStr "completed")))) q).
Proof.
  induction 1 as [|[k v] q Hk _ IH]; [constructor|].
  cbn [map]. constructor; [|exact IH]. cbn [fst snd] in *.
  destruct (keyed_object _ _ _ Hk) as [o ->].
  cbn [spread keyOf] in *. now rewrite obj_get_set_ne by discriminate.
Qed.

Lemma completed_twice (q : objectStore) :
  let done := fun kv : key * value =>
    (fst kv, VObj (obj_set (spread (snd kv)) "status" (VStr "completed"))) in
  map done (map done q) = map done q.
Proof.
  intros done. rewrite map_map. apply map_ext. intros [k v]. unfold done.
  cbn [fst snd spread]. now rewrite obj_set_set.
Qed.

(** X20. With the push of the source as it is (the three cases of
    [processSyncItem] are empty, so every push succeeds) one pass marks
    every queued item [completed], and a second pass changes nothing at
    all: the world after the first pass is a fixpoint of [performSync],
    although that pass goes through every completed item again. *)
Theorem second_sync_pass_changes_nothing (w : World) (q : objectStore) :
  db w = true ->
  isOnline w = true ->
  idb w !! "syncQueue" = Some q ->
  store_wf "id" q ->
  exists w' q',
    run (performSync noPush) w = (Ok tt, w') /\
    idb w' !! "syncQueue" = Some q' /\
    (forall kv, In kv q' -> prop (snd kv) "status" = Ok (VStr "completed")) /\
    run (performSync noPush) w' = (Ok tt, w').
Proof.
  intros Hdb Hon Hq [Hasc Hkeyed].
  pose (done := fun kv : key * value =>
          (fst kv, VObj (obj_set (spread (snd kv)) "status" (VStr "completed")))).
  assert (Hold : forall (s : objectStore), keyed "id" s ->
            forall kv, In kv s -> delivered noPush (snd kv) = false ->
                       exists n, prop (snd kv) "retries" = Ok (VNum n)).
  { intros s Hs [k v] Hin Hd.
    pose proof (proj1 (List.Forall_forall _ _) Hs _ Hin) as Hk.
    cbn [fst snd] in Hk, Hd.
    destruct (keyed_object _ _ _ Hk) as [o ->].
    rewrite delivered_noPush in Hd. discriminate. }
  pose (w' := {| idb := <["syncQueue" := map done q]> (idb w); db := true;
                 courses := courses w; rounds := rounds w;
                 holeScores := holeScores w; isOnline := true; syncStatus := idle;
                 pendingConflicts := pendingOf (idb w) |}).
  assert (Hwf' : store_wf "id" (map done q)).
  { split; [|exact (completed_keyed q Hkeyed)].
    exact (ascending_map
             (fun v => VObj (obj_set (spread v) "status" (VStr "completed"))) q Hasc). }
  exists w', (map done q). split; [|split; [|split]].
  - rewrite (performSync_world noPush w q Hdb Hon Hq (conj Hasc Hkeyed) (Hold q Hkeyed)).
    now rewrite (step_noPush q Hkeyed).
  - apply lookup_insert_eq.
  - intros kv Hin. apply in_map_iff in Hin as ([k v] & <- & _).
    unfold done. cbn [snd prop]. now rewrite obj_get_set_eq.
  - rewrite (performSync_world noPush w' (map done q) eq_refl eq_refl
               (lookup_insert_eq _ _ _) Hwf' (Hold _ (proj2 Hwf'))).
    unfold w'. cbn [idb courses rounds holeScores].
    rewrite (step_noPush _ (proj2 Hwf')). unfold done.
    rewrite (completed_twice q), insert_insert_eq. do 2 f_equal.
    unfold pendingOf. now rewrite lookup_insert_ne by discriminate.
Qed.

Lemma second_sync_pass_changes_nothing_witness :
  exists w',
    run (performSync noPush) (world_of queued_db idle) = (Ok tt, w') /\
    run (performSync noPush) w' = (Ok tt, w').
Proof.
  destruct (second_sync_pass_changes_nothing (world_of queued_db idle)
              [(KStr "sync-1000-0.5", queued round123 1000 "0.5" 1000 0 "pending")]
              eq_refl eq_refl eq_refl)
    as (w' & q' & Hrun & _ & _ & Hagain).
  - repeat constructor.
  - exists w'. split; assumption.
Defined.

End SyncTwice.

(** ** What a pass does for want of a push, and the retry step *)

Section PassAndRetry.
Import GolfDB useGolfData.




End PassAndRetry.

(** ** Marking the home course *)

Section HomeCourse.
Import GolfDB useGolfData.

Lemma put_all_get_other (kvs : objectStore) (k : key) :
  forall s, ~ In k (map fst kvs) -> store_get k (put_all kvs s) = store_get k s.
Proof.
  induction kvs as [|[k0 v0] kvs IH]; intros s Hnot; [reflexivity|].
  cbn [put_all fold_left fst snd]. cbn [map fst In] in Hnot.
  change (store_get k (put_all kvs (store_put k0 v0 s)) = store_get k s).
  rewrite IH by tauto. apply store_get_put_ne. intros ->. tauto.
Qed.

Lemma put_all_get (kvs : objectStore) (k : key) (v : value) :
  forall s, List.NoDup (map fst kvs) -> In (k, v) kvs ->
            store_get k (put_all kvs s) = Some v.
Proof.
  induction kvs as [|[k0 v0] kvs IH]; intros s Hnd Hin; [contradiction|].
  cbn [map fst] in Hnd. apply List.NoDup_cons_iff in Hnd as [Hnot Hnd].
  change (store_get k (put_all kvs (store_put k0 v0 s)) = Some v).
  destruct Hin as [E|Hin].
  - injection E as -> ->. rewrite put_all_get_other by exact Hnot.
    apply store_get_put_eq.
  - now apply IH.
Qed.

Lemma mapM_homeFlag (courseId : value) (items : objectStore) :
  keyed "id" items ->
  mapM (homeFlag courseId) (map snd items)
  = Ok (map (flagged courseId) (map snd items)).
Proof.
  induction 1 as [|[k v] items Hk _ IH]; [reflexivity|].
  cbn [fst snd] in Hk. destruct (keyed_object _ _ _ Hk) as [o ->].
  cbn [map snd mapM]. rewrite IH. reflexivity.
Qed.

Lemma flagged_keyed (courseId : value) (items : objectStore) :
  keyed "id" items ->
  keyed "id" (map (fun kv => (fst kv, flagged courseId (snd kv))) items).
Proof.
  induction 1 as [|[k v] items Hk _ IH]; [constructor|].
  cbn [map]. constructor; [|exact IH]. cbn [fst snd] in *.
  destruct (keyed_object _ _ _ Hk) as [o ->].
  unfold flagged. cbn [spread keyOf] in *. now rewrite obj_get_set_ne by discriminate.
Qed.

(** X21. [setHomeCourse(courseId)] rewrites every course of the hook
    list with [isHomeCourse] set to whether its id is [courseId], every
    other field as it was, and stores each of them: the flag is raised on
    the courses with that id and lowered on all the others, so an id that
    matches no course leaves no home course at all. The rounds, the hole
    scores and the other collections are untouched. *)
Theorem setHomeCourse_flags_by_id (courseId : value) (w : World) (s items : objectStore) :
  db w = true ->
  idb w !! "courses" = Some s ->
  courses w = map snd items ->
  keyed "id" items ->
  exists w',
    run (setHomeCourse courseId) w = (Ok tt, w') /\
    courses w' = map (flagged courseId) (courses w) /\
    (forall k c, In (k, c) items ->
       prop (flagged courseId c) "isHomeCourse"
         = Ok (VBool (strict_eq (key_value k) courseId)) /\
       (forall f, f <> "isHomeCourse" -> prop (flagged courseId c) f = prop c f)) /\
    (List.NoDup (map fst items) -> forall k c, In (k, c) items ->
       run (get "courses" (key_value k)) (idb w') = (Ok (flagged courseId c), idb w')) /\
    (forall c, c <> "courses" -> idb w' !! c = idb w !! c) /\
    rounds w' = rounds w /\ holeScores w' = holeScores w.
Proof.
  intros Hdb Hs Hcourses Hkeyed.
  pose (items' := map (fun kv => (fst kv, flagged courseId (snd kv))) items).
  assert (Hsnd : map snd items' = map (flagged courseId) (map snd items)).
  { unfold items'. rewrite !map_map. reflexivity. }
  eexists. split; [|split; [|split; [|split; [|split; [|split]]]]].
  - unfold setHomeCourse. rewrite run_bind. cbn [hookState run].
    rewrite run_bind. cbn [lift run]. rewrite Hcourses, (mapM_homeFlag courseId items Hkeyed).
    rewrite run_bind, <- Hsnd.
    rewrite (putEach_run "courses" items' (flagged_keyed courseId items Hkeyed) w s Hdb Hs).
    reflexivity.
  - cbn [setCourses run courses]. now rewrite Hsnd, Hcourses.
  - intros k c Hin.
    pose proof (proj1 (List.Forall_forall _ _) Hkeyed _ Hin) as Hk. cbn [fst snd] in Hk.
    destruct (keyed_object _ _ _ Hk) as [o ->].
    unfold flagged. cbn [spread prop]. split.
    + now rewrite obj_get_set_eq, (keyOf_id o k Hk).
    + intros f Hf. now rewrite obj_get_set_ne by congruence.
  - intros Hnd k c Hin. cbn [idb withIdb].
    rewrite (get_run "courses" _ _ k (lookup_insert_eq _ _ _)).
    rewrite (put_all_get items' k (flagged courseId c)); [reflexivity| |].
    + unfold items'. now rewrite map_map.
    + unfold items'. apply in_map_iff. now exists (k, c).
  - intros c Hc. cbn [idb withIdb]. now rewrite lookup_insert_ne by congruence.
  - reflexivity.
  - reflexivity.
Qed.

Lemma setHomeCourse_flags_by_id_witness :
  exists w',
    run (setHomeCourse (VStr "sample-course-1"))
        (loaded sample_db sample_courses sample_rounds sample_holes) = (Ok tt, w') /\
    run (get "courses" (VStr "sample-course-1")) (idb w')
      = (Ok (flagged (VStr "sample-course-1") sample_course), idb w') /\
    prop (flagged (VStr "sample-course-1") sample_course) "isHomeCourse" = Ok (VBool true).
Proof.
  destruct (setHomeCourse_flags_by_id (VStr "sample-course-1")
              (loaded sample_db sample_courses sample_rounds sample_holes)
              sample_courses sample_courses eq_refl eq_refl eq_refl)
    as (w' & Hrun & _ & Hflag & Hget & _).
  - repeat constructor.
  - exists w'. split; [exact Hrun|]. split.
    + apply (Hget ltac:(repeat constructor; simpl; tauto) (KStr "sample-course-1")).
      now left.
    + exact (proj1 (Hflag (KStr "sample-course-1") sample_course (or_introl eq_refl))).
Defined.

End HomeCourse.

(** ** Deleting a round *)

Section DeleteRound.
Import GolfDB useGolfData.

Lemma filterM_propIs (f : string) (v : value) (items : objectStore) :
  keyed "id" items ->
  filterM (propIs f v) (map snd items)
  = Ok (map snd (List.filter
                   (fun kv => strict_eq (obj_get (spread (snd kv)) f) v) items)).
Proof.
  induction 1 as [|[k x] items Hk _ IH]; [reflexivity|].
  cbn [fst snd] in Hk. destruct (keyed_object _ _ _ Hk) as [o ->].
  cbn [map snd filterM List.filter]. rewrite IH.
  unfold propIs. cbn [prop spread mbind result_bind mret result_ret].
  now destruct (strict_eq (obj_get o f) v).
Qed.

Lemma filterM_propIsNot (f : string) (v : value) (items : objectStore) :
  keyed "id" items ->
  filterM (propIsNot f v) (map snd items)
  = Ok (map snd (List.filter
                   (fun kv => negb (strict_eq (obj_get (spread (snd kv)) f) v)) items)).
Proof.
  induction 1 as [|[k x] items Hk _ IH]; [reflexivity|].
  cbn [fst snd] in Hk. destruct (keyed_object _ _ _ Hk) as [o ->].
  cbn [map snd filterM List.filter]. rewrite IH.
  unfold propIsNot. cbn [prop spread mbind result_bind mret result_ret].
  now destruct (strict_eq (obj_get o f) v).
Qed.

Lemma keyed_filter (path : string) (p : key * value -> bool) (items : objectStore) :
  keyed path items -> keyed path (List.filter p items).
Proof.
  induction 1 as [|kv items Hk _ IH]; [constructor|].
  cbn [List.filter]. destruct (p kv); [constructor; assumption|exact IH].
Qed.

Lemma delete_all_get_none (ks : list key) (k : key) :
  forall s, store_get k s = None -> store_get k (delete_all ks s) = None.
Proof.
  induction ks as [|k0 ks IH]; intros s Hs; [exact Hs|].
  change (store_get k (delete_all ks (store_delete k0 s)) = None).
  apply IH. destruct (key_compare k k0) eqn:E.
  - apply key_compare_eq in E. subst k0. apply store_get_delete_eq.
  - rewrite store_get_delete_ne; [exact Hs|].
    intros ->. rewrite key_compare_refl in E. discriminate.
  - rewrite store_get_delete_ne; [exact Hs|].
    intros ->. rewrite key_compare_refl in E. discriminate.
Qed.

Lemma delete_all_get_in (ks : list key) (k : key) :
  forall s, In k ks -> store_get k (delete_all ks s) = None.
Proof.
  induction ks as [|k0 ks IH]; intros s Hin; [contradiction|].
  change (store_get k (delete_all ks (store_delete k0 s)) = None).
  destruct Hin as [->|Hin]; [|now apply IH].
  apply delete_all_get_none, store_get_delete_eq.
Qed.

Lemma delete_all_get_other (ks : list key) (k : key) :
  forall s, ~ In k ks -> store_get k (delete_all ks s) = store_get k s.
Proof.
  induction ks as [|k0 ks IH]; intros s Hnot; [reflexivity|].
  change (store_get k (delete_all ks (store_delete k0 s)) = store_get k s).
  cbn [In] in Hnot. rewrite IH by tauto. apply store_get_delete_ne. intros ->. tauto.
Qed.

(** X22. [deleteRound(roundId)] deletes the round from the store and,
    of the hole scores, those that the hook list holds for that round:
    afterwards the store has no round under the id and no such hole
    score, the other rounds and the hole scores the hook list does not
    attribute to the round are as they were, and the two hook lists have
    lost exactly the entries of that round. No other collection is
    touched: online or offline, nothing is put on the sync queue. *)
Theorem deleteRound_removes_the_round_and_its_holes (k : key) (w : World)
    (rs hs ritems hitems : objectStore) :
  let ofRound := fun kv : key * value =>
    strict_eq (obj_get (spread (snd kv)) "roundId") (key_value k) in
  db w = true ->
  idb w !! "rounds" = Some rs ->
  idb w !! "holeScores" = Some hs ->
  rounds w = map snd ritems -> keyed "id" ritems ->
  holeScores w = map snd hitems -> keyed "id" hitems ->
  exists w',
    run (deleteRound (key_value k)) w = (Ok tt, w') /\
    run (get "rounds" (key_value k)) (idb w') = (Ok VUndef, idb w') /\
    (forall k', k' <> k ->
       fst (run (get "rounds" (key_value k')) (idb w'))
       = fst (run (get "rounds" (key_value k')) (idb w))) /\
    (forall kh h, In (kh, h) hitems -> ofRound (kh, h) = true ->
       run (get "holeScores" (key_value kh)) (idb w') = (Ok VUndef, idb w')) /\
    (forall kh, (forall h, In (kh, h) hitems -> ofRound (kh, h) = false) ->
       fst (run (get "holeScores" (key_value kh)) (idb w'))
       = fst (run (get "holeScores" (key_value kh)) (idb w))) /\
    (forall c, c <> "rounds" -> c <> "holeScores" -> idb w' !! c = idb w !! c) /\
    rounds w'
      = map snd (List.filter
                   (fun kv => negb (strict_eq (obj_get (spread (snd kv)) "id")
                                      (key_value k))) ritems) /\
    holeScores w' = map snd (List.filter (fun kv => negb (ofRound kv)) hitems) /\
    courses w' = courses w.
Proof.
  intros ofRound Hdb Hr Hh Hrounds Kr Hholes Kh.
  pose (d1 := <["rounds" := store_delete k rs]> (idb w)).
  pose (gone := map fst (List.filter ofRound hitems)).
  pose (d2 := <["holeScores" := delete_all gone hs]> d1).
  assert (Hh1 : d1 !! "holeScores" = Some hs).
  { unfold d1. now rewrite lookup_insert_ne by discriminate. }
  assert (Hr2 : d2 !! "rounds" = Some (store_delete k rs)).
  { unfold d2, d1. now rewrite lookup_insert_ne, lookup_insert_eq by discriminate. }
  eexists. split; [|split; [|split; [|split; [|split; [|split; [|split; [|split]]]]]]].
  - unfold deleteRound. rewrite run_bind. cbn [hookState run].
    rewrite run_bind, (onDb_run _ w Hdb), (delete_run "rounds" _ rs k Hr).
    cbn [fst snd]. fold d1.
    rewrite run_bind. cbn [lift run].
    rewrite Hholes, (filterM_propIs "roundId" (key_value k) hitems Kh). fold ofRound.
    rewrite run_bind.
    rewrite (deleteEach_run "holeScores" (List.filter ofRound hitems)
               (keyed_filter "id" ofRound hitems Kh) (withIdb d1 w) hs Hdb Hh1).
    cbn [idb withIdb]. fold gone. fold d2.
    rewrite run_bind. cbn [lift run].
    rewrite Hrounds, (filterM_propIsNot "id" (key_value k) ritems Kr).
    rewrite run_bind. cbn [setRounds run].
    rewrite run_bind. cbn [lift run].
    rewrite (filterM_propIsNot "roundId" (key_value k) hitems Kh). fold ofRound.
    reflexivity.
  - cbn [idb withIdb]. rewrite (get_run "rounds" d2 _ k Hr2). now rewrite store_get_delete_eq.
  - intros k' Hne. cbn [idb withIdb].
    rewrite (get_run "rounds" d2 _ k' Hr2), (get_run "rounds" (idb w) rs k' Hr).
    cbn [fst]. now rewrite store_get_delete_ne.
  - intros kh h Hin Hof. cbn [idb withIdb].
    rewrite (get_run "holeScores" d2 _ kh (lookup_insert_eq _ _ _)).
    rewrite delete_all_get_in; [reflexivity|].
    unfold gone. apply (in_map fst _ (kh, h)). apply filter_In. now split.
  - intros kh Hnone. cbn [idb withIdb].
    rewrite (get_run "holeScores" d2 _ kh (lookup_insert_eq _ _ _)),
      (get_run "holeScores" (idb w) hs kh Hh).
    cbn [fst]. rewrite delete_all_get_other; [reflexivity|].
    unfold gone. intros Hin. apply in_map_iff in Hin as ([kh' h] & E & Hin).
    cbn [fst] in E. subst kh'. apply filter_In in Hin as [Hin Hof].
    rewrite (Hnone h Hin) in Hof. discriminate.
  - intros c H1 H2. cbn [idb withIdb]. unfold d2, d1.
    now rewrite !lookup_insert_ne by congruence.
  - reflexivity.
  - reflexivity.
  - reflexivity.
Qed.

Lemma deleteRound_removes_the_round_and_its_holes_witness :
  exists w',
    run (deleteRound (VStr "round-123"))
        (loaded sample_db sample_courses sample_rounds sample_holes) = (Ok tt, w') /\
    run (get "rounds" (VStr "round-123")) (idb w') = (Ok VUndef, idb w') /\
    run (get "holeScores" (VStr "hole-round-123-1")) (idb w') = (Ok VUndef, idb w') /\
    rounds w' = [] /\ holeScores w' = [].
Proof.
  destruct (deleteRound_removes_the_round_and_its_holes (KStr "round-123")
              (loaded sample_db sample_courses sample_rounds sample_holes)
              sample_rounds sample_holes sample_rounds sample_holes
              eq_refl eq_refl eq_refl eq_refl)
    as (w' & Hrun & Hround & _ & Hhole & _ & _ & Hrs & Hhs & _).
  - repeat constructor.
  - reflexivity.
  - repeat constructor.
  - exists w'. split; [exact Hrun|]. split; [exact Hround|]. split.
    + apply (Hhole (KStr "hole-round-123-1") sample_hole); [now left|reflexivity].
    + split; [exact Hrs|exact Hhs].
Defined.

End DeleteRound.

(** ** Saving what a scorecard import produced *)

Section Scorecard.
Import GolfDB useGolfData.

Lemma addToSyncQueue_db (storeName operation data : value)
    (now : Z) (rnd : string) (now' : Z) (d : DB) :
  exists d',
    run (GolfDB.addToSyncQueue storeName operation data now rnd now') d = (Ok tt, d') /\
    (forall c, c <> "syncQueue" -> d' !! c = d !! c) /\
    (forall q : objectStore,
       d !! "syncQueue" = Some q -> store_get (syncKeyOf now rnd) q = None ->
       d' = <["syncQueue" := store_put (syncKeyOf now rnd)
                (syncItemOf storeName operation data now rnd now') q]> d).
Proof.
  pose (item := syncItemOf storeName operation data now rnd now').
  pose (k := syncKeyOf now rnd).
  unfold GolfDB.addToSyncQueue.
  fold (syncItemOf storeName operation data now rnd now'). fold item. fold k.
  assert (Hkey : keyOf (keyPath "syncQueue") item = Ok k) by reflexivity.
  destruct (d !! "syncQueue") as [q|] eqn:Hq.
  - destruct (store_get k q) as [v|] eqn:Hg.
    + exists d. split; [|split].
      * rewrite run_try_catch, run_bind.
        now rewrite (add_taken "syncQueue" item d q k v Hq Hkey Hg).
      * reflexivity.
      * intros q0 E0 E1. injection E0 as <-. congruence.
    + exists (<["syncQueue" := store_put k item q]> d). split; [|split].
      * rewrite run_try_catch, run_bind.
        assert (Hadd : run (add "syncQueue" item) d
                       = (Ok k, <["syncQueue" := store_put k item q]> d)).
        { apply add_Ok. now exists q. }
        now rewrite Hadd.
      * intros c Hc. now rewrite lookup_insert_ne by congruence.
      * intros q0 E0 _. now injection E0 as <-.
  - exists d. split; [|split].
    + rewrite run_try_catch, run_bind.
      now rewrite (add_missing "syncQueue" item d Hq).
    + reflexivity.
    + discriminate.
Qed.

Lemma addToSyncQueue_hook (storeName operation data : value)
    (now : Z) (rnd : string) (now' : Z) (w : World) (d' : DB) :
  db w = true ->
  run (GolfDB.addToSyncQueue storeName operation data now rnd now') (idb w) = (Ok tt, d') ->
  run (useGolfData.addToSyncQueue storeName operation data now rnd now') w
  = (Ok tt, withIdb d' w).
Proof.
  intros Hdb Hrun. unfold useGolfData.addToSyncQueue. cbn [run].
  rewrite Hdb. cbn [negb]. now rewrite run_try_catch, (onDb_run _ w Hdb), Hrun.
Qed.

Lemma importedRoundOf_key (ro : obj) (roundId courseId : value) (importDate : string) :
  keyOf "id" (importedRoundOf (VObj ro) roundId courseId importDate) = to_key roundId.
Proof.
  unfold importedRoundOf. cbn [keyOf spread].
  now rewrite !obj_get_set_ne, obj_get_set_eq by discriminate.
Qed.

(** X23. [saveRoundFromScorecard] stores the round under its own id,
    or under [round-<now>] when it has none, with the course id given,
    [imported] and [completed] set and every other field as it came, and
    returns it; afterwards the hook list of rounds is what [getAll]
    returns from the store. Online nothing else changes: no queue item is
    written. Offline the queue gains, when the generated id is free, one
    pending [put] item that carries the stored round. *)
Theorem saveRoundFromScorecard_stores_and_reloads (ro : obj) (courseId : value)
    (now : Z) (importDate : string) (qnow : Z) (rnd : string) (qnow' : Z)
    (w : World) (rs : objectStore) (k : key) :
  let roundId := js_or (obj_get ro "id") (VStr ("round-" +:+ pretty now)) in
  let saved := importedRoundOf (VObj ro) roundId courseId importDate in
  db w = true ->
  idb w !! "rounds" = Some rs ->
  to_key roundId = Ok k ->
  exists w',
    run (saveRoundFromScorecard (VObj ro) courseId now importDate qnow rnd qnow') w
      = (Ok saved, w') /\
    run (get "rounds" (key_value k)) (idb w') = (Ok saved, idb w') /\
    run (getAll "rounds") (idb w') = (Ok (rounds w'), idb w') /\
    (prop saved "id" = Ok roundId /\ prop saved "courseId" = Ok courseId /\
     prop saved "imported" = Ok (VBool true) /\
     prop saved "completed" = Ok (VBool true) /\
     forall f, f <> "id" -> f <> "courseId" -> f <> "imported" ->
               f <> "importDate" -> f <> "completed" ->
               prop saved f = prop (VObj ro) f) /\
    (forall c, c <> "rounds" -> c <> "syncQueue" -> idb w' !! c = idb w !! c) /\
    (isOnline w = true -> idb w' !! "syncQueue" = idb w !! "syncQueue") /\
    (isOnline w = false ->
     forall q : objectStore,
       idb w !! "syncQueue" = Some q -> store_get (syncKeyOf qnow rnd) q = None ->
       idb w' !! "syncQueue"
       = Some (store_put (syncKeyOf qnow rnd)
                 (syncItemOf (VStr "rounds") (VStr "put") saved qnow rnd qnow') q)) /\
    courses w' = courses w /\ holeScores w' = holeScores w.
Proof.
  intros roundId saved Hdb Hrs Hk.
  pose (d1 := <["rounds" := store_put k saved rs]> (idb w)).
  assert (Hkey : keyOf (keyPath "rounds") saved = Ok k).
  { unfold saved. change (keyPath "rounds") with "id".
    now rewrite importedRoundOf_key. }
  assert (Hfields :
    prop saved "id" = Ok roundId /\ prop saved "courseId" = Ok courseId /\
    prop saved "imported" = Ok (VBool true) /\
    prop saved "completed" = Ok (VBool true) /\
    forall f, f <> "id" -> f <> "courseId" -> f <> "imported" ->
              f <> "importDate" -> f <> "completed" ->
              prop saved f = prop (VObj ro) f).
  { unfold saved, importedRoundOf. cbn [prop spread].
    split; [now rewrite !obj_get_set_ne, obj_get_set_eq by discriminate|].
    split; [now rewrite !obj_get_set_ne, obj_get_set_eq by discriminate|].
    split; [now rewrite !obj_get_set_ne, obj_get_set_eq by discriminate|].
    split; [now rewrite obj_get_set_eq|].
    intros f H1 H2 H3 H4 H5. now rewrite !obj_get_set_ne by congruence. }
  assert (Hstart :
    run (saveRoundFromScorecard (VObj ro) courseId now importDate qnow rnd qnow') w
    = run ((if negb (isOnline w)
            then useGolfData.addToSyncQueue (VStr "rounds") (VStr "put") saved qnow rnd qnow'
            else mret tt) ;;
           newRounds ← onDb (getAll "rounds");
           setRounds newRounds ;;
           mret saved) (withIdb d1 w)).
  { unfold saveRoundFromScorecard. rewrite run_bind. cbn [hookState run].
    rewrite run_bind. cbn [lift run prop]. cbv zeta. fold roundId. fold saved.
    rewrite run_bind, (onDb_run _ w Hdb), (put_run "rounds" saved _ rs k Hrs Hkey).
    reflexivity. }
  rewrite Hstart. clear Hstart.
  destruct (isOnline w) eqn:Hon; cbn [negb].
  - exists (snd (run (setRounds (map snd (store_put k saved rs))) (withIdb d1 w))).
    split; [|split; [|split; [|split; [exact Hfields|split; [|split; [|split]]]]]].
    + rewrite run_bind. cbn [mret M_ret run].
      rewrite run_bind, (onDb_run _ (withIdb d1 w) Hdb).
      cbn [idb withIdb].
      rewrite (getAll_run "rounds" d1 _ (lookup_insert_eq _ _ _)).
      cbn [fst snd]. rewrite run_bind. reflexivity.
    + cbn [setRounds run snd idb withIdb].
      rewrite (get_run "rounds" d1 _ k (lookup_insert_eq _ _ _)).
      now rewrite store_get_put_eq.
    + cbn [setRounds run snd idb withIdb rounds].
      apply (getAll_run "rounds" d1 _ (lookup_insert_eq _ _ _)).
    + intros c H1 H2. cbn [setRounds run snd idb withIdb]. unfold d1.
      now rewrite lookup_insert_ne by congruence.
    + intros _. cbn [setRounds run snd idb withIdb]. unfold d1.
      now rewrite lookup_insert_ne by discriminate.
    + discriminate.
    + split; reflexivity.
  - destruct (addToSyncQueue_db (VStr "rounds") (VStr "put") saved qnow rnd qnow' d1)
      as (d2 & Hrun & Hother & Hfree).
    assert (Hr2 : d2 !! "rounds" = Some (store_put k saved rs)).
    { rewrite Hother by discriminate. apply lookup_insert_eq. }
    exists (snd (run (setRounds (map snd (store_put k saved rs))) (withIdb d2 w))).
    split; [|split; [|split; [|split; [exact Hfields|split; [|split; [|split]]]]]].
    + rewrite run_bind.
      rewrite (addToSyncQueue_hook _ _ _ _ _ _ (withIdb d1 w) d2 Hdb Hrun).
      rewrite run_bind, (onDb_run _ (withIdb d2 (withIdb d1 w)) Hdb).
      cbn [idb withIdb].
      rewrite (getAll_run "rounds" d2 _ Hr2).
      cbn [fst snd]. rewrite run_bind. reflexivity.
    + cbn [setRounds run snd idb withIdb].
      rewrite (get_run "rounds" d2 _ k Hr2). now rewrite store_get_put_eq.
    + cbn [setRounds run snd idb withIdb rounds].
      apply (getAll_run "rounds" d2 _ Hr2).
    + intros c H1 H2. cbn [setRounds run snd idb withIdb].
      rewrite (Hother c H2). unfold d1. now rewrite lookup_insert_ne by congruence.
    + discriminate.
    + intros _ q Hq Hg. cbn [setRounds run snd idb withIdb].
      assert (Hq1 : d1 !! "syncQueue" = Some q).
      { unfold d1. now rewrite lookup_insert_ne by discriminate. }
      rewrite (Hfree q Hq1 Hg). apply lookup_insert_eq.
    + split; reflexivity.
Qed.

Lemma saveRoundFromScorecard_stores_and_reloads_witness :
  let w := world_of (<["rounds" := []]> queued_db) idle in
  exists w',
    run (saveRoundFromScorecard (VObj [("totalScore", VNum 80)]) (VStr "course-1")
           2000 "2025-01-01T00:00:00.000Z" 2001 "0.25" 2001) w
      = (Ok (importedRoundOf (VObj [("totalScore", VNum 80)]) (VStr "round-2000")
               (VStr "course-1") "2025-01-01T00:00:00.000Z"), w') /\
    idb w' !! "syncQueue" = idb w !! "syncQueue".
Proof.
  intros w.
  destruct (saveRoundFromScorecard_stores_and_reloads [("totalScore", VNum 80)]
              (VStr "course-1") 2000 "2025-01-01T00:00:00.000Z" 2001 "0.25" 2001
              w [] (KStr "round-2000") eq_refl (lookup_insert_eq _ _ _) eq_refl)
    as (w' & Hrun & _ & _ & _ & _ & Hon & _).
  exists w'. split; [exact Hrun|]. now apply Hon.
Defined.

Lemma importedCourseOf_key (co : obj) (courseId : value) (importDate : string)
    (first : bool) :
  keyOf "id" (importedCourseOf (VObj co) courseId importDate first) = to_key courseId.
Proof.
  unfold importedCourseOf. cbn [keyOf spread].
  now rewrite !obj_get_set_ne, obj_get_set_eq by discriminate.
Qed.

(** X24. [importCourseFromScorecard] stores the course under its own
    id, or under [course-<now>] when it has none, and appends it to the
    hook list without reading the store back. It is the home course
    exactly when the hook list was empty. Importing a course whose id is
    already stored replaces the stored record, so the store keeps its
    size while the hook list still grows by one. Online no queue item is
    written. *)
Theorem importCourseFromScorecard_appends (co : obj)
    (now : Z) (importDate : string) (qnow : Z) (rnd : string) (qnow' : Z)
    (w : World) (cs : objectStore) (k : key) :
  let courseId := js_or (obj_get co "id") (VStr ("course-" +:+ pretty now)) in
  let first := match courses w with [] => true | _ => false end in
  let saved := importedCourseOf (VObj co) courseId importDate first in
  db w = true ->
  idb w !! "courses" = Some cs ->
  to_key courseId = Ok k ->
  exists w',
    run (importCourseFromScorecard (VObj co) now importDate qnow rnd qnow') w
      = (Ok saved, w') /\
    courses w' = courses w ++ [saved] /\
    prop saved "isHomeCourse" = Ok (VBool first) /\
    prop saved "id" = Ok courseId /\
    idb w' !! "courses" = Some (store_put k saved cs) /\
    (ascending cs -> forall old, store_get k cs = Some old ->
       length (store_put k saved cs) = length cs /\
       length (courses w') = S (length (courses w))) /\
    (forall c, c <> "courses" -> c <> "syncQueue" -> idb w' !! c = idb w !! c) /\
    (isOnline w = true -> idb w' !! "syncQueue" = idb w !! "syncQueue") /\
    rounds w' = rounds w /\ holeScores w' = holeScores w.
Proof.
  intros courseId first saved Hdb Hcs Hk.
  pose (d1 := <["courses" := store_put k saved cs]> (idb w)).
  assert (Hkey : keyOf (keyPath "courses") saved = Ok k).
  { unfold saved. change (keyPath "courses") with "id".
    now rewrite importedCourseOf_key. }
  assert (Hhome : prop saved "isHomeCourse" = Ok (VBool first)).
  { unfold saved, importedCourseOf. cbn [prop spread]. now rewrite obj_get_set_eq. }
  assert (Hid : prop saved "id" = Ok courseId).
  { unfold saved, importedCourseOf. cbn [prop spread].
    now rewrite !obj_get_set_ne, obj_get_set_eq by discriminate. }
  assert (Hsize : ascending cs -> forall old, store_get k cs = Some old ->
            length (store_put k saved cs) = length cs /\
            length (courses w ++ [saved]) = S (length (courses w))).
  { intros Hasc old Hold. split.
    - rewrite (store_put_length k saved cs Hasc). now rewrite Hold.
    - rewrite length_app. cbn [length]. lia. }
  assert (Hstart :
    run (importCourseFromScorecard (VObj co) now importDate qnow rnd qnow') w
    = run ((if negb (isOnline w)
            then useGolfData.addToSyncQueue (VStr "courses") (VStr "put") saved qnow rnd qnow'
            else mret tt) ;;
           setCourses (courses w ++ [saved]) ;;
           mret saved) (withIdb d1 w)).
  { unfold importCourseFromScorecard. rewrite run_bind. cbn [hookState run].
    rewrite run_bind. cbn [lift run prop]. cbv zeta.
    fold courseId. fold first. fold saved.
    rewrite run_bind, (onDb_run _ w Hdb), (put_run "courses" saved _ cs k Hcs Hkey).
    reflexivity. }
  rewrite Hstart. clear Hstart.
  destruct (isOnline w) eqn:Hon; cbn [negb].
  - exists (snd (run (setCourses (courses w ++ [saved])) (withIdb d1 w))).
    split; [|split; [|split; [exact Hhome|split; [exact Hid|split; [|split;
      [exact Hsize|split; [|split; [|split]]]]]]]].
    + rewrite run_bind. cbn [mret M_ret run]. rewrite run_bind. reflexivity.
    + reflexivity.
    + cbn [setCourses run snd idb withIdb]. apply lookup_insert_eq.
    + intros c H1 H2. cbn [setCourses run snd idb withIdb]. unfold d1.
      now rewrite lookup_insert_ne by congruence.
    + intros _. cbn [setCourses run snd idb withIdb]. unfold d1.
      now rewrite lookup_insert_ne by discriminate.
    + reflexivity.
    + reflexivity.
  - destruct (addToSyncQueue_db (VStr "courses") (VStr "put") saved qnow rnd qnow' d1)
      as (d2 & Hrun & Hother & _).
    exists (snd (run (setCourses (courses w ++ [saved])) (withIdb d2 w))).
    split; [|split; [|split; [exact Hhome|split; [exact Hid|split; [|split;
      [exact Hsize|split; [|split; [|split]]]]]]]].
    + rewrite run_bind.
      rewrite (addToSyncQueue_hook _ _ _ _ _ _ (withIdb d1 w) d2 Hdb Hrun).
      rewrite run_bind. reflexivity.
    + reflexivity.
    + cbn [setCourses run snd idb withIdb].
      rewrite Hother by discriminate. apply lookup_insert_eq.
    + intros c H1 H2. cbn [setCourses run snd idb withIdb].
      rewrite (Hother c H2). unfold d1. now rewrite lookup_insert_ne by congruence.
    + discriminate.
    + reflexivity.
    + reflexivity.
Qed.

Lemma importCourseFromScorecard_appends_witness :
  let w := loaded sample_db sample_courses sample_rounds sample_holes in
  exists w',
    fst (run (importCourseFromScorecard sample_course
                2000 "2025-01-01T00:00:00.000Z" 2001 "0.25" 2001) w)
      = Ok (importedCourseOf sample_course (VStr "sample-course-1")
              "2025-01-01T00:00:00.000Z" false) /\
    snd (run (importCourseFromScorecard sample_course
                2000 "2025-01-01T00:00:00.000Z" 2001 "0.25" 2001) w) = w' /\
    length (courses w') = 2%nat /\
    exists cs', idb w' !! "courses" = Some cs' /\ length cs' = 1%nat.
Proof.
  intros w.
  destruct (importCourseFromScorecard_appends
              (spread sample_course) 2000 "2025-01-01T00:00:00.000Z" 2001 "0.25" 2001
              w sample_courses (KStr "sample-course-1") eq_refl eq_refl eq_refl)
    as (w' & Hrun & Hlist & _ & _ & Hstore & Hsize & _).
  destruct (Hsize ltac:(repeat constructor) sample_course eq_refl) as [Hs Hl].
  exists w'. split; [|split; [|split]].
  - change sample_course with (VObj (spread sample_course)). now rewrite Hrun.
  - change sample_course with (VObj (spread sample_course)). now rewrite Hrun.
  - exact Hl.
  - eexists. split; [exact Hstore|exact Hs].
Defined.

End Scorecard.

(** * The mock course of GolfCourseAPI *)

Section MockCourse.
Import GolfCourseAPI.

Lemma byThird_cases (i a b c : Z) :
  0 <= i ->
  (Z.rem i 3 = 0 /\ byThird i a b c = a) \/
  (Z.rem i 3 = 1 /\ byThird i a b c = b) \/
  (Z.rem i 3 = 2 /\ byThird i a b c = c).
Proof.
  intros Hi. unfold byThird.
  pose proof (Z.rem_bound_pos i 3 Hi ltac:(lia)) as Hb.
  destruct (Z.eqb_spec (Z.rem i 3) 0) as [E0|N0]; [now left|].
  destruct (Z.eqb_spec (Z.rem i 3) 1) as [E1|N1]; [right; now left|].
  right; right. split; [lia|reflexivity].
Qed.

(** X25. The mock course is a regulation course. It has 18 holes and a
    par of 72; every hole has a par of 3, 4 or 5 and tees that get longer
    from forward to regular to championship; and the handicap indexes of
    the 18 holes are 18 different numbers from 1 to 18. *)
Theorem mock_course_is_regulation :
  length mockHoles = 18%nat /\
  mockPar = Ok (VNum 72) /\
  (forall i, 0 <= i ->
     exists p h y f r c,
       prop (mockHole i) "number" = Ok (VNum (i + 1)) /\
       prop (mockHole i) "par" = Ok (VNum p) /\ 3 <= p <= 5 /\
       prop (mockHole i) "handicap" = Ok (VNum h) /\ 1 <= h <= 18 /\
       prop (mockHole i) "yardages" = Ok y /\
       prop y "forward" = Ok (VNum f) /\ prop y "regular" = Ok (VNum r) /\
       prop y "championship" = Ok (VNum c) /\ 0 < f < r /\ r < c) /\
  (forall i j, 0 <= i < 18 -> 0 <= j < 18 ->
     prop (mockHole i) "handicap" = prop (mockHole j) "handicap" -> i = j).
Proof.
  split; [reflexivity|]. split; [reflexivity|]. split.
  - intros i Hi.
    pose proof (Z.rem_bound_pos (i * 7) 18 ltac:(lia) ltac:(lia)) as Hh.
    eexists _, _, _, _, _, _. unfold mockHole. cbn [prop obj_get String.eqb Ascii.eqb Bool.eqb].
    split; [reflexivity|]. split; [reflexivity|].
    split; [destruct (byThird_cases i 3 4 5 Hi) as [[_ ->]|[[_ ->]|[_ ->]]]; lia|].
    split; [reflexivity|]. split; [lia|]. split; [reflexivity|].
    split; [reflexivity|]. split; [reflexivity|]. split; [reflexivity|].
    unfold byThird.
    destruct (Z.rem i 3 =? 0); [lia|]. destruct (Z.rem i 3 =? 1); lia.
  - intros i j Hi Hj.
    assert (Ei : i = 0 \/ i = 1 \/ i = 2 \/ i = 3 \/ i = 4 \/ i = 5 \/ i = 6 \/ i = 7 \/
                 i = 8 \/ i = 9 \/ i = 10 \/ i = 11 \/ i = 12 \/ i = 13 \/ i = 14 \/
                 i = 15 \/ i = 16 \/ i = 17) by lia.
    assert (Ej : j = 0 \/ j = 1 \/ j = 2 \/ j = 3 \/ j = 4 \/ j = 5 \/ j = 6 \/ j = 7 \/
                 j = 8 \/ j = 9 \/ j = 10 \/ j = 11 \/ j = 12 \/ j = 13 \/ j = 14 \/
                 j = 15 \/ j = 16 \/ j = 17) by lia.
    clear Hi Hj.
    repeat (destruct Ei as [->|Ei]); try subst i;
      repeat (destruct Ej as [->|Ej]); try subst j;
      first [reflexivity | intros H; vm_compute in H; discriminate H].
Qed.

End MockCourse.

Lemma mock_course_is_regulation_witness :
  exists p, prop (GolfCourseAPI.mockHole 4) "par" = Ok (VNum p) /\ 3 <= p <= 5.
Proof.
  destruct (proj1 (proj2 (proj2 mock_course_is_regulation)) 4 ltac:(lia))
    as (p & h & y & f & r & c & _ & Hp & Hb & _).
  exists p. split; assumption.
Defined.

(** * Resolutions that write *)

Section ResolutionMore.
Import GolfDB.

(** X26. The [merge] resolution stamps what it stores: whatever the
    rules say, also about these two fields, the stored entity has
    [lastModified] at the clock reading and [synced = false]. A field no
    rule names is the local one and a field under [use_remote] or
    [latest] is the remote one. The rules must leave the key alone. *)
Theorem merge_resolution_is_stamped (c type : string) (lo ro rules : obj)
    (now now' : Z) (d : DB) (s : objectStore) (k : key) :
  d !! c = Some s ->
  keyOf (keyPath c) (VObj lo) = Ok k ->
  List.NoDup (map fst rules) ->
  ~ In (keyPath c) (map fst rules) ->
  exists stored d',
    run (resolveConflict c (conflictOf type (VObj lo) (VObj ro))
           {| strategy := VStr "merge"; mergeRules := VObj rules |} now now') d
      = (Ok tt, d') /\
    run (get c (key_value k)) d' = (Ok stored, d') /\
    prop stored "lastModified" = Ok (VNum now) /\
    prop stored "synced" = Ok (VBool false) /\
    (forall f, ~ In f (map fst rules) -> f <> "lastModified" -> f <> "synced" ->
       prop stored f = prop (VObj lo) f) /\
    (forall f rule, In (f, rule) rules ->
       rule = VStr "use_remote" \/ rule = VStr "latest" ->
       f <> "lastModified" -> f <> "synced" ->
       prop stored f = prop (VObj ro) f) /\
    (forall c', c' <> c -> d' !! c' = d !! c').
Proof.
  intros Hs Hk Hnd Hkeyfree.
  destruct (merge_loop lo ro rules lo) as (merged & Hfold & Hkeep & Hrule).
  pose (stored := touched (VObj merged) now).
  assert (Hkey : keyOf (keyPath c) stored = Ok k).
  { unfold stored. rewrite keyOf_touched.
    cbn [keyOf] in *. now rewrite (Hkeep _ Hkeyfree). }
  exists stored, (<[c := store_put k stored s]> d).
  split; [|split; [|split; [|split; [|split; [|split]]]]].
  - unfold resolveConflict, conflictOf. rewrite run_bind. cbn [lift run prop].
    rewrite run_bind. cbn [lift run prop]. cbn [strategy mergeRules].
    change (strict_eq (VStr "merge") (VStr "use_local")) with false.
    change (strict_eq (VStr "merge") (VStr "use_remote")) with false.
    change (strict_eq (VStr "merge") (VStr "merge")) with true.
    cbv iota.
    change (obj_get [("type", VStr type); ("local", VObj lo); ("remote", VObj ro)] "local")
      with (VObj lo).
    change (obj_get [("type", VStr type); ("local", VObj lo); ("remote", VObj ro)] "remote")
      with (VObj ro).
    assert (E : mergeData c (VObj lo) (VObj ro) (VObj rules) = Ok (VObj merged)).
    { unfold mergeData. cbn [js_or truthy entries spread mbind result_bind].
      now rewrite Hfold. }
    rewrite run_bind. cbn [lift run]. rewrite E.
    rewrite run_bind. fold stored. now rewrite (put_run c stored d s k Hs Hkey).
  - rewrite (get_run c _ _ k (lookup_insert_eq _ _ _)). now rewrite store_get_put_eq.
  - unfold stored, touched. cbn [prop spread].
    now rewrite obj_get_set_ne, obj_get_set_eq by discriminate.
  - unfold stored, touched. cbn [prop spread]. now rewrite obj_get_set_eq.
  - intros f Hf H1 H2. unfold stored, touched. cbn [prop spread].
    rewrite !obj_get_set_ne by congruence. now rewrite (Hkeep f Hf).
  - intros f rule Hin Hr H1 H2. unfold stored, touched. cbn [prop spread].
    rewrite !obj_get_set_ne by congruence. rewrite (Hrule Hnd f rule Hin).
    destruct Hr as [-> | ->]; reflexivity.
  - intros c' Hc'. now rewrite lookup_insert_ne by congruence.
Qed.

Lemma merge_resolution_is_stamped_witness :
  exists stored d',
    run (resolveConflict "courses"
           (conflictOf "server_newer" (VObj course1) (VObj course1_remote))
           {| strategy := VStr "merge";
              mergeRules := VObj [("lastModified", VStr "use_remote")] |} 300 300)
        courses_db = (Ok tt, d') /\
    run (get "courses" (VStr "course-1")) d' = (Ok stored, d') /\
    prop stored "lastModified" = Ok (VNum 300).
Proof.
  destruct (merge_resolution_is_stamped "courses" "server_newer" course1 course1_remote
              [("lastModified", VStr "use_remote")] 300 300 courses_db
              [(KStr "course-1", VObj course1)] (KStr "course-1") eq_refl eq_refl)
    as (stored & d' & Hrun & Hget & Hstamp & _).
  - repeat constructor. simpl. tauto.
  - simpl. intros [H|[]]. discriminate H.
  - exists stored, d'. repeat split; assumption.
Defined.

End ResolutionMore.

Section HookResolution.
Import GolfDB useGolfData.

(** X27. [resolveConflict] of the hook, on a stored conflict whose
    remote entity is there, with [use_remote]: the remote entity is
    stored with [synced = true] and every other field as the server sent
    it (its [lastModified] is not stamped), the record leaves the
    [conflicts] collection, and the pending conflicts of the hook are
    read again from the store. Without a database handle the call does
    nothing. *)
Theorem hook_use_remote_clears_the_pending_conflict (kc k : key) (record local : value)
    (ro : obj) (c type : string) (rules : value) (now now' : Z)
    (w : World) (cs s : objectStore) :
  let res := {| strategy := VStr "use_remote"; mergeRules := rules |} in
  (db w = false -> run (resolveConflict (key_value kc) res now now') w = (Ok tt, w)) /\
  (db w = true ->
   idb w !! "conflicts" = Some cs ->
   store_get kc cs = Some record ->
   prop record "storeName" = Ok (VStr c) ->
   prop record "conflict" = Ok (conflictOf type local (VObj ro)) ->
   c <> "conflicts" ->
   idb w !! c = Some s ->
   keyOf (keyPath c) (VObj ro) = Ok k ->
   exists w',
     run (resolveConflict (key_value kc) res now now') w = (Ok tt, w') /\
     run (get c (key_value k)) (idb w') = (Ok (accepted (VObj ro)), idb w') /\
     prop (accepted (VObj ro)) "synced" = Ok (VBool true) /\
     (forall f, f <> "synced" -> prop (accepted (VObj ro)) f = prop (VObj ro) f) /\
     run (get "conflicts" (key_value kc)) (idb w') = (Ok VUndef, idb w') /\
     run getPendingConflicts (idb w') = (Ok (pendingConflicts w'), idb w') /\
     pendingConflicts w' = map snd (store_delete kc cs)).
Proof.
  intros res. split.
  - intros Hdb. unfold resolveConflict. cbn [run]. now rewrite Hdb.
  - intros Hdb Hcs Hg Hname Hinner Hc Hs Hk.
    pose (d1 := <[c := store_put k (accepted (VObj ro)) s]> (idb w)).
    pose (d2 := <["conflicts" := store_delete kc cs]> d1).
    assert (Hcs1 : d1 !! "conflicts" = Some cs).
    { unfold d1. now rewrite lookup_insert_ne by congruence. }
    destruct (use_remote_accepts c type local ro rules now now' (idb w) s k Hs Hk)
      as [Hres Hsynced].
    destruct (resolveStoredConflict_clears (idb w) d1 cs cs kc record _ c res now now'
                Hcs Hg Hname Hinner Hres Hcs1) as [Hstored Hgone].
    fold d2 in Hstored, Hgone.
    exists (withPendingConflicts (pendingOf d2) (withIdb d2 w)).
    split; [|split; [|split; [exact Hsynced|split; [|split; [exact Hgone|split]]]]].
    + unfold resolveConflict. cbn [run]. rewrite Hdb. cbn [negb].
      rewrite run_try_catch, run_bind, (onDb_run _ w Hdb), Hstored. cbn [fst snd].
      change loadPendingConflicts with checkForConflicts.
      now rewrite (checkForConflicts_eq (withIdb d2 w) Hdb).
    + cbn [idb withPendingConflicts withIdb].
      assert (H2 : d2 !! c = Some (store_put k (accepted (VObj ro)) s)).
      { unfold d2, d1. now rewrite lookup_insert_ne, lookup_insert_eq by congruence. }
      rewrite (get_run c d2 _ k H2). now rewrite store_get_put_eq.
    + intros f Hf. unfold accepted. cbn [prop spread].
      now rewrite obj_get_set_ne by congruence.
    + cbn [idb pendingConflicts withPendingConflicts withIdb].
      apply getPendingConflicts_eq.
    + cbn [pendingConflicts withPendingConflicts]. unfold pendingOf, d2.
      now rewrite lookup_insert_eq.
Qed.

Lemma hook_use_remote_clears_the_pending_conflict_witness :
  let record := conflictRecordOf "courses"
                  (conflictOf "server_newer" (VObj course1) (VObj course1_remote)) 1 1 in
  let w := world_of (<["conflicts" := [(KStr "conflict-1", record)]]> courses_db) idle in
  exists w',
    run (resolveConflict (VStr "conflict-1") use_remote 2 2) w = (Ok tt, w') /\
    run (get "courses" (VStr "course-1")) (idb w')
      = (Ok (accepted (VObj course1_remote)), idb w') /\
    pendingConflicts w' = [].
Proof.
  intros record w.
  destruct (proj2 (hook_use_remote_clears_the_pending_conflict
                     (KStr "conflict-1") (KStr "course-1") record (VObj course1)
                     course1_remote "courses" "server_newer" VUndef 2 2 w
                     [(KStr "conflict-1", record)] [(KStr "course-1", VObj course1)])
              eq_refl (lookup_insert_eq _ _ _) eq_refl eq_refl eq_refl
              ltac:(discriminate) eq_refl eq_refl)
    as (w' & Hrun & Hget & _ & _ & _ & _ & Hpending).
  exists w'. repeat split; assumption.
Defined.

End HookResolution.

(** ** Saving a round that was played *)

Section SaveRound.
Import GolfDB useGolfData.

Lemma withIdb_withIdb (d d' : DB) (w : World) :
  withIdb d (withIdb d' w) = withIdb d w.
Proof. reflexivity. Qed.

Lemma holeScores_run (roundId : string) (holes : list value) (items : objectStore) :
  mapM (holeScoreOf roundId) holes = Ok (map snd items) ->
  keyed "id" items ->
  forall (w : World) (s : objectStore),
    db w = true ->
    idb w !! "holeScores" = Some s ->
    run (for_of holes (fun hole =>
           holeScore ← lift (holeScoreOf roundId hole);
           onDb (put "holeScores" holeScore) ;; mret tt)) w
    = (Ok tt, withIdb (<["holeScores" := put_all items s]> (idb w)) w).
Proof.
  revert items. induction holes as [|hole holes IH]; intros items Hmap Hkeyed w s Hdb Hs.
  - destruct items; [|discriminate]. cbn [for_of put_all fold_left mret M_ret run].
    rewrite insert_id by exact Hs. now rewrite withIdb_id.
  - cbn [mapM] in Hmap.
    destruct (holeScoreOf roundId hole) as [y|e] eqn:Ey; [|discriminate].
    cbn [mbind result_bind] in Hmap.
    destruct (mapM (holeScoreOf roundId) holes) as [ys|e] eqn:Eys; [|discriminate].
    cbn [mbind result_bind mret result_ret] in Hmap.
    destruct items as [|[k v] items]; [discriminate|].
    cbn [map snd] in Hmap. injection Hmap as -> ->.
    apply List.Forall_cons_iff in Hkeyed as [Hk Hkeyed]. cbn [fst snd] in Hk.
    cbn [for_of]. rewrite run_bind, run_bind. cbn [lift run]. rewrite Ey.
    rewrite run_bind, (onDb_run _ w Hdb), (put_run "holeScores" v _ s k Hs Hk).
    cbn [fst snd mret M_ret run].
    rewrite (IH items eq_refl Hkeyed
               (withIdb (<["holeScores" := store_put k v s]> (idb w)) w)
               (store_put k v s) Hdb (lookup_insert_eq _ _ _)).
    cbn [idb withIdb put_all fold_left fst snd]. now rewrite insert_insert_eq.
Qed.

(** The enqueues of an offline save write to the queue only. *)
Lemma enqueue_loop (roundId : string) (readings : nat -> Z * string * Z)
    (holes : list value) :
  forall (scores : list value) (i : nat) (w : World),
    mapM (holeScoreOf roundId) holes = Ok scores ->
    db w = true ->
    exists d',
      run (for_ofi i holes (fun i hole =>
             holeScore ← lift (holeScoreOf roundId hole);
             useGolfData.addToSyncQueue (VStr "holeScores") (VStr "put") holeScore
               (fst (fst (readings i))) (snd (fst (readings i))) (snd (readings i)))) w
      = (Ok tt, withIdb d' w) /\
      forall c, c <> "syncQueue" -> d' !! c = idb w !! c.
Proof.
  induction holes as [|hole holes IH]; intros scores i w Hmap Hdb.
  - exists (idb w). split; [|reflexivity].
    cbn [for_ofi mret M_ret run]. now rewrite withIdb_id.
  - cbn [mapM] in Hmap.
    destruct (holeScoreOf roundId hole) as [y|e] eqn:Ey; [|discriminate].
    cbn [mbind result_bind] in Hmap.
    destruct (mapM (holeScoreOf roundId) holes) as [ys|e] eqn:Eys; [|discriminate].
    destruct (addToSyncQueue_db (VStr "holeScores") (VStr "put") y
                (fst (fst (readings i))) (snd (fst (readings i))) (snd (readings i))
                (idb w)) as (d1 & Hrun & Hother & _).
    destruct (IH ys (S i) (withIdb d1 w) eq_refl Hdb) as (d2 & Hloop & Hother2).
    exists d2. split.
    + cbn [for_ofi]. rewrite run_bind, run_bind. cbn [lift run]. rewrite Ey.
      rewrite (addToSyncQueue_hook _ _ _ _ _ _ w d1 Hdb Hrun).
      rewrite Hloop. reflexivity.
    + intros c Hc. rewrite (Hother2 c Hc). cbn [idb withIdb]. now apply Hother.
Qed.

Lemma roundOf_stamped (roundData roundId courseId : value) (now2 : Z) :
  prop (roundOf roundData roundId courseId now2) "completed" = Ok (VBool true) /\
  prop (roundOf roundData roundId courseId now2) "imported" = Ok (VBool false) /\
  prop (roundOf roundData roundId courseId now2) "lastModified" = Ok (VNum now2).
Proof.
  unfold roundOf. cbn [prop].
  split; [now rewrite !obj_get_set_ne, obj_get_set_eq by discriminate|].
  split; [now rewrite !obj_get_set_ne, obj_get_set_eq by discriminate|].
  now rewrite obj_get_set_eq.
Qed.

(** X28. [saveRound] stores the round and then one hole score for each
    element of [roundData.holeScores], and afterwards the two hook lists
    are what [getAll] returns from the two collections. The stored round
    is always [completed], not [imported] and stamped with the second
    clock reading, whatever [roundData] says about these fields. No
    collection but [rounds], [holeScores] and the queue changes, and
    online the queue does not change either. *)
Theorem saveRound_stores_round_and_holes (roundData selectedCourse courseId : value)
    (now now2 : Z) (readings : nat -> Z * string * Z) (w : World)
    (rs hs items : objectStore) (holes : list value) (k : key) :
  let roundId := "round-" +:+ pretty now in
  let round := roundOf roundData (VStr roundId) courseId now2 in
  db w = true ->
  idb w !! "rounds" = Some rs ->
  idb w !! "holeScores" = Some hs ->
  prop selectedCourse "id" = Ok courseId ->
  keyOf "id" round = Ok k ->
  (v ← prop roundData "holeScores"; iterate v) = Ok holes ->
  mapM (holeScoreOf roundId) holes = Ok (map snd items) ->
  keyed "id" items ->
  exists w',
    run (saveRound roundData selectedCourse now now2 readings) w = (Ok tt, w') /\
    idb w' !! "rounds" = Some (store_put k round rs) /\
    idb w' !! "holeScores" = Some (put_all items hs) /\
    rounds w' = map snd (store_put k round rs) /\
    holeScores w' = map snd (put_all items hs) /\
    (prop round "completed" = Ok (VBool true) /\
     prop round "imported" = Ok (VBool false) /\
     prop round "lastModified" = Ok (VNum now2)) /\
    (forall c, c <> "rounds" -> c <> "holeScores" -> c <> "syncQueue" ->
       idb w' !! c = idb w !! c) /\
    (isOnline w = true -> idb w' !! "syncQueue" = idb w !! "syncQueue") /\
    courses w' = courses w.
Proof.
  intros roundId round Hdb Hrs Hhs Hcid Hk Hholes Hmap Hkeyed.
  pose (d1 := <["rounds" := store_put k round rs]> (idb w)).
  pose (d2 := <["holeScores" := put_all items hs]> d1).
  assert (Hhs1 : d1 !! "holeScores" = Some hs).
  { unfold d1. now rewrite lookup_insert_ne by discriminate. }
  assert (Hr2 : d2 !! "rounds" = Some (store_put k round rs)).
  { unfold d2, d1. now rewrite lookup_insert_ne, lookup_insert_eq by discriminate. }
  assert (Hh2 : d2 !! "holeScores" = Some (put_all items hs)).
  { unfold d2. apply lookup_insert_eq. }
  assert (Hend : forall d3 : DB,
            d3 !! "rounds" = Some (store_put k round rs) ->
            d3 !! "holeScores" = Some (put_all items hs) ->
            run (newRounds ← onDb (getAll "rounds");
                 newHoles ← onDb (getAll "holeScores");
                 setRounds newRounds ;; setHoleScores newHoles) (withIdb d3 w)
            = (Ok tt,
               snd (run (setRounds (map snd (store_put k round rs)) ;;
                         setHoleScores (map snd (put_all items hs))) (withIdb d3 w)))).
  { intros d3 H1 H2.
    rewrite run_bind, (onDb_run _ (withIdb d3 w) Hdb). cbn [idb withIdb].
    rewrite (getAll_run "rounds" d3 _ H1). cbn [fst snd].
    rewrite run_bind.
    rewrite (onDb_run _ (withIdb d3 (withIdb d3 w)) Hdb). cbn [idb withIdb].
    rewrite (getAll_run "holeScores" d3 _ H2). cbn [fst snd].
    reflexivity. }
  assert (Hstart :
    run (saveRound roundData selectedCourse now now2 readings) w
    = run ((if negb (isOnline w)
            then
              useGolfData.addToSyncQueue (VStr "rounds") (VStr "put") round
                (fst (fst (readings O))) (snd (fst (readings O))) (snd (readings O)) ;;
              holes ← lift (v ← prop roundData "holeScores"; iterate v);
              for_ofi 1 holes (fun i hole =>
                holeScore ← lift (holeScoreOf roundId hole);
                useGolfData.addToSyncQueue (VStr "holeScores") (VStr "put") holeScore
                  (fst (fst (readings i))) (snd (fst (readings i))) (snd (readings i)))
            else mret tt) ;;
           newRounds ← onDb (getAll "rounds");
           newHoles ← onDb (getAll "holeScores");
           setRounds newRounds ;; setHoleScores newHoles) (withIdb d2 w)).
  { unfold saveRound. rewrite run_bind. cbn [hookState run]. cbv zeta.
    rewrite run_bind. cbn [lift run]. rewrite Hcid.
    fold roundId. fold round.
    rewrite run_bind, (onDb_run _ w Hdb).
    change (keyOf "id" round = Ok k) with (keyOf (keyPath "rounds") round = Ok k) in Hk.
    rewrite (put_run "rounds" round _ rs k Hrs Hk). cbn [fst snd]. fold d1.
    rewrite run_bind. cbn [lift run]. rewrite Hholes.
    rewrite run_bind.
    rewrite (holeScores_run roundId holes items Hmap Hkeyed (withIdb d1 w) hs Hdb Hhs1).
    cbn [idb withIdb]. fold d2. reflexivity. }
  rewrite Hstart. clear Hstart.
  destruct (isOnline w) eqn:Hon; cbn [negb].
  - eexists. split.
    + rewrite run_bind. cbn [mret M_ret run]. apply (Hend d2 Hr2 Hh2).
    + cbn [setRounds setHoleScores run snd idb withIdb rounds holeScores courses].
      rewrite run_bind.
      cbn [setRounds setHoleScores run snd idb withIdb rounds holeScores courses].
      split; [exact Hr2|]. split; [exact Hh2|]. split; [reflexivity|].
      split; [reflexivity|]. split; [apply roundOf_stamped|]. split.
      * intros c H1 H2 _. unfold d2, d1. now rewrite !lookup_insert_ne by congruence.
      * split; [|reflexivity]. intros _. unfold d2, d1.
        now rewrite !lookup_insert_ne by discriminate.
  - destruct (addToSyncQueue_db (VStr "rounds") (VStr "put") round
                (fst (fst (readings O))) (snd (fst (readings O))) (snd (readings O)) d2)
      as (d3 & Hrun & Hother & _).
    destruct (enqueue_loop roundId readings holes (map snd items) 1%nat (withIdb d3 w)
                Hmap Hdb) as (d4 & Hloop & Hother4).
    cbn [idb withIdb] in Hother4.
    assert (Hr4 : d4 !! "rounds" = Some (store_put k round rs)).
    { now rewrite Hother4, Hother by discriminate. }
    assert (Hh4 : d4 !! "holeScores" = Some (put_all items hs)).
    { now rewrite Hother4, Hother by discriminate. }
    eexists. split.
    + rewrite run_bind, run_bind.
      rewrite (addToSyncQueue_hook _ _ _ _ _ _ (withIdb d2 w) d3 Hdb Hrun).
      rewrite withIdb_withIdb, run_bind. cbn [lift run]. rewrite Hholes, Hloop.
      rewrite withIdb_withIdb. apply (Hend d4 Hr4 Hh4).
    + rewrite run_bind.
      cbn [setRounds setHoleScores run snd idb withIdb rounds holeScores courses].
      split; [exact Hr4|]. split; [exact Hh4|]. split; [reflexivity|].
      split; [reflexivity|]. split; [apply roundOf_stamped|]. split.
      * intros c H1 H2 H3. rewrite (Hother4 c H3), (Hother c H3). unfold d2, d1.
        now rewrite !lookup_insert_ne by congruence.
      * split; [discriminate|reflexivity].
Qed.

Lemma saveRound_stores_round_and_holes_witness :
  let hole := VObj [("holeNumber", VNum 1); ("score", VNum 4)] in
  let roundData := VObj [("totalScore", VNum 80); ("holeScores", VArr [hole])] in
  let w := loaded sample_db sample_courses sample_rounds sample_holes in
  exists w',
    run (saveRound roundData sample_course 2000 2001 (fun _ => (3000, "0.5", 3000))) w
      = (Ok tt, w') /\
    idb w' !! "holeScores"
      = Some (put_all [(KStr "hole-round-2000-1",
                        VObj [("id", VStr "hole-round-2000-1");
                              ("roundId", VStr "round-2000");
                              ("holeNumber", VNum 1); ("score", VNum 4)])]
                sample_holes) /\
    idb w' !! "syncQueue" = idb w !! "syncQueue".
Proof.
  intros hole roundData w.
  destruct (saveRound_stores_round_and_holes roundData sample_course
              (VStr "sample-course-1") 2000 2001 (fun _ => (3000, "0.5", 3000)) w
              sample_rounds sample_holes
              [(KStr "hole-round-2000-1",
                VObj [("id", VStr "hole-round-2000-1"); ("roundId", VStr "round-2000");
                      ("holeNumber", VNum 1); ("score", VNum 4)])]
              [hole] (KStr "round-2000")
              eq_refl eq_refl eq_refl eq_refl eq_refl eq_refl eq_refl)
    as (w' & Hrun & _ & Hholes & _ & _ & _ & _ & Hon & _).
  - repeat constructor.
  - exists w'. split; [exact Hrun|]. split; [exact Hholes|]. now apply Hon.
Defined.

(** X29. [saveRound] is not atomic. When [roundData.holeScores] cannot
    be iterated (it is missing, say) the call rejects after the round
    has been written: the store holds the round, without any hole score
    of it, while the hook lists still show the state before the call. *)
Theorem saveRound_is_not_atomic (roundData selectedCourse courseId : value)
    (now now2 : Z) (readings : nat -> Z * string * Z) (w : World)
    (rs : objectStore) (k : key) (e : exn) :
  let round := roundOf roundData (VStr ("round-" +:+ pretty now)) courseId now2 in
  db w = true ->
  idb w !! "rounds" = Some rs ->
  prop selectedCourse "id" = Ok courseId ->
  keyOf "id" round = Ok k ->
  (v ← prop roundData "holeScores"; iterate v) = Err e ->
  exists w',
    run (saveRound roundData selectedCourse now now2 readings) w = (Err e, w') /\
    run (get "rounds" (key_value k)) (idb w') = (Ok round, idb w') /\
    (forall c, c <> "rounds" -> idb w' !! c = idb w !! c) /\
    rounds w' = rounds w /\ holeScores w' = holeScores w.
Proof.
  intros round Hdb Hrs Hcid Hk Hholes.
  exists (withIdb (<["rounds" := store_put k round rs]> (idb w)) w).
  split; [|split; [|split; [|split]]].
  - unfold saveRound. rewrite run_bind. cbn [hookState run]. cbv zeta.
    rewrite run_bind. cbn [lift run]. rewrite Hcid. fold round.
    rewrite run_bind, (onDb_run _ w Hdb).
    change (keyOf "id" round = Ok k) with (keyOf (keyPath "rounds") round = Ok k) in Hk.
    rewrite (put_run "rounds" round _ rs k Hrs Hk). cbn [fst snd].
    rewrite run_bind. cbn [lift run]. now rewrite Hholes.
  - cbn [idb withIdb]. rewrite (get_run "rounds" _ _ k (lookup_insert_eq _ _ _)).
    now rewrite store_get_put_eq.
  - intros c Hc. cbn [idb withIdb]. now rewrite lookup_insert_ne by congruence.
  - reflexivity.
  - reflexivity.
Qed.

Lemma saveRound_is_not_atomic_witness :
  let roundData := VObj [("totalScore", VNum 80)] in
  let w := loaded sample_db sample_courses sample_rounds sample_holes in
  exists w',
    run (saveRound roundData sample_course 2000 2001 (fun _ => (3000, "0.5", 3000))) w
      = (Err TypeError, w') /\
    run (get "rounds" (VStr "round-2000")) (idb w')
      = (Ok (roundOf roundData (VStr "round-2000") (VStr "sample-course-1") 2001), idb w') /\
    rounds w' = rounds w.
Proof.
  intros roundData w.
  destruct (saveRound_is_not_atomic roundData sample_course (VStr "sample-course-1")
              2000 2001 (fun _ => (3000, "0.5", 3000)) w sample_rounds
              (KStr "round-2000") TypeError eq_refl eq_refl eq_refl eq_refl eq_refl)
    as (w' & Hrun & Hget & _ & Hrounds & _).
  exists w'. repeat split; assumption.
Defined.

Lemma assign_get_out (o : obj) (f : string) :
  forall base, ~ In f (map fst o) -> obj_get (assign base (VObj o)) f = obj_get base f.
Proof.
  unfold assign. cbn [spread].
  induction o as [|[g v] o IH]; intros base Hnot; [reflexivity|].
  cbn [map fst In] in Hnot. cbn [fold_left fst snd].
  rewrite IH by tauto. apply obj_get_set_ne. intros ->. tauto.
Qed.

Lemma assign_get_in (o : obj) (f : string) :
  forall base, List.NoDup (map fst o) -> In f (map fst o) ->
               obj_get (assign base (VObj o)) f = obj_get o f.
Proof.
  induction o as [|[g v] o IH]; intros base Hnd Hin; [contradiction|].
  cbn [map fst] in Hnd, Hin. apply List.NoDup_cons_iff in Hnd as [Hg Hnd].
  change (assign base (VObj ((g, v) :: o))) with (assign (obj_set base g v) (VObj o)).
  cbn [obj_get]. destruct (String.eqb_spec g f) as [->|Hne].
  - rewrite assign_get_out by exact Hg. apply obj_get_set_eq.
  - destruct Hin as [E|Hin]; [contradiction|]. now apply IH.
Qed.

(** X30. The ids of a saved round. The spread of [roundData] comes
    after the generated id in the round that [saveRound] builds, so an
    [id] that [roundData] carries replaces [round-<now>] there; the hole
    scores are built from the generated id all the same: each one that
    has no [id] and no [roundId] of its own is named
    [hole-round-<now>-<holeNumber>] and points to [round-<now>], also
    when the round is stored under another id. *)
Theorem saveRound_spreads_win_over_generated_ids (rd ho : obj) (roundId : string)
    (courseId : value) (now2 n : Z) :
  List.NoDup (map fst rd) ->
  List.NoDup (map fst ho) ->
  obj_get ho "holeNumber" = VNum n ->
  let round := roundOf (VObj rd) (VStr roundId) courseId now2 in
  (In "id" (map fst rd) -> prop round "id" = Ok (obj_get rd "id")) /\
  (~ In "id" (map fst rd) -> prop round "id" = Ok (VStr roundId)) /\
  exists holeScore,
    holeScoreOf roundId (VObj ho) = Ok holeScore /\
    (~ In "id" (map fst ho) ->
       prop holeScore "id" = Ok (VStr ("hole-" +:+ roundId +:+ "-" +:+ pretty n))) /\
    (~ In "roundId" (map fst ho) -> prop holeScore "roundId" = Ok (VStr roundId)) /\
    (forall f, In f (map fst ho) -> prop holeScore f = prop (VObj ho) f).
Proof.
  intros Hrd Hho Hn round. split; [|split].
  - intros Hin. unfold round, roundOf. cbn [prop].
    rewrite !obj_get_set_ne by discriminate. now rewrite assign_get_in.
  - intros Hout. unfold round, roundOf. cbn [prop].
    rewrite !obj_get_set_ne by discriminate. now rewrite assign_get_out.
  - eexists. split.
    + unfold holeScoreOf. cbn [prop mbind result_bind]. rewrite Hn.
      cbn [template mbind result_bind]. reflexivity.
    + cbn [prop]. split; [|split].
      * intros Hout. now rewrite assign_get_out.
      * intros Hout. now rewrite assign_get_out.
      * intros f Hin. now rewrite assign_get_in.
Qed.

Lemma saveRound_spreads_win_over_generated_ids_witness :
  let rd := [("id", VStr "r-7"); ("totalScore", VNum 80)] in
  prop (roundOf (VObj rd) (VStr "round-2000") (VStr "course-1") 2001) "id"
    = Ok (VStr "r-7") /\
  exists holeScore,
    holeScoreOf "round-2000" (VObj [("holeNumber", VNum 1); ("score", VNum 4)])
      = Ok holeScore /\
    prop holeScore "roundId" = Ok (VStr "round-2000").
Proof.
  intros rd.
  destruct (saveRound_spreads_win_over_generated_ids rd
              [("holeNumber", VNum 1); ("score", VNum 4)] "round-2000"
              (VStr "course-1") 2001 1)
    as (Hid & _ & holeScore & Hbuilt & _ & Hlink & _).
  - repeat constructor; simpl; intuition discriminate.
  - repeat constructor; simpl; intuition discriminate.
  - reflexivity.
  - split.
    + apply Hid. now left.
    + exists holeScore. split; [exact Hbuilt|]. apply Hlink.
      simpl. intuition discriminate.
Defined.

End SaveRound.
